(** * The expression evaluator of calculator-telegram-bot (main.go)

    A shallow embedding of [Calculator.validateExpression],
    [Calculator.parseExpression] and [Calculator.Calculate], together with
    the parts of the Go standard library they call ([strings], [unicode/utf8],
    [regexp] on one character class, [strconv.ParseFloat], [math], [fmt]).

    Go strings are byte sequences: they are modelled by [string], whose
    characters are the bytes of the UTF-8 source text, so that ["×"] has
    length 2 exactly as [len("×")] has in Go.  [float64] is modelled by the
    IEEE-754 binary64 instance of [spec_float]. *)

From Stdlib Require Import ZArith NArith Lia List Bool Ascii String.
From Stdlib Require Import DecimalString DecimalFacts DecimalPos DecimalN.
From Stdlib Require Import Floats.SpecFloat.
From stdpp Require Import base strings gmap.

Import ListNotations.
Local Open Scope string_scope.

(** ** Errors *)

(** One constructor per [fmt.Errorf] site of main.go. *)
Inductive error : Type :=
  | errTooLong
  | errEmpty
  | errInvalidChars
  | errNoOperator
  | errUnsupported (op : string)
  | errDivZero
  | errModZero
  | errTooLarge
  | errNaN.

(** The text [err.Error()] returns, as the source spells it. *)
Definition Error (e : error) : string :=
  match e with
  | errTooLong => "выражение слишком длинное (максимум 100 символов)"
  | errEmpty => "пустое выражение"
  | errInvalidChars => "выражение содержит недопустимые символы"
  | errNoOperator => "операция не найдена или неправильный формат"
  | errUnsupported op => "неподдерживаемая операция: " +:+ op
  | errDivZero => "деление на ноль"
  | errModZero => "деление на ноль при вычислении остатка"
  | errTooLarge => "результат слишком велик"
  | errNaN => "результат не является числом"
  end.

(** The error taxonomy of the specification. *)
Inductive ErrorKind : Type :=
  | TooLong
  | Empty
  | InvalidCharacters
  | NoOperatorFound
  | UnsupportedOperator
  | DivisionByZero
  | ResultTooLarge
  | ResultNotANumber.

Definition kind (e : error) : ErrorKind :=
  match e with
  | errTooLong => TooLong
  | errEmpty => Empty
  | errInvalidChars => InvalidCharacters
  | errNoOperator => NoOperatorFound
  | errUnsupported _ => UnsupportedOperator
  | errDivZero | errModZero => DivisionByZero
  | errTooLarge => ResultTooLarge
  | errNaN => ResultNotANumber
  end.

(** ** Go strings *)

Module GoString.

(** [s[i]] as a number. *)
Definition byteval (c : ascii) : N := N_of_ascii c.

(** [len(s)]: the number of bytes. *)
Definition len (s : string) : nat := String.length s.

(** [s[:i]] *)
Fixpoint slice_to (i : nat) (s : string) : string :=
  match i, s with
  | S j, String c t => String c (slice_to j t)
  | _, _ => ""
  end.

(** [s[i:]] *)
Fixpoint slice_from (i : nat) (s : string) : string :=
  match i, s with
  | S j, String _ t => slice_from j t
  | _, _ => s
  end.

(** [strings.HasPrefix(s, prefix)] *)
Fixpoint HasPrefix (s prefix : string) {struct prefix} : bool :=
  match prefix, s with
  | "", _ => true
  | String p prefix', String c s' => Ascii.eqb c p && HasPrefix s' prefix'
  | String _ _, "" => false
  end.

Fixpoint Index_from (i : Z) (s substr : string) : Z :=
  if HasPrefix s substr then i
  else match s with
       | "" => (-1)%Z
       | String _ s' => Index_from (i + 1)%Z s' substr
       end.

(** [strings.Index(s, substr)]: the byte index of the first occurrence of
    [substr] in [s], or -1. *)
Definition Index (s substr : string) : Z := Index_from 0%Z s substr.

Fixpoint ReplaceAll_skip (old new : string) (skip : nat) (s : string) : string :=
  match s with
  | "" => ""
  | String c s' =>
      match skip with
      | S k => ReplaceAll_skip old new k s'
      | O =>
          if HasPrefix s old
          then new +:+ ReplaceAll_skip old new (len old - 1) s'
          else String c (ReplaceAll_skip old new O s')
      end
  end.

(** [strings.ReplaceAll(s, old, new)] for a non-empty [old]: the
    non-overlapping occurrences of [old], found left to right, are replaced
    by [new].  ([skip] counts the bytes of a matched occurrence still to be
    passed over.) *)
Definition ReplaceAll (s old new : string) : string :=
  ReplaceAll_skip old new O s.

(** Whether the byte [x] occurs in [s]. *)
Fixpoint contains_byte (x : ascii) (s : string) : bool :=
  match s with
  | "" => false
  | String c t => Ascii.eqb c x || contains_byte x t
  end.

(** [string(b)] for a byte [b]: the UTF-8 encoding of the code point [b],
    one byte below 0x80 and two bytes from 0x80 on. *)
Definition string_of_byte (c : ascii) : string :=
  let b := byteval c in
  if (b <? 128)%N then String c ""
  else String (ascii_of_N (192 + b / 64)) (String (ascii_of_N (128 + b mod 64)) "").

End GoString.
Import GoString.

(** ** unicode/utf8 and unicode *)

Module Utf8.

Definition rune : Type := N.
Definition RuneError : rune := 65533%N.

(** The information of utf8's [first] table and [acceptRanges]: for a
    leading byte, the length of the sequence and the range the second byte
    must lie in. *)
Inductive lead : Type :=
  | LeadASCII
  | LeadInvalid
  | LeadMulti (size : nat) (lo hi : N).

Definition first (b : N) : lead :=
  (if b <? 128 then LeadASCII
   else if b <? 194 then LeadInvalid
   else if b <? 224 then LeadMulti 2 128 191
   else if b =? 224 then LeadMulti 3 160 191
   else if b <? 237 then LeadMulti 3 128 191
   else if b =? 237 then LeadMulti 3 128 159
   else if b <? 240 then LeadMulti 3 128 191
   else if b =? 240 then LeadMulti 4 144 191
   else if b <? 244 then LeadMulti 4 128 191
   else if b =? 244 then LeadMulti 4 128 143
   else LeadInvalid)%N.

(** A continuation byte, [locb <= b <= hicb]. *)
Definition is_cont (b : N) : bool := ((128 <=? b) && (b <=? 191))%N.

(** [utf8.DecodeRuneInString]: the first rune of [s] and its width in
    bytes; [(RuneError, 1)] on an ill-formed sequence, [(RuneError, 0)] on
    the empty string.  The masks of the source are written as remainders
    ([s0 & 0x1F] is [s0 mod 32], [s1 & 0x3F] is [s1 mod 64]) and its shifts
    as products; the shifted parts do not overlap, so that [|] is [+]. *)
Definition DecodeRuneInString (s : string) : rune * nat :=
  match s with
  | "" => (RuneError, O)
  | String c0 t0 =>
      let s0 := byteval c0 in
      match first s0 with
      | LeadASCII => (s0, 1%nat)
      | LeadInvalid => (RuneError, 1%nat)
      | LeadMulti sz lo hi =>
          if (len s <? sz)%nat then (RuneError, 1%nat)
          else
            match t0 with
            | "" => (RuneError, 1%nat)
            | String c1 t1 =>
                let s1 := byteval c1 in
                if ((s1 <? lo) || (hi <? s1))%N then (RuneError, 1%nat)
                else if (sz <=? 2)%nat
                then ((s0 mod 32) * 64 + s1 mod 64, 2%nat)%N
                else
                  match t1 with
                  | "" => (RuneError, 1%nat)
                  | String c2 t2 =>
                      let s2 := byteval c2 in
                      if negb (is_cont s2) then (RuneError, 1%nat)
                      else if (sz <=? 3)%nat
                      then ((s0 mod 16) * 4096 + (s1 mod 64) * 64 + s2 mod 64,
                            3%nat)%N
                      else
                        match t2 with
                        | "" => (RuneError, 1%nat)
                        | String c3 _ =>
                            let s3 := byteval c3 in
                            if negb (is_cont s3) then (RuneError, 1%nat)
                            else ((s0 mod 8) * 262144 + (s1 mod 64) * 4096
                                  + (s2 mod 64) * 64 + s3 mod 64, 4%nat)%N
                        end
                  end
            end
      end
  end.

(** The runes a [for range] loop over [s] (or the regexp engine stepping
    through [s]) sees, each with its width.  [skip] counts the bytes of the
    current rune still to be passed over. *)
Fixpoint decode_skip (skip : nat) (s : string) : list (rune * nat) :=
  match s with
  | "" => []
  | String _ s' =>
      match skip with
      | S k => decode_skip k s'
      | O => let d := DecodeRuneInString s in d :: decode_skip (snd d - 1) s'
      end
  end.

Definition decode (s : string) : list (rune * nat) := decode_skip O s.

Definition runes (s : string) : list rune := map fst (decode s).

(** [utf8.RuneCountInString] *)
Definition RuneCountInString (s : string) : nat := List.length (decode s).

(** A decoding step that did not fail: anything but [(RuneError, 1)]. *)
Definition valid_step (d : rune * nat) : bool :=
  negb ((fst d =? RuneError)%N && (snd d =? 1)%nat).

(** [utf8.ValidString]: no step of the decoding fails. *)
Definition ValidString (s : string) : bool := forallb valid_step (decode s).

(** [unicode.IsSpace] *)
Definition IsSpace (r : rune) : bool :=
  ((9 <=? r) && (r <=? 13) || (r =? 32) || (r =? 133) || (r =? 160)
   || (r =? 5760) || (8192 <=? r) && (r <=? 8202) || (r =? 8232) || (r =? 8233)
   || (r =? 8239) || (r =? 8287) || (r =? 12288))%N.

End Utf8.
Import Utf8.

(** ** validateExpression *)

Definition maxExpressionLength : nat := 100.

(** [strings.TrimSpace(s) == ""]: [TrimSpace] removes the leading and the
    trailing runes that satisfy [unicode.IsSpace]; what is left is empty
    exactly when every rune of [s] is such a space. *)
Definition TrimSpace_is_empty (s : string) : bool := forallb IsSpace (runes s).

(** The class [[0-9+\-*/×÷^%().\s]] of the pattern in [validateExpression];
    in Go's regexp syntax [\s] is [[\t\n\f\r ]]. *)
Definition validChar (r : rune) : bool :=
  ((48 <=? r) && (r <=? 57)
   || (r =? 43) || (r =? 45) || (r =? 42) || (r =? 47)
   || (r =? 215) || (r =? 247) || (r =? 94) || (r =? 37)
   || (r =? 40) || (r =? 41) || (r =? 46)
   || (r =? 9) || (r =? 10) || (r =? 12) || (r =? 13) || (r =? 32))%N.

(** [validChars.MatchString(s)] for [^[...]+$]: the whole text is one or more
    runes of the class.  An ill-formed byte is seen as U+FFFD by the engine,
    which is not in the class. *)
Definition validChars_MatchString (s : string) : bool :=
  match runes s with
  | [] => false
  | rs => forallb validChar rs
  end.

Definition validateExpression (expr : string) : option error :=
  if (maxExpressionLength <? len expr)%nat then Some errTooLong
  else if TrimSpace_is_empty expr then Some errEmpty
  else if negb (validChars_MatchString expr) then Some errInvalidChars
  else None.

(** ** float64 *)

Module Float64.

Definition float64 : Type := spec_float.

Definition prec : Z := 53.
Definition emax : Z := 1024.

Definition add : float64 -> float64 -> float64 := SFadd prec emax.
Definition sub : float64 -> float64 -> float64 := SFsub prec emax.
Definition mul : float64 -> float64 -> float64 := SFmul prec emax.
Definition quo : float64 -> float64 -> float64 := SFdiv prec emax.
Definition neg : float64 -> float64 := SFopp.

(** [x == y] and [x < y] on float64: false whenever a NaN is involved,
    and [-0 == +0]. *)
Definition eqb : float64 -> float64 -> bool := SFeqb.
Definition ltb : float64 -> float64 -> bool := SFltb.

Definition zero : float64 := S754_zero false.
Definition one : float64 := S754_finite false 4503599627370496 (-52).
Definition NaN : float64 := S754_nan.
Definition Inf (negative : bool) : float64 := S754_infinity negative.

(** [math.IsInf(f, sign)] *)
Definition IsInf (f : float64) (sign : Z) : bool :=
  match f with
  | S754_infinity s => ((0 <=? sign)%Z && negb s) || ((sign <=? 0)%Z && s)
  | _ => false
  end.

(** [math.IsNaN(f)] *)
Definition IsNaN (f : float64) : bool :=
  match f with
  | S754_nan => true
  | _ => false
  end.

(** [math.Signbit(f)] *)
Definition Signbit (f : float64) : bool :=
  match f with
  | S754_zero s | S754_infinity s | S754_finite s _ _ => s
  | S754_nan => false
  end.

(** The integer a finite float is truncated to (towards zero). *)
Definition truncate (f : float64) : option Z :=
  match f with
  | S754_zero _ => Some 0%Z
  | S754_finite s m e => Some (cond_Zopp s (Z.shiftl (Zpos m) e))
  | _ => None
  end.

(** A finite float that is an integer / an odd integer. *)
Definition is_int (f : float64) : bool :=
  match f with
  | S754_zero _ => true
  | S754_finite _ m e =>
      (0 <=? e)%Z || (Z.shiftl (Z.shiftl (Zpos m) e) (- e) =? Zpos m)%Z
  | _ => false
  end.

Definition isOddInt (f : float64) : bool :=
  is_int f && match truncate f with Some n => Z.odd n | None => false end.

(** [float64(n)] for an integer [n]: the nearest float, ties to even. *)
Definition of_Z (n : Z) : float64 := binary_normalize prec emax n 0 false.

End Float64.
Import Float64.

(** ** What the model leaves to the Go implementation

    Three library behaviours are parameters of the development; every
    theorem below holds for all their values.
    - [parse_extended]: what [strconv.ParseFloat] does with the literals that
      are not plain decimals (exponents, hexadecimal floats, underscores,
      ["inf"], ["nan"]), each of which contains a letter or an underscore;
    - [pow_finite]: the value [math.Pow] computes outside its documented
      special cases (an approximation obtained through [Frexp], [Exp] and
      [Log]);
    - [int64_overflow]: the result of the conversion [int64(f)] when [f] is
      outside the range of [int64], which the language leaves to the
      implementation. *)
Class Platform : Type := {
  parse_extended : string -> option float64;
  pow_finite : float64 -> float64 -> float64;
  int64_overflow : float64 -> Z
}.

(** ** strconv.ParseFloat *)

Module Strconv.

Definition is_digit (c : ascii) : bool :=
  let b := byteval c in ((48 <=? b) && (b <=? 57))%N.

(** The bytes of a plain decimal literal: digits, signs and the point. *)
Definition plain_byte (c : ascii) : bool :=
  is_digit c || Ascii.eqb c "+" || Ascii.eqb c "-" || Ascii.eqb c ".".

Definition is_letter (c : ascii) : bool :=
  let b := byteval c in
  ((65 <=? b) && (b <=? 90) || (97 <=? b) && (b <=? 122))%N.

(** The bytes [readFloat] and [special] can consume at all. *)
Definition literal_byte (c : ascii) : bool :=
  plain_byte c || is_letter c || Ascii.eqb c "_".

Fixpoint all_bytes (p : ascii -> bool) (s : string) : bool :=
  match s with
  | "" => true
  | String c t => p c && all_bytes p t
  end.

(** The digit loop of [readFloat] in base 10 on a text without exponent:
    digits with at most one point; [mant] collects the digits and [scale]
    counts those after the point.  The text must be consumed whole and
    hold a digit. *)
Fixpoint readDigits (s : string) (sawdot sawdigits : bool) (mant scale : Z)
  : option (Z * Z) :=
  match s with
  | "" => if sawdigits then Some (mant, scale) else None
  | String c t =>
      if Ascii.eqb c "."
      then if sawdot then None else readDigits t true sawdigits mant scale
      else if is_digit c
      then readDigits t sawdot true
             (10 * mant + Z.of_N (byteval c - 48))%Z
             (if sawdot then scale + 1 else scale)%Z
      else None
  end.

(** [readFloat]: an optional sign, then the digits. *)
Definition readFloat (s : string) : option (bool * Z * Z) :=
  let '(negative, body) :=
    match s with
    | String "+" t => (false, t)
    | String "-" t => (true, t)
    | _ => (false, s)
    end in
  match readDigits body false false 0 0 with
  | Some (mant, scale) => Some (negative, mant, scale)
  | None => None
  end.

(** The float nearest to [mant * 10^-scale], ties to even: the quotient is
    taken with enough extra bits and rounded once, with the position of the
    remainder. *)
Definition decimal_to_float64 (negative : bool) (mant scale : Z) : float64 :=
  match mant with
  | Zpos _ =>
      let d := (10 ^ scale)%Z in
      let sh := (Z.log2 d + 64)%Z in
      let '(q, r) := Z.div_eucl (Z.shiftl mant sh) d in
      binary_round_aux prec emax negative q (- sh) (new_location d r)
  | _ => S754_zero negative
  end.

(** [strconv.ParseFloat(s, 64)]; [None] stands for a non-nil error
    ([ErrSyntax], or [ErrRange] when the value overflows). *)
Definition ParseFloat {go : Platform} (s : string) : option float64 :=
  if all_bytes plain_byte s then
    match readFloat s with
    | Some (negative, mant, scale) =>
        let f := decimal_to_float64 negative mant scale in
        if IsInf f 0 then None else Some f
    | None => None
    end
  else if all_bytes literal_byte s then parse_extended s
  else None.

End Strconv.
Import Strconv.

(** ** math.Mod and math.Pow *)

Module Math.

(** [math.Mod(x, y)]: the floating-point remainder of [x/y], of magnitude
    below [|y|] and with the sign of [x]; it is exact.  Special cases, as
    documented: [Mod(±Inf, y) = NaN], [Mod(NaN, y) = NaN],
    [Mod(x, 0) = NaN], [Mod(x, ±Inf) = x], [Mod(x, NaN) = NaN]. *)
Definition Mod (x y : float64) : float64 :=
  match x, y with
  | S754_nan, _ | _, S754_nan => NaN
  | S754_infinity _, _ => NaN
  | _, S754_zero _ => NaN
  | _, S754_infinity _ => x
  | S754_zero _, S754_finite _ _ _ => x
  | S754_finite sx mx ex, S754_finite _ my ey =>
      let e := Z.min ex ey in
      let r := (Z.shiftl (Zpos mx) (ex - e) mod Z.shiftl (Zpos my) (ey - e))%Z in
      binary_normalize prec emax (cond_Zopp sx r) e sx
  end.

(** [math.Pow(x, y)].  The special cases are those the documentation of
    [math.Pow] lists, tested in an order that agrees with every one of them;
    what is left (finite non-zero [x] other than 1, finite [y] other than 0
    and 1, and [x > 0] or [y] an integer) is [pow_finite]. *)
Definition Pow {go : Platform} (x y : float64) : float64 :=
  if eqb y zero || eqb x one then one
  else if eqb y one then x
  else if IsNaN x || IsNaN y then NaN
  else if eqb x zero then
    if ltb y zero
    then (if Signbit x && isOddInt y then Inf true else Inf false)
    else (if Signbit x && isOddInt y then x else zero)
  else if IsInf y 0 then
    if eqb x (neg one) then one
    else if Bool.eqb (ltb (SFabs x) one) (IsInf y 1) then zero
    else Inf false
  else if IsInf x 0 then
    if IsInf x (-1)
    then (if ltb y zero
          then (if isOddInt y then S754_zero true else zero)
          else (if isOddInt y then Inf true else Inf false))
    else (if ltb y zero then zero else Inf false)
  else if ltb x zero && negb (is_int y) then NaN
  else pow_finite x y.

End Math.
Import Math.

(** ** fmt.Sprintf with the verbs %.0f and %.6g *)

Module Fmt.

(** The decimal digits of a natural number. *)
Definition Z_to_string (n : Z) : string :=
  NilZero.string_of_uint (N.to_uint (Z.to_N n)).

(** [n/d] rounded to the nearest integer, ties to even ([d > 0]). *)
Definition round_half_even (n d : Z) : Z :=
  let q := (n / d)%Z in
  match (2 * (n mod d) ?= d)%Z with
  | Lt => q
  | Gt => (q + 1)%Z
  | Eq => if Z.even q then q else (q + 1)%Z
  end.

(** [m * 2^e] as a fraction. *)
Definition fraction_of (m : positive) (e : Z) : Z * Z :=
  ((Zpos m * 2 ^ Z.max e 0)%Z, (2 ^ Z.max (- e) 0)%Z).

Definition sign_string (negative : bool) : string :=
  if negative then "-" else "".

(** [fmt.Sprintf("%.0f", f)]: the value rounded to an integer, in decimal
    digits, after a minus sign when the sign bit is set. *)
Definition Sprintf_f0 (f : float64) : string :=
  match f with
  | S754_nan => "NaN"
  | S754_infinity s => if s then "-Inf" else "+Inf"
  | S754_zero s => sign_string s +:+ "0"
  | S754_finite s m e =>
      let '(n, d) := fraction_of m e in
      sign_string s +:+ Z_to_string (round_half_even n d)
  end.

(** strconv's [decimalSlice]: the digits (without trailing zeros) of a number
    [0.digits * 10^dp]. *)
Record decimalSlice : Type := { digits : string; dp : Z }.

Definition nd (digs : decimalSlice) : Z := Z.of_nat (len (digits digs)).

Definition num_digits (n : Z) : Z := Z.of_nat (len (Z_to_string n)).

(** The position of the decimal point of [n/d > 0]: the [p] with
    [10^(p-1) <= n/d < 10^p]. *)
Definition point_of (n d : Z) : Z :=
  if (d <=? n)%Z then num_digits (n / d) else (1 - num_digits ((d - 1) / n))%Z.

Fixpoint rstrip_zeros_rev (r : list ascii) : list ascii :=
  match r with
  | c :: r' => if Ascii.eqb c "0" then rstrip_zeros_rev r' else r
  | [] => []
  end.

Definition rstrip_zeros (s : string) : string :=
  string_of_list_ascii (rev (rstrip_zeros_rev (rev (list_ascii_of_string s)))).

(** The digits of [n/d > 0] rounded to [p] significant digits, ties to
    even. *)
Definition round_digits (p : Z) (n d : Z) : decimalSlice :=
  let e := point_of n d in
  let m := round_half_even (n * 10 ^ Z.max (p - e) 0) (d * 10 ^ Z.max (e - p) 0) in
  if (m =? 10 ^ p)%Z
  then {| digits := "1"; dp := e + 1 |}
  else {| digits := rstrip_zeros (Z_to_string m); dp := e |}.

(** [digs.d[i:j]], with '0' wherever the index is outside the digits. *)
Definition digits_between (digs : decimalSlice) (i j : Z) : string :=
  string_of_list_ascii
    (map (fun k : nat =>
            let z := (i + Z.of_nat k)%Z in
            if (z <? 0)%Z then "0"%char
            else match String.get (Z.to_nat z) (digits digs) with
                 | Some c => c
                 | None => "0"%char
                 end)
         (seq 0 (Z.to_nat (j - i)))).

(** strconv's [fmtE]: [d.ddddde±dd]. *)
Definition fmtE (negative : bool) (digs : decimalSlice) (p : Z) : string :=
  let exp := if (nd digs =? 0)%Z then 0%Z else (dp digs - 1)%Z in
  sign_string negative
  +:+ digits_between digs 0 1
  +:+ (if (0 <? p)%Z then "." +:+ digits_between digs 1 (1 + p) else "")
  +:+ "e"
  +:+ (if (exp <? 0)%Z then "-" else "+")
  +:+ (if (Z.abs exp <? 10)%Z then "0" else "")
  +:+ Z_to_string (Z.abs exp).

(** strconv's [fmtF]: [ddddd.ddd]. *)
Definition fmtF (negative : bool) (digs : decimalSlice) (p : Z) : string :=
  sign_string negative
  +:+ (if (0 <? dp digs)%Z then digits_between digs 0 (dp digs) else "0")
  +:+ (if (0 <? p)%Z
       then "." +:+ digits_between digs (dp digs) (dp digs + p)
       else "").

(** strconv's [formatDigits] for the verb 'g' with a given precision. *)
Definition fmtG (negative : bool) (digs : decimalSlice) (p : Z) : string :=
  let eprec :=
    if (nd digs <? p)%Z && (dp digs <=? nd digs)%Z then nd digs else p in
  let exp := (dp digs - 1)%Z in
  if (exp <? -4)%Z || (eprec <=? exp)%Z
  then fmtE negative digs (Z.min p (nd digs) - 1)
  else fmtF negative digs
         (Z.max ((if (dp digs <? p)%Z then nd digs else p) - dp digs) 0).

(** The digits the verbs 'e' and 'g' print for a finite [f] at precision
    [p]: those of the value rounded to [p] significant digits; none for a
    zero. *)
Definition rounded_digits (p : Z) (f : float64) : decimalSlice :=
  match f with
  | S754_finite _ m e => let '(n, d) := fraction_of m e in round_digits p n d
  | _ => {| digits := ""; dp := 0 |}
  end.

(** [fmt.Sprintf("%.6g", f)] *)
Definition Sprintf_g6 (f : float64) : string :=
  match f with
  | S754_nan => "NaN"
  | S754_infinity s => if s then "-Inf" else "+Inf"
  | _ => fmtG (Signbit f) (rounded_digits 6 f) 6
  end.

(** The decimal numeral of an integer [n], after a minus sign when
    [negative]. *)
Definition integer_numeral (negative : bool) (n : Z) : string :=
  sign_string negative +:+ Z_to_string (Z.abs n).

End Fmt.
Import Fmt.

(** ** The calculator *)

(** The type of the closures in [Calculator.supportedOps]. *)
Abbreviation opFunc := (float64 -> float64 -> float64 * option error)%type.

Section Calculator.

Context {go : Platform}.

(** [NewCalculator().supportedOps] *)
Definition supportedOps : gmap string opFunc :=
  {[ "+" := (fun a b => (add a b, None)) : opFunc;
     "-" := (fun a b => (sub a b, None)) : opFunc;
     "*" := (fun a b => (mul a b, None)) : opFunc;
     "×" := (fun a b => (mul a b, None)) : opFunc;
     "/" := (fun a b =>
               if eqb b zero then (zero, Some errDivZero)
               else (quo a b, None)) : opFunc;
     "÷" := (fun a b =>
               if eqb b zero then (zero, Some errDivZero)
               else (quo a b, None)) : opFunc;
     "^" := (fun a b => (Pow a b, None)) : opFunc;
     "**" := (fun a b => (Pow a b, None)) : opFunc;
     "%" := (fun a b =>
               if eqb b zero then (zero, Some errModZero)
               else (Mod a b, None)) : opFunc ]}.

Definition operators : list string :=
  ["**"; "÷"; "×"; "^"; "%"; "/"; "*"; "+"; "-"].

(** The common tail of both branches of [parseExpression]: with
    [left := expr[:i]] and [right := expr[i+n:]], the two operands if
    [right] is not empty and both parse. *)
Definition operands (expr : string) (i n : nat) : option (float64 * float64) :=
  let left := slice_to i expr in
  let right := slice_from (i + n) expr in
  if negb (String.eqb right "") then
    match ParseFloat left, ParseFloat right with
    | Some a, Some b => Some (a, b)
    | _, _ => None
    end
  else None.

(** A byte before which [+] or [-] is read as the binary operator. *)
Definition ends_operand (prevChar : ascii) : bool :=
  is_digit prevChar || Ascii.eqb prevChar ")".

(** The loop [for i := 1; i < len(expr); i++] for [op] one of ["+"] and
    ["-"]; [n] is the number of iterations left. *)
Fixpoint signLoop (expr op : string) (n i : nat) : option (float64 * float64) :=
  match n with
  | O => None
  | S n' =>
      let next := signLoop expr op n' (S i) in
      match String.get i expr, String.get (i - 1) expr with
      | Some c, Some prevChar =>
          if String.eqb (string_of_byte c) op && ends_operand prevChar
          then match operands expr i 1 with
               | Some ab => Some ab
               | None => next
               end
          else next
      | _, _ => next
      end
  end.

(** The loop [for _, op := range operators]. *)
Fixpoint scanOperators (expr : string) (ops : list string)
  : float64 * string * float64 * option error :=
  match ops with
  | [] => (zero, "", zero, Some errNoOperator)
  | op :: ops' =>
      let found :=
        if String.eqb op "-" || String.eqb op "+"
        then signLoop expr op (len expr - 1) 1
        else
          let idx := Index expr op in
          if (0 <? idx)%Z then operands expr (Z.to_nat idx) (len op) else None in
      match found with
      | Some (a, b) => (a, op, b, None)
      | None => scanOperators expr ops'
      end
  end.

Definition parseExpression (expr : string)
  : float64 * string * float64 * option error :=
  let expr := ReplaceAll expr " " "" in
  scanOperators expr operators.

(** [expr] splits around [op] into two non-empty operands that parse to [a]
    and [b]; when [op] is a sign character, the left operand ends in a byte
    that [ends_operand] accepts. *)
Definition splits (expr : string) (a : float64) (op : string) (b : float64)
  : Prop :=
  exists l r : string,
    expr = l +:+ op +:+ r
    /\ l <> "" /\ r <> ""
    /\ ParseFloat l = Some a /\ ParseFloat r = Some b
    /\ (op = "+" \/ op = "-" ->
        exists (l' : string) (c : ascii),
          l = l' +:+ String c "" /\ ends_operand c = true).

(** [int64(f)] *)
Definition wrap64 (n : Z) : Z :=
  ((n + 2 ^ 63) mod 2 ^ 64 - 2 ^ 63)%Z.

Definition int64_of_float64 (f : float64) : Z :=
  match truncate f with
  | Some n =>
      if ((- 2 ^ 63 <=? n) && (n <? 2 ^ 63))%Z then n
      else wrap64 (int64_overflow f)
  | None => wrap64 (int64_overflow f)
  end.

(** The last lines of [Calculate]: the tests on the result and its
    formatting. *)
Definition formatResult (result : float64) : string * option error :=
  if IsInf result 0 then ("", Some errTooLarge)
  else if IsNaN result then ("", Some errNaN)
  else if eqb result (of_Z (int64_of_float64 result))
  then (Sprintf_f0 result, None)
  else (Sprintf_g6 result, None).

Definition Calculate (expr : string) : string * option error :=
  match validateExpression expr with
  | Some err => ("", Some err)
  | None =>
      let '(a, op, b, err) := parseExpression expr in
      match err with
      | Some err => ("", Some err)
      | None =>
          match supportedOps !! op with
          | None => ("", Some (errUnsupported op))
          | Some opFunc =>
              let '(result, err) := opFunc a b in
              match err with
              | Some err => ("", Some err)
              | None => formatResult result
              end
          end
      end
  end.

End Calculator.

(** ** Definitions used to state the claims *)

(** The reading of "strip all whitespace" in the specification: every
    character of the validator's class [\s] is removed.  This is not what
    [parseExpression] does; it serves to state that sentence as written. *)
Definition is_whitespace_byte (c : ascii) : bool :=
  let b := byteval c in
  ((b =? 9) || (b =? 10) || (b =? 12) || (b =? 13) || (b =? 32))%N.

Fixpoint spec_remove_whitespace (s : string) : string :=
  match s with
  | "" => ""
  | String c t =>
      if is_whitespace_byte c then spec_remove_whitespace t
      else String c (spec_remove_whitespace t)
  end.

(** The text [parseExpression] scans: [expr] without its spaces. *)
Abbreviation without_spaces s := (ReplaceAll s " " "").

(** The string ["\t"]. *)
Definition tab : string := String "009" "".

(** The platform the closed examples are evaluated on: [strconv.ParseFloat]
    restricted to plain decimals, an out-of-range conversion to [int64]
    yielding the smallest [int64] (as on amd64), and an arbitrary value
    for [math.Pow] outside its special cases, here NaN.  The theorems hold
    for every platform; an example that raises a number to a power outside
    the special cases shows this NaN and not what Go computes. *)
Definition reference : Platform :=
  {| parse_extended := fun _ => None;
     pow_finite := fun _ _ => NaN;
     int64_overflow := fun _ => (- 2 ^ 63)%Z |}.

(** A byte of a multi-byte UTF-8 sequence. *)
Definition high_byte (c : ascii) : bool := (128 <=? byteval c)%N.

(** A decoding step that did not yield a space (U+0020). *)
Definition not_space (d : rune * nat) : bool := negb (fst d =? 32)%N.

(** ** Reading a printed number

    These definitions serve to state what a printed result denotes. *)









(** ** strings.TrimSpace *)

Module Trim.

(** strings' table [asciiSpace]: tab, newline, vertical tab, form feed,
    carriage return and space. *)
Definition asciiSpace (c : ascii) : bool :=
  let b := byteval c in
  ((b =? 9) || (b =? 10) || (b =? 11) || (b =? 12) || (b =? 13) || (b =? 32))%N.

(** [utf8.RuneStart(b)]: [b&0xC0 != 0x80]. *)
Definition RuneStart (b : N) : bool := negb (is_cont b).

(** The loop [for start--; start >= lim; start--] of
    [DecodeLastRuneInString], which stops at a byte that can start a rune;
    it runs at most three times, [n] bounds its iterations. *)
Fixpoint scanBack (s : string) (n : nat) (start lim : Z) : Z :=
  match n with
  | O => start
  | S n' =>
      if (start <? lim)%Z then start
      else match String.get (Z.to_nat start) s with
           | Some c =>
               if RuneStart (byteval c) then start
               else scanBack s n' (start - 1)%Z lim
           | None => start
           end
  end.

(** [utf8.DecodeLastRuneInString]: the last rune of [s] and its width;
    [(RuneError, 1)] when the text does not end in a well-formed sequence,
    [(RuneError, 0)] on the empty string. *)
Definition DecodeLastRuneInString (s : string) : rune * nat :=
  match len s with
  | O => (RuneError, O)
  | S last =>
      match String.get last s with
      | None => (RuneError, O)
      | Some c =>
          if (byteval c <? 128)%N then (byteval c, 1%nat)
          else
            let lim := Z.max (Z.of_nat (len s) - 4) 0 in
            let start := scanBack s 4 (Z.of_nat last - 1)%Z lim in
            let start := Z.to_nat (Z.max start 0) in
            let '(r, size) := DecodeRuneInString (slice_from start s) in
            if negb (start + size =? len s)%nat then (RuneError, 1%nat)
            else (r, size)
      end
  end.

(** strings' [indexFunc]: the byte index of the first rune [r] of a
    [for range] loop with [f(r) == truth], or -1. *)
Fixpoint indexFunc_from (ds : list (rune * nat)) (i : nat)
         (f : rune -> bool) (truth : bool) : Z :=
  match ds with
  | [] => (-1)%Z
  | (r, w) :: ds' =>
      if Bool.eqb (f r) truth then Z.of_nat i
      else indexFunc_from ds' (i + w) f truth
  end.

Definition indexFunc (s : string) (f : rune -> bool) (truth : bool) : Z :=
  indexFunc_from (decode s) O f truth.

(** strings' [lastIndexFunc]: the loop [for i := len(s); i > 0; ] that
    steps backwards rune by rune; [n] bounds its iterations. *)
Fixpoint lastIndexFunc_loop (s : string) (f : rune -> bool) (truth : bool)
         (n i : nat) : Z :=
  match n with
  | O => (-1)%Z
  | S n' =>
      if (i =? 0)%nat then (-1)%Z
      else
        let '(r, size) := DecodeLastRuneInString (slice_to i s) in
        let i := (i - size)%nat in
        if Bool.eqb (f r) truth then Z.of_nat i
        else lastIndexFunc_loop s f truth n' i
  end.

Definition lastIndexFunc (s : string) (f : rune -> bool) (truth : bool) : Z :=
  lastIndexFunc_loop s f truth (S (len s)) (len s).

(** [strings.TrimLeftFunc] *)
Definition TrimLeftFunc (s : string) (f : rune -> bool) : string :=
  let i := indexFunc s f false in
  if (i =? -1)%Z then "" else slice_from (Z.to_nat i) s.

(** [strings.TrimRightFunc] *)
Definition TrimRightFunc (s : string) (f : rune -> bool) : string :=
  let i := lastIndexFunc s f false in
  let high :=
    match String.get (Z.to_nat i) s with
    | Some c => (128 <=? byteval c)%N
    | None => false
    end in
  let i :=
    if (0 <=? i)%Z && high
    then (Z.to_nat i + snd (DecodeRuneInString (slice_from (Z.to_nat i) s)))%nat
    else Z.to_nat (i + 1) in
  slice_to i s.

(** [strings.TrimFunc] *)
Definition TrimFunc (s : string) (f : rune -> bool) : string :=
  TrimRightFunc (TrimLeftFunc s f) f.

(** The second loop of [strings.TrimSpace], on [t = s[start:]]: [stop]
    goes down from [len(t)] while the byte before it is an ASCII space. *)
Fixpoint TrimSpace_stop (t : string) (stop : nat) : string :=
  match stop with
  | O => ""
  | S k =>
      match String.get k t with
      | Some c =>
          if (128 <=? byteval c)%N then TrimRightFunc (slice_to stop t) IsSpace
          else if asciiSpace c then TrimSpace_stop t k
          else slice_to stop t
      | None => ""
      end
  end.

(** [strings.TrimSpace]: the first loop skips the leading ASCII spaces; a
    byte from 0x80 on hands over to the functions that decode runes. *)
Fixpoint TrimSpace (s : string) : string :=
  match s with
  | "" => ""
  | String c t =>
      if (128 <=? byteval c)%N then TrimFunc s IsSpace
      else if asciiSpace c then TrimSpace t
      else TrimSpace_stop s (len s)
  end.

End Trim.
Import Trim.

(** ** The message handler *)

(** The fields of [tgbotapi.Message] and [tgbotapi.Chat] that
    [handleMessage] reads; [Chat] is a pointer. *)
Record Chat : Type := { ID : Z }.

Module Incoming.
Record Message : Type := { MessageID : Z; Chat : option Chat; Text : string }.
End Incoming.

(** [tgbotapi.MessageConfig] as [tgbotapi.NewMessage(chatID, text)] builds it
    and [handleMessage] completes it. *)
Module Outgoing.
Record MessageConfig : Type := { ChatID : Z; ReplyToMessageID : Z; Text : string }.
End Outgoing.

(** The string literals of [handleMessage]. *)
Record ReplyTexts : Type := {
  startText : string;
  helpText : string;
  errorPrefix : string;
  errorSuffix : string;
  resultPrefix : string;
  sendFailure : string
}.

(** A line feed, the [\n] of an interpreted string literal. *)
Definition LF : string := String "010" "".

(** The literals of main.go.  The copy of the program under src/unnamed
    decorates these texts and is otherwise the same code; the properties
    below are stated for any [ReplyTexts]. *)
Definition main_go : ReplyTexts :=
  {| startText := "Привет! Я калькулятор-бот.
		
Поддерживаемые операции:
• Сложение: +
• Вычитание: -
• Умножение: * или ×
• Деление: / или ÷
• Возведение в степень: ^ или **
• Остаток от деления: %

Примеры:
• 2 + 3
• 10.5 * 2
• 16 / 4
• 2 ^ 3
• 10 % 3

Просто отправьте мне математическое выражение!";
     helpText := "Справка по использованию:

Отправьте математическое выражение в формате: число операция число

Примеры корректных выражений:
• 15 + 25
• 100 - 50
• 12.5 * 4
• 144 / 12
• 2 ^ 10
• 17 % 5

Ограничения:
• Максимум 100 символов
• Только простые выражения (два числа и одна операция)
• Деление на ноль запрещено";
     errorPrefix := "Ошибка: ";
     errorSuffix := LF +:+ LF +:+ "Используйте /help для получения справки.";
     resultPrefix := "✅Результат: ";
     sendFailure := "Ошибка отправки сообщения: " |}.

(** What the handler has done: the messages handed to [h.bot.Send], and the
    lines given to [log.Printf]. *)
Record World : Type := { sent : list Outgoing.MessageConfig; logged : list string }.

(** How a call ends: it returns, or it panics on a nil pointer. *)
Inductive outcome : Type :=
  | Returned (w : World)
  | Panicked.

Section Bot.

Context {go : Platform}.

Variable texts : ReplyTexts.

(** The error of [h.bot.Send(msg)], if any, as [%v] prints it. *)
Variable Send : Outgoing.MessageConfig -> option string.

(** The [switch] of [handleMessage]. *)
Definition replyTo (text : string) : string :=
  if String.eqb text "/start" then startText texts
  else if String.eqb text "/help" then helpText texts
  else
    match Calculate text with
    | (_, Some err) => errorPrefix texts +:+ Error err +:+ errorSuffix texts
    | (result, None) => resultPrefix texts +:+ result
    end.

Definition handleMessage (message : option Incoming.Message) (w : World) : outcome :=
  match message with
  | None => Returned w
  | Some m =>
      if String.eqb (Incoming.Text m) "" then Returned w
      else
        let text := TrimSpace (Incoming.Text m) in
        let reply := replyTo text in
        match Incoming.Chat m with
        | None => Panicked
        | Some chat =>
            let msg :=
              {| Outgoing.ChatID := ID chat;
                 Outgoing.ReplyToMessageID := Incoming.MessageID m;
                 Outgoing.Text := reply |} in
            match Send msg with
            | Some err =>
                Returned {| sent := sent w ++ [msg];
                            logged := logged w ++ [sendFailure texts +:+ err] |}
            | None => Returned {| sent := sent w ++ [msg]; logged := logged w |}
            end
        end
  end.

End Bot.

(** ** Definitions used to state further properties *)

(** The bytes of an operand after its sign: digits and the point. *)
Definition operand_byte (c : ascii) : bool := is_digit c || Ascii.eqb c ".".

(** Whether the last byte of a text is a digit. *)
Definition ends_in_digit (s : string) : bool :=
  match String.get (len s - 1) s with
  | Some c => is_digit c
  | None => false
  end.

(** A byte of a text that [validateExpression] accepts: an ASCII character
    of its class, or a byte of a multi-byte sequence. *)
Definition class_byte (c : ascii) : bool :=
  validChar (byteval c) || high_byte c.

(** The bytes of a printed result: digits, signs, the point and the [e] of
    an exponent. *)
Definition result_byte (c : ascii) : bool :=
  is_digit c || Ascii.eqb c "-" || Ascii.eqb c "+" || Ascii.eqb c "."
  || Ascii.eqb c "e".

(** The decimal numeral of an integer, as it is typed and as it is printed:
    the digits of its magnitude, after a minus sign when it is negative. *)
Definition numeral (n : Z) : string := integer_numeral (n <? 0)%Z n.

(** The float64 of value [±k * 2^e], for a [k] of at most 53 bits and a
    value in the normal range: the mantissa is brought to 53 bits. *)
Definition normal (s : bool) (k : positive) (e : Z) : float64 :=
  let d := Zpos (digits2_pos k) in
  S754_finite s (Z.to_pos (Z.shiftl (Zpos k) (prec - d))) (e + d - prec).

(** * Proofs *)

(** [lia] after the division and modulo of the goal are replaced by their
    Euclidean equations. *)
Ltac div_lia := zify; Z.to_euclidean_division_equations; lia.

(** ** Strings *)

Section StringFacts.

Lemma append_cons (c : ascii) (a b : string) :
  String c a +:+ b = String c (a +:+ b).
Proof. reflexivity. Qed.

Lemma append_nil_l (b : string) : "" +:+ b = b.
Proof. reflexivity. Qed.

Lemma slice_to_from (i : nat) (s : string) :
  slice_to i s +:+ slice_from i s = s.
Proof.
  revert s; induction i as [|i IH]; intros [|c t]; simpl; try reflexivity.
  rewrite append_cons. f_equal. apply IH.
Qed.

Lemma slice_from_add (i j : nat) (s : string) :
  slice_from (i + j) s = slice_from j (slice_from i s).
Proof.
  revert s; induction i as [|i IH]; intros s; simpl; [reflexivity|].
  destruct s as [|c t]; [now destruct j|apply IH].
Qed.

Lemma all_bytes_app (p : ascii -> bool) (a b : string) :
  all_bytes p (a +:+ b) = all_bytes p a && all_bytes p b.
Proof.
  induction a as [|c a IH]; [reflexivity|].
  rewrite append_cons. simpl. rewrite <- andb_assoc. f_equal. apply IH.
Qed.

Lemma HasPrefix_split (s p : string) :
  HasPrefix s p = true -> s = p +:+ slice_from (len p) s.
Proof.
  revert s; induction p as [|c p IH]; intros s Hp; simpl in *.
  - now destruct s.
  - destruct s as [|c' s]; [discriminate|].
    apply andb_true_iff in Hp as [Hc Hp].
    apply Ascii.eqb_eq in Hc; subst c'.
    rewrite append_cons. simpl. f_equal. now apply IH.
Qed.

Lemma Index_from_found (k : Z) (s sub : string) :
  (0 <= k)%Z -> (0 <= Index_from k s sub)%Z ->
  exists j : nat,
    Index_from k s sub = (k + Z.of_nat j)%Z
    /\ HasPrefix (slice_from j s) sub = true.
Proof.
  revert k; induction s as [|c t IH]; intros k Hk Hi.
  - unfold Index_from in *. destruct (HasPrefix "" sub) eqn:E.
    + exists O. split; [lia|exact E].
    + lia.
  - cbn [Index_from] in *.
    destruct (HasPrefix (String c t) sub) eqn:E.
    + exists O. split; [lia|exact E].
    + destruct (IH (k + 1)%Z) as [j [Hj Hp]]; [lia|exact Hi|].
      exists (S j). split; [lia|exact Hp].
Qed.

End StringFacts.

(** ** The tokenizer *)

Section ParserFacts.

Context {go : Platform}.

Lemma get_split (i : nat) (s : string) (c : ascii) :
  String.get i s = Some c ->
  s = slice_to i s +:+ String c (slice_from (S i) s).
Proof.
  revert s; induction i as [|i IH]; intros [|c' t] Hg; simpl in Hg; try discriminate.
  - injection Hg as ->. reflexivity.
  - cbn [slice_to slice_from]. rewrite append_cons. f_equal.
    apply (IH t Hg).
Qed.

Lemma slice_to_snoc (i : nat) (s : string) (c : ascii) :
  String.get i s = Some c ->
  slice_to (S i) s = slice_to i s +:+ String c "".
Proof.
  revert s; induction i as [|i IH]; intros [|c' t] Hg; simpl in Hg; try discriminate.
  - injection Hg as ->. now destruct t.
  - change (slice_to (S (S i)) (String c' t)) with (String c' (slice_to (S i) t)).
    rewrite (IH t Hg). reflexivity.
Qed.

Lemma operands_spec (expr : string) (i n : nat) (a b : float64) :
  operands expr i n = Some (a, b) ->
  ParseFloat (slice_to i expr) = Some a
  /\ ParseFloat (slice_from (i + n) expr) = Some b
  /\ slice_from (i + n) expr <> "".
Proof.
  unfold operands.
  destruct (String.eqb (slice_from (i + n) expr) "") eqn:E; simpl; [discriminate|].
  apply String.eqb_neq in E.
  destruct (ParseFloat (slice_to i expr)) as [a'|]; [|discriminate].
  destruct (ParseFloat (slice_from (i + n) expr)) as [b'|]; [|discriminate].
  intros [= -> ->]. auto.
Qed.

Lemma string_of_byte_sign (c : ascii) (op : string) :
  op = "+" \/ op = "-" -> string_of_byte c = op -> op = String c "".
Proof.
  unfold string_of_byte. intros Hop.
  destruct (byteval c <? 128)%N; [congruence|].
  destruct Hop as [-> | ->]; discriminate.
Qed.

Lemma signLoop_found (expr op : string) (n i : nat) (a b : float64) :
  signLoop expr op n i = Some (a, b) ->
  exists (j : nat) (c prevChar : ascii),
    (i <= j)%nat
    /\ String.get j expr = Some c
    /\ String.get (j - 1) expr = Some prevChar
    /\ string_of_byte c = op
    /\ ends_operand prevChar = true
    /\ operands expr j 1 = Some (a, b).
Proof.
  revert i; induction n as [|n IH]; intros i; simpl; [discriminate|].
  intros Hs.
  assert (Hnext : signLoop expr op n (S i) = Some (a, b) ->
                  exists (j : nat) (c prevChar : ascii),
                    (i <= j)%nat
                    /\ String.get j expr = Some c
                    /\ String.get (j - 1) expr = Some prevChar
                    /\ string_of_byte c = op
                    /\ ends_operand prevChar = true
                    /\ operands expr j 1 = Some (a, b)).
  { intros Hn. destruct (IH _ Hn) as (j & c & p & Hj & R).
    exists j, c, p. split; [lia|exact R]. }
  destruct (String.get i expr) as [c|] eqn:Ec; [|auto].
  destruct (String.get (i - 1) expr) as [p|] eqn:Ep; [|auto].
  destruct (String.eqb (string_of_byte c) op && ends_operand p) eqn:Eg; [|auto].
  destruct (operands expr i 1) as [[a' b']|] eqn:Eo; [|auto].
  injection Hs as -> ->.
  apply andb_true_iff in Eg as [Eg1 Eg2]. apply String.eqb_eq in Eg1.
  exists i, c, p. repeat split; auto.
Qed.

Lemma slice_to_nonempty (i : nat) (s : string) (c : ascii) :
  (0 < i)%nat -> String.get (i - 1) s = Some c -> slice_to i s <> "".
Proof.
  destruct i as [|i]; [lia|]. destruct s; simpl; [discriminate|]. intros _ _ [=].
Qed.

Lemma scanOperators_found (expr : string) (ops : list string)
      (a : float64) (op : string) (b : float64) :
  scanOperators expr ops = (a, op, b, None) ->
  In op ops /\ splits expr a op b.
Proof.
  induction ops as [|o ops IH]; simpl; [discriminate|].
  destruct (String.eqb o "-" || String.eqb o "+") eqn:Esign.
  - destruct (signLoop expr o (len expr - 1) 1) as [[a' b']|] eqn:El.
    + intros [= -> -> ->]. split; [now left|].
      destruct (signLoop_found _ _ _ _ _ _ El) as (j & c & p & Hj & Hc & Hp & Ho & He & Hops).
      assert (Hsign : op = "+" \/ op = "-").
      { apply orb_true_iff in Esign as [E|E]; apply String.eqb_eq in E; auto. }
      pose proof (string_of_byte_sign c op Hsign Ho) as Hop.
      apply operands_spec in Hops as (Ha & Hb & Hr).
      replace (j + 1)%nat with (S j) in * by lia.
      exists (slice_to j expr), (slice_from (S j) expr).
      split; [rewrite Hop; apply (get_split _ _ _ Hc)|].
      split; [apply (slice_to_nonempty j expr p); [lia|exact Hp]|].
      repeat split; auto.
      intros _. exists (slice_to (j - 1) expr), p. split; [|exact He].
      replace j with (S (j - 1)) at 1 by lia.
      apply slice_to_snoc, Hp.
    + intros Hrec. destruct (IH Hrec) as [Hin Hs]. split; [now right|exact Hs].
  - destruct (0 <? Index expr o)%Z eqn:Eidx.
    + destruct (operands expr (Z.to_nat (Index expr o)) (len o)) as [[a' b']|] eqn:Eo.
      * intros [= -> -> ->]. split; [now left|].
        apply Z.ltb_lt in Eidx.
        destruct (Index_from_found 0 expr op) as (j & Hj & Hp);
          [lia|unfold Index in Eidx; lia|].
        unfold Index in *. rewrite Hj in *.
        replace (Z.to_nat (0 + Z.of_nat j)) with j in * by lia.
        apply operands_spec in Eo as (Ha & Hb & Hr).
        exists (slice_to j expr), (slice_from (j + len op) expr).
        split.
        { rewrite slice_from_add. rewrite <- (HasPrefix_split _ _ Hp).
          symmetry; apply slice_to_from. }
        split.
        { destruct j; [lia|]. destruct expr; [|discriminate].
          simpl in Hr. now destruct (len op). }
        repeat split; auto.
        intros Hsign. exfalso.
        apply orb_false_iff in Esign as [E1 E2].
        apply String.eqb_neq in E1, E2. tauto.
      * intros Hrec. destruct (IH Hrec) as [Hin Hs]. split; [now right|exact Hs].
    + intros Hrec. destruct (IH Hrec) as [Hin Hs]. split; [now right|exact Hs].
Qed.

Lemma scanOperators_error (expr : string) (ops : list string)
      (a : float64) (op : string) (b : float64) (e : error) :
  scanOperators expr ops = (a, op, b, Some e) ->
  a = zero /\ op = "" /\ b = zero /\ e = errNoOperator.
Proof.
  induction ops as [|o ops IH]; simpl.
  - intros [= <- <- <- <-]. auto.
  - destruct (if String.eqb o "-" || String.eqb o "+"
              then signLoop expr o (len expr - 1) 1
              else if (0 <? Index expr o)%Z
                   then operands expr (Z.to_nat (Index expr o)) (len o)
                   else None) as [[a' b']|]; [discriminate|exact IH].
Qed.

End ParserFacts.

(** ** The operation table *)

Section TableFacts.

Context {go : Platform}.

Lemma lookup_add : supportedOps !! "+" = Some (fun a b => (add a b, None)).
Proof. reflexivity. Qed.
Lemma lookup_sub : supportedOps !! "-" = Some (fun a b => (sub a b, None)).
Proof. reflexivity. Qed.
Lemma lookup_mul : supportedOps !! "*" = Some (fun a b => (mul a b, None)).
Proof. reflexivity. Qed.
Lemma lookup_times : supportedOps !! "×" = Some (fun a b => (mul a b, None)).
Proof. reflexivity. Qed.
Lemma lookup_quo :
  supportedOps !! "/"
  = Some (fun a b => if eqb b zero then (zero, Some errDivZero) else (quo a b, None)).
Proof. reflexivity. Qed.
Lemma lookup_obelus :
  supportedOps !! "÷"
  = Some (fun a b => if eqb b zero then (zero, Some errDivZero) else (quo a b, None)).
Proof. reflexivity. Qed.
Lemma lookup_caret : supportedOps !! "^" = Some (fun a b => (Pow a b, None)).
Proof. reflexivity. Qed.
Lemma lookup_starstar : supportedOps !! "**" = Some (fun a b => (Pow a b, None)).
Proof. reflexivity. Qed.
Lemma lookup_rem :
  supportedOps !! "%"
  = Some (fun a b => if eqb b zero then (zero, Some errModZero) else (Mod a b, None)).
Proof. reflexivity. Qed.

End TableFacts.

(** ** The shape of a run of Calculate *)

Section CalculateFacts.

Context {go : Platform}.

Lemma table_total (op : string) :
  In op operators ->
  exists f : opFunc,
    supportedOps !! op = Some f
    /\ forall a b,
        (exists r, f a b = (r, None))
        \/ f a b = (zero, Some errDivZero)
        \/ f a b = (zero, Some errModZero).
Proof.
  intros Hin; simpl in Hin.
  repeat (destruct Hin as [<- | Hin]); try contradiction;
    eexists; (split; [reflexivity|]); intros a b; cbv beta;
    try (left; eexists; reflexivity);
    destruct (eqb b zero); auto; left; eexists; reflexivity.
Qed.

Lemma formatResult_error (r : float64) (e : error) :
  snd (formatResult r) = Some e -> 
  fst (formatResult r) = "" /\ (e = errTooLarge \/ e = errNaN).
Proof.
  unfold formatResult.
  destruct (IsInf r 0); [intros [= <-]; auto|].
  destruct (IsNaN r); [intros [= <-]; auto|].
  destruct (eqb r (of_Z (int64_of_float64 r))); discriminate.
Qed.

Lemma Calculate_step (expr : string) (a : float64) (op : string) (b : float64)
      (err : option error) :
  validateExpression expr = None ->
  parseExpression expr = (a, op, b, err) ->
  Calculate expr
  = match err with
    | Some e => ("", Some e)
    | None =>
        match supportedOps !! op with
        | None => ("", Some (errUnsupported op))
        | Some f =>
            match f a b with
            | (_, Some e) => ("", Some e)
            | (r, None) => formatResult r
            end
        end
    end.
Proof.
  intros Ev Ep. unfold Calculate. rewrite Ev, Ep. reflexivity.
Qed.

(** The shape of every run of [Calculate]. *)
Lemma Calculate_cases (expr : string) :
  (exists e, validateExpression expr = Some e /\ Calculate expr = ("", Some e))
  \/ (validateExpression expr = None
      /\ parseExpression expr = (zero, "", zero, Some errNoOperator)
      /\ Calculate expr = ("", Some errNoOperator))
  \/ (validateExpression expr = None
      /\ exists a op b f,
          parseExpression expr = (a, op, b, None)
          /\ In op operators
          /\ supportedOps !! op = Some f
          /\ Calculate expr
             = match f a b with
               | (_, Some e) => ("", Some e)
               | (r, None) => formatResult r
               end).
Proof.
  destruct (validateExpression expr) as [e|] eqn:Ev.
  { left. exists e. split; [reflexivity|]. unfold Calculate. now rewrite Ev. }
  right.
  destruct (parseExpression expr) as [[[a op] b] [e|]] eqn:Ep.
  - left. pose proof Ep as Ep'. unfold parseExpression in Ep'.
    apply scanOperators_error in Ep' as (-> & -> & -> & ->).
    repeat split; auto. now rewrite (Calculate_step _ _ _ _ _ Ev Ep).
  - right. split; [reflexivity|].
    pose proof Ep as Ep'. unfold parseExpression in Ep'.
    apply scanOperators_found in Ep' as [Hin _].
    destruct (table_total op Hin) as (f & Hf & _).
    exists a, op, b, f.
    repeat split; auto. rewrite (Calculate_step _ _ _ _ _ Ev Ep). rewrite Hf.
    reflexivity.
Qed.

Lemma append_contains (x : ascii) (a b : string) :
  contains_byte x (a +:+ b) = contains_byte x a || contains_byte x b.
Proof.
  induction a as [|c a IH]; [reflexivity|].
  rewrite append_cons. simpl. rewrite IH. apply orb_assoc.
Qed.

Lemma ReplaceAll_space_cons (c : ascii) (t : string) :
  ReplaceAll (String c t) " " ""
  = if Ascii.eqb c " " then ReplaceAll t " " "" else String c (ReplaceAll t " " "").
Proof.
  unfold ReplaceAll. cbn [ReplaceAll_skip HasPrefix].
  rewrite andb_true_r. now destruct (Ascii.eqb c " ").
Qed.

Lemma ReplaceAll_space_contains (x : ascii) (s : string) :
  x <> " "%char ->
  contains_byte x (ReplaceAll s " " "") = contains_byte x s.
Proof.
  intros Hx. induction s as [|c t IH]; [reflexivity|].
  rewrite ReplaceAll_space_cons. simpl.
  destruct (Ascii.eqb c " ") eqn:E.
  - apply Ascii.eqb_eq in E; subst c.
    destruct (Ascii.eqb " " x) eqn:E'; [apply Ascii.eqb_eq in E'; congruence|].
    exact IH.
  - simpl. now rewrite IH.
Qed.

Lemma all_bytes_contains (p : ascii -> bool) (x : ascii) (s : string) :
  p x = false -> contains_byte x s = true -> all_bytes p s = false.
Proof.
  intros Hp. induction s as [|c t IH]; simpl; [discriminate|].
  destruct (Ascii.eqb c x) eqn:E.
  - apply Ascii.eqb_eq in E; subst c. now rewrite Hp.
  - simpl. intros Hc. rewrite (IH Hc). apply andb_false_r.
Qed.

Lemma ParseFloat_no_byte (x : ascii) (s : string) (f : float64) :
  literal_byte x = false -> ParseFloat s = Some f -> contains_byte x s = false.
Proof.
  intros Hx Hp. destruct (contains_byte x s) eqn:E; [|reflexivity].
  unfold ParseFloat in Hp.
  rewrite (all_bytes_contains plain_byte x s) in Hp; auto.
  - rewrite (all_bytes_contains literal_byte x s) in Hp; auto. discriminate.
  - unfold literal_byte in Hx. 
    destruct (plain_byte x); [discriminate|reflexivity].
Qed.

Lemma splits_no_byte (x : ascii) (expr : string) (a : float64) (op : string) (b : float64) :
  literal_byte x = false -> contains_byte x op = false ->
  splits expr a op b -> contains_byte x expr = false.
Proof.
  intros Hx Hop (l & r & -> & _ & _ & Hl & Hr & _).
  rewrite !append_contains, Hop.
  now rewrite (ParseFloat_no_byte x l a Hx Hl), (ParseFloat_no_byte x r b Hx Hr).
Qed.

Lemma operators_no_paren (op : string) :
  In op operators -> contains_byte "(" op = false /\ contains_byte ")" op = false.
Proof.
  intros Hin; simpl in Hin.
  repeat (destruct Hin as [<- | Hin]); try contradiction; split; reflexivity.
Qed.

End CalculateFacts.

(** ** UTF-8 decoding *)

Section Utf8Facts.

Lemma first_ascii (b : N) : first b = LeadASCII -> (b < 128)%N.
Proof.
  unfold first.
  repeat match goal with
         | |- context [if ?c then _ else _] => destruct c eqn:?
         end; try discriminate.
  intros _. now apply N.ltb_lt.
Qed.

Lemma first_multi (b : N) (sz : nat) (lo hi : N) :
  first b = LeadMulti sz lo hi ->
  (128 <= lo)%N /\ (hi <= 191)%N
  /\ ((sz = 2%nat /\ 194 <= b < 224)
      \/ (sz = 3%nat /\ (b = 224 /\ lo = 160 \/ 225 <= b < 240))
      \/ (sz = 4%nat /\ (b = 240 /\ lo = 144 \/ 241 <= b < 245)))%N.
Proof.
  unfold first.
  repeat match goal with
         | |- context [if ?c then _ else _] => destruct c eqn:?
         end; try discriminate; intros [= <- <- <-];
    repeat match goal with
           | E : (_ <? _)%N = true |- _ => apply N.ltb_lt in E
           | E : (_ <? _)%N = false |- _ => apply N.ltb_ge in E
           | E : (_ =? _)%N = true |- _ => apply N.eqb_eq in E
           | E : (_ =? _)%N = false |- _ => apply N.eqb_neq in E
           end; lia.
Qed.

Lemma decode_skip_slice (k : nat) (s : string) :
  decode_skip k s = decode (slice_from k s).
Proof.
  revert k; induction s as [|c t IH]; intros [|k]; try reflexivity.
  simpl. apply IH.
Qed.

Lemma decode_cons (c : ascii) (t : string) :
  decode (String c t)
  = DecodeRuneInString (String c t)
    :: decode (slice_from (snd (DecodeRuneInString (String c t)) - 1) t).
Proof.
  unfold decode at 1. cbn [decode_skip]. now rewrite decode_skip_slice.
Qed.


(** The length test of [DecodeRuneInString] on a text long enough. *)
Ltac long_enough :=
  cbn [len String.length];
  match goal with
  | |- context [(?x <? ?y)%nat] =>
      replace (x <? y)%nat with false by (symmetry; apply Nat.ltb_ge; lia)
  end.

(** Its test on the second byte, from the bounds in the context. *)
Ltac second_byte_accepted :=
  match goal with
  | |- context [((?b <? ?lo) || (?hi <? ?b))%N] =>
      replace ((b <? lo) || (hi <? b))%N with false
        by (symmetry; apply orb_false_iff; split; apply N.ltb_ge; lia)
  end.

(** The bytes after the first are all at least 0x80. *)
Ltac all_high :=
  unfold high_byte; cbn [all_bytes]; rewrite andb_true_r;
  repeat (apply andb_true_iff; split); apply N.leb_le; lia.

(** A step that does not fail reads the first byte [c0] and a run [p] of
    continuation bytes, and depends on nothing else of the text. *)
Lemma Decode_valid_shape (c0 : ascii) (t0 : string) :
  valid_step (DecodeRuneInString (String c0 t0)) = true ->
  exists p : string,
    S (len p) = snd (DecodeRuneInString (String c0 t0))
    /\ t0 = p +:+ slice_from (len p) t0
    /\ all_bytes high_byte p = true
    /\ (p = "" -> fst (DecodeRuneInString (String c0 t0)) = byteval c0
                  /\ (byteval c0 < 128)%N)
    /\ (p <> "" -> (128 <= byteval c0)%N
                   /\ (128 <= fst (DecodeRuneInString (String c0 t0)))%N)
    /\ forall u, DecodeRuneInString (String c0 (p +:+ u))
                 = DecodeRuneInString (String c0 t0).
Proof.
  unfold DecodeRuneInString.
  destruct (first (byteval c0)) as [| |sz lo hi] eqn:F.
  - intros _. exists "". apply first_ascii in F.
    cbn [len String.length snd fst slice_from]. rewrite append_nil_l.
    repeat split; auto; congruence.
  - discriminate.
  - apply first_multi in F as (Hlo & Hhi & Hsz).
    destruct (len (String c0 t0) <? sz)%nat eqn:El; [discriminate|].
    apply Nat.ltb_ge in El.
    destruct t0 as [|c1 t1]; [discriminate|].
    destruct ((byteval c1 <? lo) || (hi <? byteval c1))%N eqn:E1; [discriminate|].
    apply orb_false_iff in E1 as [E1 E1'].
    apply N.ltb_ge in E1, E1'.
    destruct (sz <=? 2)%nat eqn:S2.
    { (* two bytes *)
      apply Nat.leb_le in S2. intros _. exists (String c1 "").
      assert (sz = 2%nat) as -> by lia.
      cbn [len String.length snd fst slice_from].
      rewrite !append_cons, !append_nil_l.
      split; [reflexivity|]. split; [reflexivity|]. split; [all_high|].
      split; [discriminate|]. split; [intros _; split; div_lia|].
      intros u. rewrite ?append_cons, ?append_nil_l.
      long_enough. second_byte_accepted. reflexivity. }
    apply Nat.leb_gt in S2.
    destruct t1 as [|c2 t2]; [discriminate|].
    destruct (is_cont (byteval c2)) eqn:E2; [|discriminate]. cbn [negb].
    pose proof E2 as E2'. unfold is_cont in E2'.
    apply andb_true_iff in E2' as [E2a E2b]. apply N.leb_le in E2a, E2b.
    destruct (sz <=? 3)%nat eqn:S3.
    { (* three bytes *)
      apply Nat.leb_le in S3. intros _. exists (String c1 (String c2 "")).
      assert (sz = 3%nat) as -> by lia.
      cbn [len String.length snd fst slice_from].
      rewrite !append_cons, !append_nil_l.
      split; [reflexivity|]. split; [reflexivity|]. split; [all_high|].
      split; [discriminate|]. split; [intros _; split; div_lia|].
      intros u. rewrite ?append_cons, ?append_nil_l.
      long_enough. second_byte_accepted. rewrite E2. reflexivity. }
    (* four bytes *)
    apply Nat.leb_gt in S3.
    destruct t2 as [|c3 t3]; [discriminate|].
    destruct (is_cont (byteval c3)) eqn:E3; [|discriminate]. cbn [negb].
    pose proof E3 as E3'. unfold is_cont in E3'.
    apply andb_true_iff in E3' as [E3a E3b]. apply N.leb_le in E3a, E3b.
    intros _. exists (String c1 (String c2 (String c3 ""))).
    assert (sz = 4%nat) as -> by lia.
    cbn [len String.length snd fst slice_from].
    rewrite !append_cons, !append_nil_l.
    split; [reflexivity|]. split; [reflexivity|]. split; [all_high|].
    split; [discriminate|]. split; [intros _; split; div_lia|].
    intros u. rewrite ?append_cons, ?append_nil_l.
    long_enough. second_byte_accepted. rewrite E2, E3. reflexivity.
Qed.

End Utf8Facts.

(** ** Removing the spaces of a well-formed text *)

Section StripFacts.

Lemma byteval_space (c : ascii) : byteval c = 32%N -> c = " "%char.
Proof.
  intros Hc. rewrite <- (ascii_N_embedding c). unfold byteval in Hc. now rewrite Hc.
Qed.

Lemma strip_app_high (p u : string) :
  all_bytes high_byte p = true -> without_spaces (p +:+ u) = p +:+ without_spaces u.
Proof.
  induction p as [|c p IH]; [reflexivity|].
  simpl. intros Hp. apply andb_true_iff in Hp as [Hc Hp].
  rewrite !append_cons, ReplaceAll_space_cons.
  destruct (Ascii.eqb c " ") eqn:E.
  - apply Ascii.eqb_eq in E; subst c. discriminate.
  - now rewrite (IH Hp).
Qed.

Lemma strip_idem (s : string) : without_spaces (without_spaces s) = without_spaces s.
Proof.
  induction s as [|c t IH]; [reflexivity|].
  rewrite ReplaceAll_space_cons.
  destruct (Ascii.eqb c " ") eqn:E; [exact IH|].
  now rewrite ReplaceAll_space_cons, E, IH.
Qed.

Lemma len_strip (s : string) : (len (without_spaces s) <= len s)%nat.
Proof.
  induction s as [|c t IH]; [reflexivity|].
  rewrite ReplaceAll_space_cons.
  destruct (Ascii.eqb c " "); simpl in *; lia.
Qed.

Lemma slice_from_app_len (p x : string) : slice_from (len p) (p +:+ x) = x.
Proof.
  induction p as [|c p IH]; [now destruct x|].
  rewrite append_cons. exact IH.
Qed.

Lemma len_slice_from (k : nat) (s : string) : (len (slice_from k s) <= len s)%nat.
Proof.
  revert s; induction k as [|k IH]; intros [|c t]; simpl; try lia.
  specialize (IH t). unfold len in *. simpl. lia.
Qed.

Lemma decode_strip (n : nat) (s : string) :
  (len s <= n)%nat ->
  ValidString s = true ->
  decode (without_spaces s) = List.filter not_space (decode s).
Proof.
  revert s; induction n as [|n IH]; intros [|c0 t0] Hlen Hv; try reflexivity.
  { simpl in Hlen; lia. }
  unfold ValidString in Hv. rewrite decode_cons in *.
  cbn [forallb] in Hv. apply andb_true_iff in Hv as [Hd Hv].
  destruct (Decode_valid_shape c0 t0 Hd) as (p & Hsz & Ht & Hp & Hnil & Hcons & Hu).
  replace (snd (DecodeRuneInString (String c0 t0)) - 1)%nat with (len p) in * by lia.
  assert (Hrest : decode (without_spaces (slice_from (len p) t0))
                  = List.filter not_space (decode (slice_from (len p) t0))).
  { apply IH; [|exact Hv].
    pose proof (len_slice_from (len p) t0). simpl in Hlen. unfold len in *. lia. }
  rewrite ReplaceAll_space_cons. cbn [List.filter].
  destruct (Ascii.eqb c0 " ") eqn:E.
  - apply Ascii.eqb_eq in E; subst c0.
    destruct p as [|c1 p].
    + destruct (Hnil eq_refl) as [Hr _]. unfold not_space. rewrite Hr.
      cbn [negb]. exact Hrest.
    + destruct Hcons as [Hc _]; [discriminate|]. vm_compute in Hc. now destruct Hc.
  - assert (Hkeep : not_space (DecodeRuneInString (String c0 t0)) = true).
    { unfold not_space. apply negb_true_iff, N.eqb_neq. intros Hr.
      destruct p as [|c1 p].
      - destruct (Hnil eq_refl) as [Hr' _]. rewrite Hr' in Hr.
        apply byteval_space in Hr. subst c0. discriminate.
      - destruct Hcons as [_ Hc]; [discriminate|]. lia. }
    rewrite Hkeep. rewrite Ht at 1. rewrite (strip_app_high _ _ Hp).
    rewrite decode_cons, Hu. f_equal.
    replace (snd (DecodeRuneInString (String c0 t0)) - 1)%nat with (len p) by lia.
    rewrite slice_from_app_len. exact Hrest.
Qed.

Lemma forallb_filter_absorb {A : Type} (P Q : A -> bool) (l : list A) :
  (forall x, P x = false -> Q x = true) ->
  forallb Q (List.filter P l) = forallb Q l.
Proof.
  intros HPQ. induction l as [|x l IH]; [reflexivity|].
  simpl. destruct (P x) eqn:E; simpl; rewrite IH; [reflexivity|].
  now rewrite (HPQ x E).
Qed.

Lemma runes_strip (s : string) :
  ValidString s = true ->
  runes (without_spaces s) = map fst (List.filter not_space (decode s)).
Proof.
  intros Hv. unfold runes. now rewrite (decode_strip (len s) s (le_n _) Hv).
Qed.

Lemma forallb_map_fst (Q : rune -> bool) (l : list (rune * nat)) :
  forallb Q (map fst l) = forallb (fun d => Q (fst d)) l.
Proof. induction l as [|x l IH]; simpl; congruence. Qed.

Lemma not_space_absorb (Q : rune -> bool) (s : string) :
  Q 32%N = true ->
  ValidString s = true ->
  forallb Q (runes (without_spaces s)) = forallb Q (runes s).
Proof.
  intros HQ Hv. rewrite (runes_strip s Hv). unfold runes.
  rewrite !forallb_map_fst. apply forallb_filter_absorb.
  intros [r w]. unfold not_space. simpl. intros Hr.
  apply negb_false_iff, N.eqb_eq in Hr. now subst r.
Qed.

Lemma MatchString_nonblank (s : string) :
  TrimSpace_is_empty s = false ->
  validChars_MatchString s = forallb validChar (runes s).
Proof.
  unfold TrimSpace_is_empty, validChars_MatchString.
  destruct (runes s); [discriminate|reflexivity].
Qed.

Lemma validateExpression_strip (s : string) :
  ValidString s = true ->
  (len s <= maxExpressionLength)%nat ->
  validateExpression (without_spaces s) = validateExpression s.
Proof.
  intros Hv Hlen. unfold validateExpression.
  pose proof (len_strip s) as Hl.
  replace (maxExpressionLength <? len (without_spaces s))%nat with false
    by (symmetry; apply Nat.ltb_ge; lia).
  replace (maxExpressionLength <? len s)%nat with false
    by (symmetry; apply Nat.ltb_ge; lia).
  assert (Hb : TrimSpace_is_empty (without_spaces s) = TrimSpace_is_empty s)
    by (apply not_space_absorb; [reflexivity|exact Hv]).
  rewrite Hb. destruct (TrimSpace_is_empty s) eqn:Eb; [reflexivity|].
  rewrite (MatchString_nonblank s Eb), (MatchString_nonblank (without_spaces s)) by congruence.
  now rewrite (not_space_absorb validChar s eq_refl Hv).
Qed.

End StripFacts.

(** ** Floats that are integers *)

Section FloatFacts.

Lemma eqb_finite (s : bool) (m : positive) (e : Z) (x : float64) :
  eqb (S754_finite s m e) x = true -> x = S754_finite s m e.
Proof.
  unfold eqb, SFeqb, SFcompare.
  destruct x as [s'|s'| |s' m' e']; try (destruct s; discriminate);
    try (destruct s'; discriminate).
  destruct s, s'; try discriminate;
    destruct (Z.compare_spec e e'); try discriminate;
    change (Pos.compare_cont Eq m m') with (Pos.compare m m');
    destruct (Pos.compare_spec m m'); try discriminate; intros _; congruence.
Qed.

Lemma shr_exponent (mrs : shr_record) (e n : Z) : (e <= snd (shr mrs e n))%Z.
Proof. destruct n; simpl; lia. Qed.

Lemma digits2_iter_xO (m j : positive) :
  digits2_pos (Pos.iter xO m j) = (digits2_pos m + j)%positive.
Proof.
  revert m. induction j using Pos.peano_ind; intros m.
  - simpl. lia.
  - rewrite Pos.iter_succ. simpl. rewrite IHj. lia.
Qed.

Lemma shiftl_iter_xO (m j : positive) :
  Zpos (Pos.iter xO m j) = Z.shiftl (Zpos m) (Zpos j).
Proof.
  rewrite Z.shiftl_mul_pow2 by lia.
  induction j using Pos.peano_ind.
  - simpl. lia.
  - rewrite Pos.iter_succ. rewrite Pos2Z.inj_xO, IHj.
    rewrite Pos2Z.inj_succ, Z.pow_succ_r by lia. lia.
Qed.

Lemma is_int_nonneg_exponent (s : bool) (m : positive) (e : Z) :
  (0 <= e)%Z -> is_int (S754_finite s m e) = true.
Proof. intros He. simpl. apply orb_true_iff. left. now apply Z.leb_le. Qed.

(** What [binary_round_aux] returns has an exponent not below the one it
    is given. *)
Lemma binary_round_aux_exponent (sx : bool) (mx ex : Z) (lx : location)
      (s : bool) (m : positive) (e : Z) :
  binary_round_aux prec emax sx mx ex lx = S754_finite s m e -> (ex <= e)%Z.
Proof.
  unfold binary_round_aux.
  destruct (shr_fexp prec emax mx ex lx) as [mrs' e'] eqn:E1.
  destruct (shr_fexp prec emax (round_nearest_even (shr_m mrs') (loc_of_shr_record mrs')) e' loc_Exact)
    as [mrs'' e''] eqn:E2.
  unfold shr_fexp in E1, E2.
  pose proof (shr_exponent (shr_record_of_loc mx lx) ex
                (fexp prec emax (Zdigits2 mx + ex) - ex)) as H1.
  rewrite E1 in H1. simpl in H1.
  match type of E2 with shr ?a ?b ?c = _ => pose proof (shr_exponent a b c) as H2 end.
  rewrite E2 in H2. simpl in H2.
  destruct (shr_m mrs''); try discriminate.
  destruct (e'' <=? emax - prec)%Z; [|discriminate].
  intros [= _ _ <-]. lia.
Qed.


Lemma binary_round_aux_canonical (s : bool) (m : positive) (e : Z) :
  fexp prec emax (Zpos (digits2_pos m) + e) = e ->
  (e <= emax - prec)%Z ->
  binary_round_aux prec emax s (Zpos m) e loc_Exact = S754_finite s m e.
Proof.
  intros Hf He. unfold binary_round_aux, shr_fexp.
  cbn [Zdigits2 shr_record_of_loc]. rewrite Hf, Z.sub_diag.
  cbn [shr shr_m loc_of_shr_record round_nearest_even Zdigits2 shr_record_of_loc].
  rewrite Hf, Z.sub_diag. cbn [shr shr_m].
  apply Z.leb_le in He. now rewrite He.
Qed.

Lemma is_int_shifted (s : bool) (m d : positive) :
  is_int (S754_finite s (Pos.iter xO m d) (Zneg d)) = true.
Proof.
  cbn [is_int]. apply orb_true_iff. right. apply Z.eqb_eq.
  rewrite shiftl_iter_xO.
  change (- Zneg d)%Z with (Zpos d).
  rewrite <- (Z.shiftr_opp_r _ (Zneg d)). change (- Zneg d)%Z with (Zpos d).
  rewrite Z.shiftr_shiftl_l by lia. now rewrite Z.sub_diag.
Qed.

Lemma binary_round_int (s : bool) (m : positive)
      (s' : bool) (m' : positive) (e' : Z) :
  binary_round prec emax s m 0 = S754_finite s' m' e' ->
  is_int (S754_finite s' m' e') = true.
Proof.
  unfold binary_round, shl_align.
  destruct (fexp prec emax (Zpos (digits2_pos m) + 0) - 0)%Z as [|p|d] eqn:Ed.
  - intros Hr. apply binary_round_aux_exponent in Hr.
    now apply is_int_nonneg_exponent.
  - intros Hr. apply binary_round_aux_exponent in Hr.
    now apply is_int_nonneg_exponent.
  - assert (He : fexp prec emax (Zpos (digits2_pos m) + 0) = Zneg d) by lia.
    rewrite He.
    unfold fexp, emin, prec, emax in He.
    rewrite binary_round_aux_canonical.
    + intros [= <- <- <-]. apply is_int_shifted.
    + rewrite digits2_iter_xO. unfold fexp, emin, prec, emax. lia.
    + unfold prec, emax. lia.
Qed.

Lemma of_Z_int (k : Z) (s : bool) (m : positive) (e : Z) :
  of_Z k = S754_finite s m e -> is_int (S754_finite s m e) = true.
Proof.
  unfold of_Z, binary_normalize. destruct k as [|p|p]; [discriminate| |];
    apply binary_round_int.
Qed.


End FloatFacts.

(** ** Printing integers *)

Section FormatFacts.

Lemma string_of_uint_digits (u : Decimal.uint) :
  all_bytes is_digit (NilEmpty.string_of_uint u) = true.
Proof. induction u; simpl; auto. Qed.

Lemma Z_to_string_digits (n : Z) : all_bytes is_digit (Z_to_string n) = true.
Proof.
  unfold Z_to_string, NilZero.string_of_uint.
  destruct (N.to_uint (Z.to_N n)) eqn:E; try reflexivity;
    rewrite <- E; apply string_of_uint_digits.
Qed.

Lemma round_half_even_exact (q d : Z) :
  (0 < d)%Z -> round_half_even (q * d) d = q.
Proof.
  intros Hd. unfold round_half_even.
  rewrite Z.mod_mul, Z.div_mul by lia.
  now destruct (Z.compare_spec (2 * 0) d); try lia.
Qed.

Lemma Sprintf_f0_int (s : bool) (m : positive) (e : Z) :
  is_int (S754_finite s m e) = true ->
  Sprintf_f0 (S754_finite s m e)
  = sign_string s +:+ Z_to_string (Z.shiftl (Zpos m) e).
Proof.
  cbn [is_int Sprintf_f0 fraction_of]. intros Hi. f_equal. f_equal.
  destruct (Z.leb_spec 0 e) as [He|He].
  - rewrite Z.max_l, Z.max_r by lia.
    rewrite Z.shiftl_mul_pow2 by lia.
    change (2 ^ 0)%Z with 1%Z.
    rewrite <- (Z.mul_1_r (Zpos m * 2 ^ e)) at 1.
    apply round_half_even_exact; lia.
  - cbn [orb] in Hi. apply Z.eqb_eq in Hi.
    rewrite Z.max_r, Z.max_l by lia.
    rewrite Z.shiftl_mul_pow2 in Hi by lia.
    change (2 ^ 0)%Z with 1%Z. rewrite Z.mul_1_r.
    rewrite <- Hi at 1.
    apply round_half_even_exact. apply Z.pow_pos_nonneg; lia.
Qed.



End FormatFacts.

(** ** The number of digits of a numeral *)

Section DecimalFacts.

Import DecimalPos.Unsigned.

Lemma usize_revapp (u v : Decimal.uint) :
  usize (Decimal.revapp u v) = (usize u + usize v)%N.
Proof.
  revert v; induction u; intros v; simpl; try reflexivity;
    rewrite IHu; simpl; lia.
Qed.

Lemma of_lu_upper (u : Decimal.uint) : (of_lu u < 10 ^ usize u)%N.
Proof.
  induction u; simpl usize; [simpl; lia|..];
    rewrite N.pow_succ_r'; simpl of_lu; lia.
Qed.

Lemma of_uint_upper (u : Decimal.uint) : (N.of_uint u < 10 ^ usize u)%N.
Proof.
  unfold N.of_uint. rewrite of_uint_alt.
  pose proof (of_lu_upper (Decimal.rev u)) as Hu.
  unfold Decimal.rev in *. rewrite usize_revapp in Hu. simpl in Hu.
  now rewrite N.add_0_r in Hu.
Qed.

Lemma of_uint_lower (u : Decimal.uint) :
  Decimal.nzhead u = u -> u <> Decimal.Nil ->
  (10 ^ (usize u - 1) <= N.of_uint u)%N.
Proof.
  intros Hn Hu. unfold N.of_uint. rewrite of_uint_alt.
  destruct u; try congruence;
    try (unfold Decimal.rev; cbn [Decimal.revapp]; rewrite of_lu_revapp;
         cbn [of_lu usize];
         replace (N.succ (usize u) - 1)%N with (usize u) by lia; lia).
  exfalso. simpl in Hn.
  assert (G : forall v, Decimal.nzhead v <> Decimal.D0 u).
  { clear. intros v. induction v; simpl; try discriminate. exact IHv. }
  exact (G u Hn).
Qed.

Lemma to_uint_nzhead (p : positive) :
  Decimal.nzhead (Pos.to_uint p) = Pos.to_uint p.
Proof.
  pose proof (to_of (Pos.to_uint p)) as Hu.
  rewrite of_to in Hu. simpl in Hu.
  unfold Decimal.unorm in Hu.
  destruct (Decimal.nzhead (Pos.to_uint p)) eqn:E; try (now symmetry).
  exfalso. exact (to_uint_nonzero p Hu).
Qed.

Lemma length_string_of_uint (u : Decimal.uint) :
  N.of_nat (String.length (NilEmpty.string_of_uint u)) = usize u.
Proof.
  induction u; cbn [NilEmpty.string_of_uint String.length usize];
    try reflexivity; rewrite Nat2N.inj_succ; now f_equal.
Qed.

(** The number of digits of [Z_to_string n] brackets [n] between two
    powers of ten. *)
Lemma num_digits_spec (n : Z) :
  (0 < n)%Z ->
  (10 ^ (num_digits n - 1) <= n < 10 ^ num_digits n)%Z /\ (1 <= num_digits n)%Z.
Proof.
  intros Hn. destruct n as [|p|p]; try lia.
  unfold num_digits, Z_to_string, len. cbn [Z.to_N N.to_uint].
  pose proof (to_uint_nonnil p) as Hnil.
  pose proof (to_uint_nzhead p) as Hnz.
  pose proof (of_uint_upper (Pos.to_uint p)) as Hup.
  pose proof (of_uint_lower (Pos.to_uint p) Hnz Hnil) as Hlo.
  unfold N.of_uint in Hup, Hlo. rewrite of_to in Hup, Hlo.
  assert (Hs : NilZero.string_of_uint (Pos.to_uint p)
               = NilEmpty.string_of_uint (Pos.to_uint p)).
  { unfold NilZero.string_of_uint. destruct (Pos.to_uint p); congruence. }
  rewrite Hs.
  pose proof (length_string_of_uint (Pos.to_uint p)) as Hl.
  assert (Hpos : (1 <= usize (Pos.to_uint p))%N).
  { destruct (Pos.to_uint p); try congruence; simpl; lia. }
  set (k := String.length (NilEmpty.string_of_uint (Pos.to_uint p))) in *.
  rewrite <- Hl in *. clearbody k.
  assert (Hk : (1 <= k)%nat) by lia.
  split; [|lia].
  replace (Z.of_nat k - 1)%Z with (Z.of_N (N.of_nat k - 1)) by lia.
  replace (Z.of_nat k) with (Z.of_N (N.of_nat k)) at 2 by lia.
  change 10%Z with (Z.of_N 10).
  rewrite <- !N2Z.inj_pow. change (Zpos p) with (Z.of_N (Npos p)). lia.
Qed.

End DecimalFacts.

(** ** Rounding to significant digits *)

Section RoundingFacts.

Lemma round_half_even_bounds (n d : Z) :
  (0 < d)%Z -> (n / d <= round_half_even n d <= n / d + 1)%Z.
Proof.
  intros Hd. unfold round_half_even.
  destruct (2 * (n mod d) ?= d)%Z; [destruct (Z.even (n / d))| |]; lia.
Qed.

Lemma point_of_upper (n d : Z) :
  (0 < n)%Z -> (0 < d)%Z ->
  (n * 10 ^ Z.max (- point_of n d) 0 < d * 10 ^ Z.max (point_of n d) 0)%Z.
Proof.
  intros Hn Hd. unfold point_of.
  destruct (Z.leb_spec d n) as [Hle|Hlt].
  - assert (Hq : (0 < n / d)%Z) by (apply Z.div_str_pos; lia).
    destruct (num_digits_spec (n / d) Hq) as [[_ Hup] H1].
    rewrite Z.max_r, Z.max_l by lia. rewrite Z.pow_0_r, Z.mul_1_r.
    pose proof (Z.mod_pos_bound n d Hd) as Hm.
    pose proof (Z.div_mod n d ltac:(lia)) as Hdm. nia.
  - assert (Hq : (0 < (d - 1) / n)%Z) by (apply Z.div_str_pos; lia).
    destruct (num_digits_spec ((d - 1) / n) Hq) as [[Hlo _] H1].
    rewrite Z.max_l, Z.max_r by lia. rewrite Z.pow_0_r, Z.mul_1_r.
    replace (- (1 - num_digits ((d - 1) / n)))%Z
      with (num_digits ((d - 1) / n) - 1)%Z by lia.
    pose proof (Z.mul_div_le (d - 1) n Hn) as Hm. nia.
Qed.

Lemma scale_shift (n d a b a' b' : Z) :
  (0 <= a)%Z -> (0 <= b)%Z -> (0 <= a')%Z -> (0 <= b')%Z ->
  (b - a = b' - a')%Z ->
  (n * 10 ^ a < d * 10 ^ b)%Z -> (n * 10 ^ a' < d * 10 ^ b')%Z.
Proof.
  intros Ha Hb Ha' Hb' He Hlt.
  destruct (Z.le_ge_cases a a') as [Hc|Hc].
  - replace a' with (a + (a' - a))%Z by lia.
    replace b' with (b + (a' - a))%Z by lia.
    rewrite !Z.pow_add_r by lia.
    assert (0 < 10 ^ (a' - a))%Z by (apply Z.pow_pos_nonneg; lia). nia.
  - replace a with (a' + (a - a'))%Z in Hlt by lia.
    replace b with (b' + (a - a'))%Z in Hlt by lia.
    rewrite !Z.pow_add_r in Hlt by lia.
    assert (0 < 10 ^ (a - a'))%Z by (apply Z.pow_pos_nonneg; lia). nia.
Qed.

Lemma length_string_of_list_ascii (l : list ascii) :
  String.length (string_of_list_ascii l) = List.length l.
Proof. induction l; simpl; congruence. Qed.

Lemma length_list_ascii_of_string (s : string) :
  List.length (list_ascii_of_string s) = String.length s.
Proof. induction s; simpl; congruence. Qed.

Lemma rstrip_zeros_rev_length (r : list ascii) :
  (List.length (rstrip_zeros_rev r) <= List.length r)%nat.
Proof.
  induction r as [|c r IH]; simpl; [lia|].
  destruct (Ascii.eqb c "0"); simpl; lia.
Qed.

Lemma rstrip_zeros_length (s : string) : (len (rstrip_zeros s) <= len s)%nat.
Proof.
  unfold rstrip_zeros, len.
  rewrite length_string_of_list_ascii, length_rev.
  pose proof (rstrip_zeros_rev_length (rev (list_ascii_of_string s))) as Hl.
  rewrite length_rev, length_list_ascii_of_string in Hl. exact Hl.
Qed.

(** Rounding to [p] significant digits leaves at most [p] digits. *)
Lemma round_digits_length (p n d : Z) :
  (0 < p)%Z -> (0 < n)%Z -> (0 < d)%Z ->
  (nd (round_digits p n d) <= p)%Z.
Proof.
  intros Hp Hn Hd. unfold round_digits, nd.
  set (e := point_of n d).
  set (m := round_half_even (n * 10 ^ Z.max (p - e) 0) (d * 10 ^ Z.max (e - p) 0)).
  destruct (Z.eqb_spec m (10 ^ p)) as [Hm|Hm]; cbn [digits]; [simpl; lia|].
  pose proof (rstrip_zeros_length (Z_to_string m)) as Hs.
  assert (Hlen : (Z.of_nat (len (Z_to_string m)) <= p)%Z); [|lia].
  assert (HD : (0 < d * 10 ^ Z.max (e - p) 0)%Z).
  { assert (0 < 10 ^ Z.max (e - p) 0)%Z by (apply Z.pow_pos_nonneg; lia). nia. }
  assert (HN : (0 <= n * 10 ^ Z.max (p - e) 0)%Z).
  { assert (0 < 10 ^ Z.max (p - e) 0)%Z by (apply Z.pow_pos_nonneg; lia). nia. }
  pose proof (round_half_even_bounds (n * 10 ^ Z.max (p - e) 0) _ HD) as [Hlo Hup].
  fold m in Hlo, Hup.
  assert (Hq : (n * 10 ^ Z.max (p - e) 0 / (d * 10 ^ Z.max (e - p) 0) < 10 ^ p)%Z).
  { apply Z.div_lt_upper_bound; [exact HD|].
    rewrite <- Z.mul_assoc, <- Z.pow_add_r by lia.
    apply (scale_shift n d (Z.max (- e) 0) (Z.max e 0)); try lia.
    apply point_of_upper; assumption. }
  assert (Hm0 : (0 <= m)%Z).
  { pose proof (Z.div_pos _ _ HN HD). lia. }
  destruct (Z.eq_dec m 0%Z) as [Hz|Hnz]; [rewrite Hz; simpl; lia|].
  destruct (num_digits_spec m ltac:(lia)) as [[Hlo' _] _].
  unfold num_digits in Hlo'.
  assert (Hlt : (10 ^ (Z.of_nat (len (Z_to_string m)) - 1) < 10 ^ p)%Z) by lia.
  apply Z.pow_lt_mono_r_iff in Hlt; lia.
Qed.

End RoundingFacts.

Section MoreStrings.
Context {go : Platform}.

Lemma append_assoc_string (a b c : string) : (a +:+ b) +:+ c = a +:+ (b +:+ c).
Proof.
  induction a as [|x a IH]; [reflexivity|].
  rewrite !append_cons. now rewrite IH.
Qed.

Lemma decode_skip_length (k : nat) (s : string) :
  (List.length (decode_skip k s) <= len s)%nat.
Proof.
  unfold len.
  revert k; induction s as [|c t IH]; intros k; cbn [decode_skip]; [simpl; lia|].
  destruct k.
  - specialize (IH (snd (DecodeRuneInString (String c t)) - 1)%nat).
    cbn [List.length String.length]. lia.
  - specialize (IH k). cbn [String.length]. lia.
Qed.

End MoreStrings.

(** * The claims *)

Section Claims.

Context {go : Platform}.

(** C1.  A leading sign belongs to the first operand and a sign that follows
    an operator belongs to the second: [Calculate("-5+3")] is ["-2"] and
    [Calculate("2*-3")] is ["-6"], tokenized as [(-5, "+", 3)] and
    [(2, "*", -3)].  In general, whenever the tokenizer returns ["+"] or
    ["-"] as the operator, the byte before that operator in the scanned text
    is a digit that ends the left operand: the operator is never the first
    byte and never follows another operator character. *)
Theorem sign_is_not_the_operator :
  Calculate "-5+3" = ("-2", None)
  /\ Calculate "2*-3" = ("-6", None)
  /\ parseExpression "-5+3" = (of_Z (-5), "+", of_Z 3, None)
  /\ parseExpression "2*-3" = (of_Z 2, "*", of_Z (-3), None)
  /\ (forall expr a op b,
         parseExpression expr = (a, op, b, None) ->
         op = "+" \/ op = "-" ->
         exists (l : string) (c : ascii) (r : string),
           without_spaces expr = l +:+ String c (op +:+ r)
           /\ is_digit c = true
           /\ ParseFloat (l +:+ String c "") = Some a
           /\ ParseFloat r = Some b).
Proof.
  repeat (split; [vm_compute; reflexivity|]).
  intros expr a op b Ep Hop. unfold parseExpression in Ep.
  apply scanOperators_found in Ep as [_ (l & r & He & _ & _ & Hl & Hr & Hs)].
  destruct (Hs Hop) as (l' & c & -> & Hc).
  exists l', c, r. rewrite He, append_assoc_string, append_cons, append_nil_l.
  repeat split; auto.
  unfold ends_operand in Hc. apply orb_true_iff in Hc as [Hc|Hc]; [exact Hc|].
  apply Ascii.eqb_eq in Hc; subst c.
  pose proof (ParseFloat_no_byte ")" _ _ eq_refl Hl) as Hn.
  rewrite append_contains in Hn. simpl in Hn.
  rewrite orb_true_r in Hn. discriminate.
Qed.

(** C2, as amended.  [Calculate("abc")] fails at validation with the
    invalid-characters error: letters are outside the accepted character
    class, so the text never reaches the tokenizer. *)
Theorem letters_are_invalid_characters :
  validateExpression "abc" = Some errInvalidChars
  /\ Calculate "abc" = ("", Some errInvalidChars)
  /\ option_map kind (snd (Calculate "abc")) = Some InvalidCharacters.
Proof.
  split; [vm_compute; reflexivity|]. split; vm_compute; reflexivity.
Qed.

(** C3.  The length test of [validateExpression] counts bytes: [Calculate]
    fails with the too-long error exactly when [len(expr)] exceeds 100.  The
    number of characters never exceeds the number of bytes, so more than 100
    characters always fail; but a product of 100 characters written with
    [×] has 101 bytes and fails too, with a message that speaks of 100
    characters, while the same product written with [*] is evaluated. *)
Theorem length_limit_counts_bytes :
  (forall expr,
      snd (Calculate expr) = Some errTooLong
      <-> (maxExpressionLength < len expr)%nat)
  /\ (forall expr,
        (maxExpressionLength < RuneCountInString expr)%nat ->
        Calculate expr = ("", Some errTooLong))
  /\ (let expr :=
        "0.999999999999999999999999999999999999999999999999×0.99999999999999999999999999999999999999999999999" in
      RuneCountInString expr = 100%nat
      /\ len expr = 101%nat
      /\ Calculate expr = ("", Some errTooLong)
      /\ option_map Error (snd (Calculate expr))
         = Some "выражение слишком длинное (максимум 100 символов)")
  /\ Calculate
       "0.999999999999999999999999999999999999999999999999*0.99999999999999999999999999999999999999999999999"
     = ("1", None).
Proof.
  assert (Hlong : forall expr,
             (maxExpressionLength < len expr)%nat ->
             Calculate expr = ("", Some errTooLong)).
  { intros expr Hl. unfold Calculate, validateExpression.
    apply Nat.ltb_lt in Hl. now rewrite Hl. }
  split; [|split].
  2: { intros expr Hr. apply Hlong.
       pose proof (decode_skip_length O expr) as Hd.
       unfold RuneCountInString, decode in Hr. lia. }
  2: { split; [cbv zeta|vm_compute; reflexivity].
       repeat (split; [vm_compute; reflexivity|]). vm_compute; reflexivity. }
  intros expr. split.
  - destruct (Calculate_cases expr)
      as [(e' & Hv & ->) | [(_ & _ & ->) | (_ & a & op & b & f & Ep & Hin & Hf & ->)]].
    + intros [= ->]. unfold validateExpression in Hv.
      destruct (Nat.ltb_spec maxExpressionLength (len expr)); [assumption|].
      destruct (TrimSpace_is_empty expr); [discriminate|].
      destruct (negb _); discriminate.
    + discriminate.
    + destruct (table_total op Hin) as (f' & Hf' & Hcases).
      rewrite Hf in Hf'. injection Hf' as <-.
      destruct (Hcases a b) as [[r ->] | [-> | ->]]; try discriminate.
      intros He. apply formatResult_error in He as [_ [? | ?]]; discriminate.
  - intros Hl. now rewrite (Hlong expr Hl).
Qed.

(** C4, as amended.  The tokenizer removes the space character U+0020 and
    nothing else: for every well-formed UTF-8 text of at most 100 bytes,
    [Calculate] returns the same outcome as on the text with every space
    removed. *)
Theorem spaces_are_ignored (expr : string) :
  ValidString expr = true ->
  (len expr <= maxExpressionLength)%nat ->
  Calculate expr = Calculate (without_spaces expr).
Proof.
  intros Hv Hlen. unfold Calculate.
  rewrite (validateExpression_strip expr Hv Hlen).
  unfold parseExpression. now rewrite strip_idem.
Qed.

(** C6.  A result that is not finite is never returned as a success: when
    the operation applied to the operands of a validated expression yields
    an infinity, [Calculate] fails with the result-too-large error; when it
    yields a NaN, with the not-a-number error; and whenever [Calculate]
    reports no error the result was neither. *)
Theorem non_finite_results_rejected
        (expr : string) (a : float64) (op : string) (b : float64)
        (f : opFunc) (r : float64) :
  validateExpression expr = None ->
  parseExpression expr = (a, op, b, None) ->
  supportedOps !! op = Some f ->
  f a b = (r, None) ->
  (IsInf r 0 = true -> Calculate expr = ("", Some errTooLarge))
  /\ (IsNaN r = true -> Calculate expr = ("", Some errNaN))
  /\ (snd (Calculate expr) = None -> IsInf r 0 = false /\ IsNaN r = false).
Proof.
  intros Hv Ep Hf Hr. rewrite (Calculate_step _ _ _ _ _ Hv Ep), Hf, Hr.
  unfold formatResult.
  destruct r as [s|s| |s m e]; simpl; repeat split; try discriminate; auto.
  - destruct s; reflexivity.
  - destruct s; simpl; discriminate.
Qed.

(** C7.  Every text that passes validation and contains [(] or [)] fails
    with NoOperatorFound: the validator lets parentheses through (both are
    in its class), and no split of the scanned text has operands that
    parse. *)
Theorem parentheses_fail_at_tokenization (expr : string) :
  validateExpression expr = None ->
  contains_byte "(" expr || contains_byte ")" expr = true ->
  Calculate expr = ("", Some errNoOperator)
  /\ validChar (byteval "(") = true /\ validChar (byteval ")") = true.
Proof.
  intros Hv Hp. split; [|split; reflexivity].
  destruct (Calculate_cases expr)
    as [(e' & Hv' & _) | [(_ & _ & ->) | (_ & a & op & b & f & Ep & Hin & Hf & _)]];
    [congruence|reflexivity|exfalso].
  unfold parseExpression in Ep. apply scanOperators_found in Ep as [_ Hs].
  destruct (operators_no_paren op Hin) as [Ho Hc].
  apply orb_true_iff in Hp as [Hp|Hp].
  - rewrite <- (ReplaceAll_space_contains "(" expr) in Hp by discriminate.
    rewrite (splits_no_byte "(" _ _ _ _ eq_refl Ho Hs) in Hp. discriminate.
  - rewrite <- (ReplaceAll_space_contains ")" expr) in Hp by discriminate.
    rewrite (splits_no_byte ")" _ _ _ _ eq_refl Hc Hs) in Hp. discriminate.
Qed.

(** C9.  The unsupported-operator branch of [Calculate] is unreachable:
    whenever the tokenizer succeeds, the operator it returns is one of the
    nine entries of [operators] and a key of the operation table, and
    [Calculate] never returns the unsupported-operator error. *)
Theorem unsupported_operator_unreachable (expr : string) :
  (forall a op b,
      parseExpression expr = (a, op, b, None) ->
      In op operators /\ is_Some (supportedOps !! op))
  /\ (forall op, snd (Calculate expr) <> Some (errUnsupported op))
  /\ option_map kind (snd (Calculate expr)) <> Some UnsupportedOperator.
Proof.
  split.
  { intros a op b Ep. unfold parseExpression in Ep.
    apply scanOperators_found in Ep as [Hin _]. split; [exact Hin|].
    destruct (table_total op Hin) as (f & Hf & _). now exists f. }
  assert (G : forall e, snd (Calculate expr) = Some e -> kind e <> UnsupportedOperator).
  { intros e.
    destruct (Calculate_cases expr)
      as [(e' & Hv & ->) | [(_ & _ & ->) | (_ & a & op & b & f & Ep & Hin & Hf & ->)]].
    - unfold validateExpression in Hv.
      destruct (_ <? _)%nat; [injection Hv as <-; intros [= <-]; discriminate|].
      destruct (TrimSpace_is_empty expr);
        [injection Hv as <-; intros [= <-]; discriminate|].
      destruct (negb _); [injection Hv as <-; intros [= <-]; discriminate|discriminate].
    - intros [= <-]; discriminate.
    - destruct (table_total op Hin) as (f' & Hf' & Hcases).
      rewrite Hf in Hf'. injection Hf' as <-.
      destruct (Hcases a b) as [[r ->] | [-> | ->]].
      + intros He. apply formatResult_error in He as [_ [-> | ->]]; discriminate.
      + intros [= <-]; discriminate.
      + intros [= <-]; discriminate. }
  split.
  - intros op Hs. now apply (G _ Hs).
  - destruct (snd (Calculate expr)) as [e|]; [|discriminate].
    simpl. intros [= Hk]. now apply (G e).
Qed.

(** C10.  Whenever [Calculate] returns an error, the string it returns with
    it is empty; a non-empty string comes only with no error. *)
Theorem error_result_is_empty (expr : string) :
  (forall e, snd (Calculate expr) = Some e -> fst (Calculate expr) = "")
  /\ (fst (Calculate expr) <> "" -> snd (Calculate expr) = None).
Proof.
  assert (G : forall e, snd (Calculate expr) = Some e -> fst (Calculate expr) = "").
  { intros e.
    destruct (Calculate_cases expr)
      as [(e' & Hv & ->) | [(_ & _ & ->) | (_ & a & op & b & f & Ep & Hin & Hf & ->)]];
      try reflexivity.
    destruct (f a b) as [r [e'|]]; [reflexivity|].
    intros He. now apply formatResult_error in He. }
  split; [exact G|].
  intros Hne. destruct (snd (Calculate expr)) as [e|] eqn:E; [|reflexivity].
  exfalso. apply Hne. now apply (G e).
Qed.

End Claims.

(** * Further properties of the code *)

(** ** Searching a text made of plain bytes *)

Section IndexFacts.

Variable p : ascii -> bool.

Lemma HasPrefix_head (s : string) (c : ascii) (o : string) :
  all_bytes p s = true -> p c = false -> HasPrefix s (String c o) = false.
Proof.
  destruct s as [|x s]; [reflexivity|]. cbn [all_bytes HasPrefix].
  intros Hs Hc. apply andb_true_iff in Hs as [Hx _].
  destruct (Ascii.eqb_spec x c) as [->|]; [congruence|reflexivity].
Qed.

Lemma Index_from_none (k : Z) (s : string) (c : ascii) (o : string) :
  all_bytes p s = true -> p c = false -> Index_from k s (String c o) = (-1)%Z.
Proof.
  intros Hs Hc. revert k. induction s as [|x s IH]; intros k; [reflexivity|].
  cbn [Index_from]. rewrite (HasPrefix_head _ _ _ Hs Hc).
  cbn [all_bytes] in Hs. apply andb_true_iff in Hs as [_ Hs]. now apply IH.
Qed.

Lemma Index_from_skip (k : Z) (l t : string) (c : ascii) (o : string) :
  all_bytes p l = true -> p c = false ->
  Index_from k (l +:+ t) (String c o)
  = Index_from (k + Z.of_nat (len l)) t (String c o).
Proof.
  intros Hl Hc. revert k. induction l as [|x l IH]; intros k.
  - rewrite append_nil_l. cbn. now rewrite Z.add_0_r.
  - rewrite append_cons. cbn [Index_from all_bytes] in *.
    apply andb_true_iff in Hl as [Hx Hl].
    cbn [HasPrefix]. destruct (Ascii.eqb_spec x c) as [->|]; [congruence|].
    cbn [andb]. rewrite (IH Hl). f_equal. unfold len. cbn [String.length]. lia.
Qed.

End IndexFacts.

Section OperandFacts.

Context {go : Platform}.

Lemma readFloat_cons (c : ascii) (t : string) :
  readFloat (String c t)
  = match readDigits (if Ascii.eqb c "+" || Ascii.eqb c "-" then t else String c t)
            false false 0 0 with
    | Some (mant, scale) => Some (Ascii.eqb c "-", mant, scale)
    | None => None
    end.
Proof. destruct c as [[] [] [] [] [] [] [] []]; reflexivity. Qed.

Lemma readDigits_bytes (s : string) (d g : bool) (m sc : Z) (res : Z * Z) :
  readDigits s d g m sc = Some res -> all_bytes operand_byte s = true.
Proof.
  revert d g m sc. induction s as [|c s IH]; intros d g m sc; [reflexivity|].
  cbn [readDigits all_bytes]. unfold operand_byte at 1.
  destruct (Ascii.eqb c ".") eqn:Ep.
  - rewrite orb_true_r. destruct d; [discriminate|]. intros H. now rewrite (IH _ _ _ _ H).
  - destruct (is_digit c); [|discriminate]. intros H. now rewrite (IH _ _ _ _ H).
Qed.

Lemma readDigits_nonempty (s : string) (d : bool) (m sc : Z) (res : Z * Z) :
  readDigits s d false m sc = Some res -> s <> "".
Proof. destruct s; [discriminate|discriminate]. Qed.

(** An operand that the plain tier of [ParseFloat] accepts: a first byte,
    which may be a sign, and then digits and points only. *)
Lemma ParseFloat_plain_shape (s : string) (a : float64) :
  all_bytes plain_byte s = true -> ParseFloat s = Some a ->
  exists (c : ascii) (t : string),
    s = String c t /\ plain_byte c = true /\ all_bytes operand_byte t = true.
Proof.
  unfold ParseFloat. intros Hp. rewrite Hp.
  destruct s as [|c t]; [discriminate|].
  rewrite readFloat_cons.
  destruct (readDigits _ false false 0 0) as [[m sc]|] eqn:Er; [|discriminate].
  intros _. exists c, t. split; [reflexivity|].
  cbn [all_bytes] in Hp. apply andb_true_iff in Hp as [Hc _]. split; [exact Hc|].
  apply readDigits_bytes in Er.
  destruct (Ascii.eqb c "+" || Ascii.eqb c "-"); [exact Er|].
  cbn [all_bytes] in Er. now apply andb_true_iff in Er as [_ Er].
Qed.

End OperandFacts.

Section ScanFacts.

Context {go : Platform}.

Lemma get_all_bytes (p : ascii -> bool) (s : string) (j : nat) (c : ascii) :
  all_bytes p s = true -> String.get j s = Some c -> p c = true.
Proof.
  revert j; induction s as [|x s IH]; intros j Hs Hg; [discriminate|].
  cbn [all_bytes] in Hs. apply andb_true_iff in Hs as [Hx Hs].
  destruct j; simpl in Hg; [congruence|eauto].
Qed.

Lemma get_some (s : string) (i : nat) :
  (i < len s)%nat -> exists c, String.get i s = Some c.
Proof.
  revert i; induction s as [|x s IH]; intros i Hi; [cbn in Hi; lia|].
  destruct i as [|i]; [now exists x|]. apply IH. cbn in Hi. unfold len. lia.
Qed.

Lemma get_app (l t : string) (j : nat) :
  String.get j (l +:+ t)
  = if (j <? len l)%nat then String.get j l else String.get (j - len l) t.
Proof.
  destruct (Nat.ltb_spec j (len l)) as [H|H].
  - symmetry. now apply append_correct1.
  - rewrite (append_correct2 l t (j - len l)). f_equal. unfold len in *. lia.
Qed.

Lemma len_app (l t : string) : len (l +:+ t) = (len l + len t)%nat.
Proof.
  induction l as [|c l IH]; [reflexivity|].
  rewrite append_cons. unfold len in *. cbn [String.length]. now rewrite IH.
Qed.

Lemma slice_to_app_len (l t : string) : slice_to (len l) (l +:+ t) = l.
Proof.
  induction l as [|c l IH]; [now destruct t|].
  rewrite append_cons. cbn [len String.length slice_to]. f_equal. exact IH.
Qed.

Lemma operands_at (l op r : string) (a b : float64) :
  r <> "" -> ParseFloat l = Some a -> ParseFloat r = Some b ->
  operands (l +:+ op +:+ r) (len l) (len op) = Some (a, b).
Proof.
  intros Hr Ha Hb. unfold operands.
  rewrite slice_to_app_len, slice_from_add, !slice_from_app_len.
  apply String.eqb_neq in Hr. now rewrite Hr, Ha, Hb.
Qed.

(** The guard of the sign loop at index [j]. *)
Lemma signLoop_miss (expr op : string) (n i : nat) :
  (forall j c q, (i <= j < i + n)%nat ->
     String.get j expr = Some c -> String.get (j - 1) expr = Some q ->
     String.eqb (string_of_byte c) op && ends_operand q = false) ->
  signLoop expr op n i = None.
Proof.
  revert i; induction n as [|n IH]; intros i H; [reflexivity|].
  cbn [signLoop].
  assert (Hn : signLoop expr op n (S i) = None).
  { apply IH. intros j c q Hj. apply H. lia. }
  destruct (String.get i expr) as [c|] eqn:Ec; [|exact Hn].
  destruct (String.get (i - 1) expr) as [q|] eqn:Eq; [|exact Hn].
  rewrite (H i c q) by (auto; lia). exact Hn.
Qed.

Lemma signLoop_hit (expr op : string) (n i j : nat) (c q : ascii)
      (ab : float64 * float64) :
  (i <= j < i + n)%nat ->
  (forall j' c' q', (i <= j' < j)%nat ->
     String.get j' expr = Some c' -> String.get (j' - 1) expr = Some q' ->
     String.eqb (string_of_byte c') op && ends_operand q' = false) ->
  String.get j expr = Some c -> String.get (j - 1) expr = Some q ->
  string_of_byte c = op -> ends_operand q = true ->
  operands expr j 1 = Some ab ->
  signLoop expr op n i = Some ab.
Proof.
  revert i; induction n as [|n IH]; intros i Hj Hb Hc Hq Hop He Ho; [lia|].
  cbn [signLoop].
  destruct (Nat.eq_dec i j) as [->|Hne].
  - rewrite Hc, Hq, Hop, String.eqb_refl, He, Ho. reflexivity.
  - assert (Hn : signLoop expr op n (S i) = Some ab).
    { apply IH; auto; [lia|]. intros j' c' q' Hj'. apply Hb. lia. }
    destruct (String.get i expr) as [c'|] eqn:Ec; [|exact Hn].
    destruct (String.get (i - 1) expr) as [q'|] eqn:Eq; [|exact Hn].
    rewrite (Hb i c' q') by (auto; lia). exact Hn.
Qed.

Lemma operand_byte_not_sign (c : ascii) (op : string) :
  operand_byte c = true -> op = "+" \/ op = "-" ->
  String.eqb (string_of_byte c) op = false.
Proof.
  intros Hc Hop. apply String.eqb_neq. intros E.
  apply (string_of_byte_sign c op Hop) in E.
  destruct Hop as [-> | ->]; injection E as <-; discriminate.
Qed.

End ScanFacts.

Section SignScan.

Context {go : Platform}.

Variables (c0 : ascii) (l' : string) (s d0 : ascii) (r' : string).
Hypothesis Hl' : all_bytes operand_byte l' = true.
Hypothesis Hr' : all_bytes operand_byte r' = true.
Hypothesis Hs : s = "+"%char \/ s = "-"%char.

Let l := String c0 l'.
Let r := String d0 r'.
Let expr := l +:+ String s r.

Lemma sign_text_byte (j : nat) (c : ascii) :
  (1 <= j)%nat -> j <> len l -> j <> S (len l) ->
  String.get j expr = Some c -> operand_byte c = true.
Proof.
  intros H1 H2 H3. unfold expr. rewrite get_app.
  destruct (Nat.ltb_spec j (len l)) as [H|H].
  - destruct j as [|j]; [lia|]. unfold l. cbn [String.get].
    apply get_all_bytes, Hl'.
  - destruct (j - len l)%nat as [|[|k]] eqn:E; [lia|lia|].
    unfold r. cbn [String.get]. apply get_all_bytes, Hr'.
Qed.

Lemma sign_text_at (j : nat) :
  j = len l -> String.get j expr = Some s.
Proof.
  intros ->. unfold expr. rewrite get_app, Nat.ltb_irrefl, Nat.sub_diag. reflexivity.
Qed.

Lemma string_of_sign : string_of_byte s = String s "".
Proof. destruct Hs as [-> | ->]; reflexivity. Qed.

Lemma sign_not_operand_end : ends_operand s = false.
Proof. destruct Hs as [-> | ->]; reflexivity. Qed.

Lemma signLoop_other (op : string) :
  op = "+" \/ op = "-" -> op <> String s "" ->
  signLoop expr op (len expr - 1) 1 = None.
Proof.
  intros Hop Hne. apply signLoop_miss. intros j c q Hj Hc Hq.
  destruct (Nat.eq_dec j (len l)) as [E|E].
  - rewrite (sign_text_at j E) in Hc. injection Hc as <-.
    rewrite string_of_sign. apply String.eqb_neq in Hne.
    rewrite String.eqb_sym, Hne. reflexivity.
  - destruct (Nat.eq_dec j (S (len l))) as [E'|E'].
    + rewrite (sign_text_at (j - 1)) in Hq by lia. injection Hq as <-.
      rewrite sign_not_operand_end. apply andb_false_r.
    + rewrite (operand_byte_not_sign c op); auto.
      apply (sign_text_byte j); auto; lia.
Qed.

Lemma signLoop_same (q : ascii) (a b : float64) :
  String.get (len l - 1) l = Some q -> is_digit q = true ->
  ParseFloat l = Some a -> ParseFloat r = Some b ->
  signLoop expr (String s "") (len expr - 1) 1 = Some (a, b).
Proof.
  intros Hq Hd Ha Hb.
  assert (Hsign : String s "" = "+" \/ String s "" = "-")
    by (destruct Hs as [-> | ->]; auto).
  assert (Hlen : len expr = (len l + S (len r))%nat).
  { unfold expr. rewrite len_app. reflexivity. }
  apply (signLoop_hit expr (String s "") _ 1 (len l) s q).
  - unfold l in *. cbn [len String.length] in *. lia.
  - intros j c q' Hj Hc _. rewrite (operand_byte_not_sign c); auto.
    apply (sign_text_byte j); auto; lia.
  - now apply sign_text_at.
  - unfold expr. rewrite get_app.
    replace (len l - 1 <? len l)%nat with true; [exact Hq|].
    symmetry. apply Nat.ltb_lt. unfold l. cbn [len String.length]. lia.
  - apply string_of_sign.
  - unfold ends_operand. now rewrite Hd.
  - unfold expr. change (String s r) with (String s "" +:+ r).
    change 1%nat with (len (String s "")).
    apply operands_at; [discriminate|exact Ha|exact Hb].
Qed.

End SignScan.

Section ScanSteps.

Context {go : Platform}.

Lemma scan_index_miss (expr o : string) (ops : list string) :
  String.eqb o "-" || String.eqb o "+" = false ->
  Index expr o = (-1)%Z ->
  scanOperators expr (o :: ops) = scanOperators expr ops.
Proof. intros Hs Hi. cbn [scanOperators]. now rewrite Hs, Hi. Qed.

Lemma scan_index_hit (expr o : string) (ops : list string) (i : nat)
      (a b : float64) :
  String.eqb o "-" || String.eqb o "+" = false ->
  Index expr o = Z.of_nat i -> (0 < i)%nat ->
  operands expr i (len o) = Some (a, b) ->
  scanOperators expr (o :: ops) = (a, o, b, None).
Proof.
  intros Hs Hi Hpos Ho. cbn [scanOperators]. rewrite Hs, Hi, Nat2Z.id, Ho.
  replace (0 <? Z.of_nat i)%Z with true by (symmetry; apply Z.ltb_lt; lia).
  reflexivity.
Qed.

Lemma scan_sign_miss (expr o : string) (ops : list string) :
  String.eqb o "-" || String.eqb o "+" = true ->
  signLoop expr o (len expr - 1) 1 = None ->
  scanOperators expr (o :: ops) = scanOperators expr ops.
Proof. intros Hs Hi. cbn [scanOperators]. now rewrite Hs, Hi. Qed.

Lemma scan_sign_hit (expr o : string) (ops : list string) (a b : float64) :
  String.eqb o "-" || String.eqb o "+" = true ->
  signLoop expr o (len expr - 1) 1 = Some (a, b) ->
  scanOperators expr (o :: ops) = (a, o, b, None).
Proof. intros Hs Hi. cbn [scanOperators]. now rewrite Hs, Hi. Qed.

End ScanSteps.

Lemma HasPrefix_cons (c : ascii) (s : string) (x : ascii) (o : string) :
  HasPrefix (String c s) (String x o) = Ascii.eqb c x && HasPrefix s o.
Proof. reflexivity. Qed.

Lemma HasPrefix_nil (s : string) : HasPrefix s "" = true.
Proof. now destruct s. Qed.

Lemma Index_from_cons (k : Z) (c : ascii) (s o : string) :
  Index_from k (String c s) o
  = if HasPrefix (String c s) o then k else Index_from (k + 1) s o.
Proof. reflexivity. Qed.

(** [strings.Index] of an operator in a text made of plain bytes around an
    operator, both given in full. *)
Ltac index_plain :=
  unfold Index;
  rewrite ?(Index_from_skip plain_byte) by (assumption || reflexivity);
  rewrite ?append_cons, ?append_nil_l;
  repeat first
    [ rewrite (HasPrefix_head plain_byte) by (assumption || reflexivity)
    | rewrite (Index_from_none plain_byte) by (assumption || reflexivity)
    | rewrite Index_from_cons
    | rewrite HasPrefix_cons
    | rewrite HasPrefix_nil
    | progress cbn [Ascii.eqb Bool.eqb andb] ];
  try reflexivity; try lia.

Section Completeness.

Context {go : Platform}.

Lemma scan_complete (l op r : string) (a b : float64) :
  all_bytes plain_byte l = true -> all_bytes plain_byte r = true ->
  ParseFloat l = Some a -> ParseFloat r = Some b ->
  In op operators ->
  (op = "+" \/ op = "-" ->
   exists q, String.get (len l - 1) l = Some q /\ is_digit q = true) ->
  scanOperators (l +:+ op +:+ r) operators = (a, op, b, None).
Proof.
  intros Hl Hr Ha Hb Hin Hend.
  destruct (ParseFloat_plain_shape l a Hl Ha) as (c0 & l' & El & Hc0 & Hl').
  destruct (ParseFloat_plain_shape r b Hr Hb) as (d0 & r' & Er & Hd0 & Hr').
  assert (Hrn : r <> "") by (rewrite Er; discriminate).
  assert (Hln : (0 < len l)%nat) by (rewrite El; cbn; lia).
  pose proof (operands_at l op r a b Hrn Ha Hb) as Hops.
  unfold operators. simpl in Hin.
  destruct Hin as [<- | [<- | [<- | [<- | [<- | [<- | [<- | Hin]]]]]]].
  1-7: repeat (rewrite scan_index_miss by (reflexivity || index_plain));
       apply (scan_index_hit _ _ _ (len l)); auto; index_plain.
  - destruct Hin as [<- | [<- | []]];
      (destruct Hend as (q & Hq & Hd); [auto|]);
      repeat (rewrite scan_index_miss by (reflexivity || index_plain)).
    + apply scan_sign_hit; [reflexivity|]. subst l r.
      rewrite (append_cons "+" "" (String d0 r')), append_nil_l.
      apply (signLoop_same c0 l' "+" d0 r' Hl' Hr' (or_introl eq_refl) q); auto.
    + rewrite scan_sign_miss; [|reflexivity|].
      * apply scan_sign_hit; [reflexivity|]. subst l r.
        rewrite (append_cons "-" "" (String d0 r')), append_nil_l.
        apply (signLoop_same c0 l' "-" d0 r' Hl' Hr' (or_intror eq_refl) q); auto.
      * subst l r. rewrite (append_cons "-" "" (String d0 r')), append_nil_l.
        apply (signLoop_other c0 l' "-" d0 r' Hl' Hr' (or_intror eq_refl));
          [auto|discriminate].
Qed.

End Completeness.

Section ValidateFacts.

Lemma all_bytes_impl (p q : ascii -> bool) (s : string) :
  (forall c, p c = true -> q c = true) ->
  all_bytes p s = true -> all_bytes q s = true.
Proof.
  intros Hpq. induction s as [|c s IH]; [reflexivity|]. cbn [all_bytes].
  intros H. apply andb_true_iff in H as [Hc Hs].
  now rewrite (Hpq c Hc), (IH Hs).
Qed.

Lemma strip_no_space (s : string) :
  contains_byte " " s = false -> without_spaces s = s.
Proof.
  induction s as [|c s IH]; [reflexivity|].
  rewrite ReplaceAll_space_cons. cbn [contains_byte].
  intros H. apply orb_false_iff in H as [Hc Hs]. now rewrite Hc, (IH Hs).
Qed.

Lemma plain_no_space (s : string) :
  all_bytes plain_byte s = true -> contains_byte " " s = false.
Proof.
  intros H. destruct (contains_byte " " s) eqn:E; [|reflexivity].
  now rewrite (all_bytes_contains plain_byte " " s eq_refl E) in H.
Qed.

Lemma plain_byte_class (c : ascii) :
  plain_byte c = true ->
  (byteval c < 128)%N /\ validChar (byteval c) = true /\ IsSpace (byteval c) = false.
Proof.
  destruct c as [[] [] [] [] [] [] [] []]; try discriminate; intros _;
    (split; [vm_compute; reflexivity|split; reflexivity]).
Qed.

Lemma runes_cons (c : ascii) (t : string) :
  runes (String c t)
  = fst (DecodeRuneInString (String c t))
    :: runes (slice_from (snd (DecodeRuneInString (String c t)) - 1) t).
Proof. unfold runes. now rewrite decode_cons. Qed.

Lemma decode_ascii (c : ascii) (t : string) :
  (byteval c < 128)%N -> decode (String c t) = (byteval c, 1%nat) :: decode t.
Proof.
  intros Hc. rewrite decode_cons. unfold DecodeRuneInString.
  assert (F : first (byteval c) = LeadASCII).
  { unfold first. apply N.ltb_lt in Hc. now rewrite Hc. }
  rewrite F. reflexivity.
Qed.

Lemma decode_plain (c : ascii) (t : string) :
  plain_byte c = true -> decode (String c t) = (byteval c, 1%nat) :: decode t.
Proof. intros Hc. apply decode_ascii. now apply plain_byte_class in Hc. Qed.

Lemma decode_times (t : string) : decode ("×" +:+ t) = (215%N, 2%nat) :: decode t.
Proof. rewrite !append_cons, append_nil_l, decode_cons. reflexivity. Qed.

Lemma decode_obelus (t : string) : decode ("÷" +:+ t) = (247%N, 2%nat) :: decode t.
Proof. rewrite !append_cons, append_nil_l, decode_cons. reflexivity. Qed.

Lemma runes_plain_app (Q : rune -> bool) (l t : string) :
  all_bytes plain_byte l = true ->
  forallb Q (runes (l +:+ t))
  = all_bytes (fun c => Q (byteval c)) l && forallb Q (runes t).
Proof.
  induction l as [|c l IH]; [reflexivity|].
  cbn [all_bytes]. intros H. apply andb_true_iff in H as [Hc Hl].
  rewrite append_cons. unfold runes in *. rewrite (decode_plain _ _ Hc).
  cbn [map forallb fst]. rewrite (IH Hl). now rewrite andb_assoc.
Qed.

Lemma runes_operator_app (Q : rune -> bool) (op t : string) :
  In op operators ->
  forallb Q (runes (op +:+ t)) = forallb Q (runes op) && forallb Q (runes t).
Proof.
  intros Hin. simpl in Hin.
  repeat (destruct Hin as [<- | Hin]); try contradiction;
    match goal with
    | |- _ = forallb Q (runes ?o) && _ =>
        let v := eval vm_compute in (runes o) in change (runes o) with v
    end;
    unfold runes; rewrite ?decode_times, ?decode_obelus;
    rewrite ?append_cons, ?append_nil_l;
    rewrite ?decode_ascii by (vm_compute; reflexivity);
    cbn [map forallb fst]; now rewrite ?andb_true_r, ?andb_assoc.
Qed.

End ValidateFacts.

Section CalculateComplete.

Context {go : Platform}.

Lemma runes_plain (Q : rune -> bool) (l : string) :
  all_bytes plain_byte l = true ->
  forallb Q (runes l) = all_bytes (fun c => Q (byteval c)) l.
Proof.
  induction l as [|c l IH]; [reflexivity|].
  cbn [all_bytes]. intros H. apply andb_true_iff in H as [Hc Hl].
  unfold runes in *. rewrite (decode_plain _ _ Hc).
  cbn [map forallb fst]. now rewrite (IH Hl).
Qed.

Lemma operator_no_space (op : string) :
  In op operators ->
  contains_byte " " op = false /\ forallb validChar (runes op) = true.
Proof.
  intros Hin; simpl in Hin.
  repeat (destruct Hin as [<- | Hin]); try contradiction; split; reflexivity.
Qed.

Lemma validate_plain (l op r : string) :
  all_bytes plain_byte l = true -> l <> "" ->
  all_bytes plain_byte r = true ->
  In op operators ->
  (len (l +:+ op +:+ r) <= maxExpressionLength)%nat ->
  validateExpression (l +:+ op +:+ r) = None.
Proof.
  intros Hl Hne Hr Hin Hlen. unfold validateExpression.
  replace (maxExpressionLength <? len (l +:+ op +:+ r))%nat with false
    by (symmetry; apply Nat.ltb_ge; lia).
  assert (Hb : TrimSpace_is_empty (l +:+ op +:+ r) = false).
  { unfold TrimSpace_is_empty. rewrite (runes_plain_app _ _ _ Hl).
    destruct l as [|c0 l']; [congruence|]. cbn [all_bytes] in *.
    apply andb_true_iff in Hl as [Hc _].
    apply plain_byte_class in Hc as (_ & _ & Hc). now rewrite Hc. }
  rewrite Hb, (MatchString_nonblank _ Hb).
  rewrite (runes_plain_app _ _ _ Hl), (runes_operator_app _ _ _ Hin).
  rewrite (runes_plain _ _ Hr).
  rewrite (all_bytes_impl plain_byte _ l), (all_bytes_impl plain_byte _ r); auto;
    try (intros c Hc; now apply plain_byte_class in Hc).
  now rewrite (proj2 (operator_no_space op Hin)).
Qed.

Lemma strip_plain (l op r : string) :
  all_bytes plain_byte l = true -> all_bytes plain_byte r = true ->
  In op operators ->
  without_spaces (l +:+ op +:+ r) = l +:+ op +:+ r.
Proof.
  intros Hl Hr Hin. apply strip_no_space.
  rewrite !append_contains, (plain_no_space l Hl), (plain_no_space r Hr).
  now rewrite (proj1 (operator_no_space op Hin)).
Qed.

Lemma parse_complete (l op r : string) (a b : float64) :
  all_bytes plain_byte l = true -> all_bytes plain_byte r = true ->
  ParseFloat l = Some a -> ParseFloat r = Some b ->
  In op operators ->
  (op = "+" \/ op = "-" ->
   exists q, String.get (len l - 1) l = Some q /\ is_digit q = true) ->
  parseExpression (l +:+ op +:+ r) = (a, op, b, None).
Proof.
  intros Hl Hr Ha Hb Hin Hend. unfold parseExpression.
  rewrite (strip_plain l op r Hl Hr Hin). now apply scan_complete.
Qed.

Lemma Calculate_complete (l op r : string) (a b : float64) (f : opFunc) :
  all_bytes plain_byte l = true -> all_bytes plain_byte r = true ->
  ParseFloat l = Some a -> ParseFloat r = Some b ->
  supportedOps !! op = Some f -> In op operators ->
  (op = "+" \/ op = "-" ->
   exists q, String.get (len l - 1) l = Some q /\ is_digit q = true) ->
  (len (l +:+ op +:+ r) <= maxExpressionLength)%nat ->
  Calculate (l +:+ op +:+ r)
  = match f a b with
    | (_, Some e) => ("", Some e)
    | (res, None) => formatResult res
    end.
Proof.
  intros Hl Hr Ha Hb Hf Hin Hend Hlen.
  assert (Hne : l <> "").
  { destruct (ParseFloat_plain_shape l a Hl Ha) as (c & t & -> & _). discriminate. }
  rewrite (Calculate_step _ a op b None).
  - now rewrite Hf.
  - now apply validate_plain.
  - now apply parse_complete.
Qed.

End CalculateComplete.

(** ** Exact arithmetic on integers *)

Section ExactRounding.

Local Open Scope Z_scope.

Lemma digits2_size (p : positive) : digits2_pos p = Pos.size p.
Proof. induction p; simpl; congruence. Qed.

Lemma digits2_bounds (k : positive) :
  2 ^ (Zpos (digits2_pos k) - 1) <= Zpos k < 2 ^ Zpos (digits2_pos k).
Proof.
  rewrite digits2_size.
  pose proof (Pos.size_gt k) as Hg. pose proof (Pos.size_le k) as Hl.
  assert (E : Zpos (2 ^ Pos.size k) = 2 ^ Zpos (Pos.size k))
    by (now rewrite Pos2Z.inj_pow).
  assert (E' : 2 ^ Zpos (Pos.size k) = 2 * 2 ^ (Zpos (Pos.size k) - 1)).
  { rewrite <- Z.pow_succ_r by lia. f_equal. lia. }
  lia.
Qed.

Lemma digits2_le (k : positive) (d : Z) :
  0 <= d -> Zpos k < 2 ^ d -> Zpos (digits2_pos k) <= d.
Proof.
  intros Hd Hk. pose proof (digits2_bounds k) as [Hlo _].
  destruct (Z.le_gt_cases (Zpos (digits2_pos k)) d) as [|Hgt]; [assumption|].
  assert (2 ^ d <= 2 ^ (Zpos (digits2_pos k) - 1)) by (apply Z.pow_le_mono_r; lia).
  lia.
Qed.

Lemma iter_xO_of_mul (m k : positive) (n : positive) :
  Zpos m = Zpos k * 2 ^ Zpos n -> m = Pos.iter xO k n.
Proof.
  intros H. apply Pos2Z.inj. rewrite shiftl_iter_xO, Z.shiftl_mul_pow2 by lia.
  exact H.
Qed.

Lemma digits2_mul (m k : positive) (n : Z) :
  0 <= n -> Zpos m = Zpos k * 2 ^ n ->
  Zpos (digits2_pos m) = Zpos (digits2_pos k) + n.
Proof.
  intros Hn H. destruct n as [|n|n]; [|..|lia].
  - rewrite Z.pow_0_r, Z.mul_1_r in H. injection H as ->. lia.
  - rewrite (iter_xO_of_mul m k n H), digits2_iter_xO. lia.
Qed.

Lemma iter_pos_eq {A : Type} (f : A -> A) (n : positive) (x : A) :
  SpecFloat.iter_pos f n x = Pos.iter f x n.
Proof.
  revert x; induction n as [n IH|n IH|]; intros x;
    cbn [SpecFloat.iter_pos Pos.iter]; rewrite ?IH, ?Pos.iter_swap; reflexivity.
Qed.

Lemma shr_exact (k j : positive) :
  SpecFloat.iter_pos shr_1 j {| shr_m := Zpos (Pos.iter xO k j); shr_r := false; shr_s := false |}
  = {| shr_m := Zpos k; shr_r := false; shr_s := false |}.
Proof.
  rewrite iter_pos_eq. induction j using Pos.peano_ind.
  - reflexivity.
  - rewrite Pos.iter_succ_r, Pos.iter_succ. cbn [shr_1 orb]. exact IHj.
Qed.

Lemma fexp_normal (x : Z) : -1074 <= x - 53 -> fexp prec emax x = x - 53.
Proof. unfold fexp, emin, prec, emax. lia. Qed.

Lemma shr_fexp_canonical (k : positive) (e : Z) :
  Zpos (digits2_pos k) = 53 -> -1074 <= e ->
  shr_fexp prec emax (Zpos k) e loc_Exact
  = ({| shr_m := Zpos k; shr_r := false; shr_s := false |}, e).
Proof.
  intros Hd He. unfold shr_fexp. cbn [Zdigits2 shr_record_of_loc].
  rewrite Hd, fexp_normal by lia.
  replace (53 + e - 53 - e) with 0 by lia. reflexivity.
Qed.

Lemma shr_fexp_exact (k j : positive) (e : Z) :
  Zpos (digits2_pos k) = 53 -> -1074 <= e + Zpos j ->
  shr_fexp prec emax (Zpos (Pos.iter xO k j)) e loc_Exact
  = ({| shr_m := Zpos k; shr_r := false; shr_s := false |}, e + Zpos j).
Proof.
  intros Hd He. unfold shr_fexp. cbn [Zdigits2 shr_record_of_loc].
  rewrite digits2_iter_xO, Pos2Z.inj_add, Hd, fexp_normal by lia.
  replace (53 + Zpos j + e - 53 - e) with (Zpos j) by lia.
  cbn [shr]. now rewrite shr_exact.
Qed.

Lemma normal_mantissa (k : positive) (j : Z) :
  0 <= j -> Zpos (Z.to_pos (Z.shiftl (Zpos k) j)) = Zpos k * 2 ^ j.
Proof.
  intros Hj. rewrite Z.shiftl_mul_pow2 by lia.
  apply Z2Pos.id. apply Z.mul_pos_pos; [lia|]. apply Z.pow_pos_nonneg; lia.
Qed.

(** Rounding a mantissa with enough trailing zeros loses nothing. *)
Lemma binary_round_aux_exact (s : bool) (m k : positive) (n e : Z) :
  Zpos m = Zpos k * 2 ^ n ->
  Zpos (digits2_pos k) <= 53 ->
  53 - Zpos (digits2_pos k) <= n ->
  -1074 <= e + n + Zpos (digits2_pos k) - 53 <= 971 ->
  binary_round_aux prec emax s (Zpos m) e loc_Exact = normal s k (e + n).
Proof.
  intros Hm Hd Hn He. unfold normal.
  set (d := Zpos (digits2_pos k)) in *.
  set (k' := Z.to_pos (Z.shiftl (Zpos k) (prec - d))).
  assert (Hk' : Zpos k' = Zpos k * 2 ^ (53 - d))
    by (apply normal_mantissa; unfold prec; lia).
  assert (Hd' : Zpos (digits2_pos k') = 53).
  { rewrite (digits2_mul k' k (53 - d)) by (auto; lia). fold d. lia. }
  assert (Hm' : Zpos m = Zpos k' * 2 ^ (n + d - 53)).
  { rewrite Hm, Hk', <- Z.mul_assoc, <- Z.pow_add_r by lia. do 2 f_equal. lia. }
  unfold binary_round_aux.
  destruct (n + d - 53) as [|j|j] eqn:Ej; [| |lia].
  - rewrite Z.pow_0_r, Z.mul_1_r in Hm'. injection Hm' as ->.
    rewrite shr_fexp_canonical by (auto; lia).
    cbn [shr_m loc_of_shr_record round_nearest_even].
    rewrite shr_fexp_canonical by (auto; lia). cbn [shr_m].
    replace (e <=? emax - prec) with true
      by (symmetry; apply Z.leb_le; unfold emax, prec; lia).
    f_equal. unfold prec. lia.
  - rewrite (iter_xO_of_mul m k' j Hm').
    rewrite shr_fexp_exact by (auto; lia).
    cbn [shr_m loc_of_shr_record round_nearest_even].
    rewrite shr_fexp_canonical by (auto; lia). cbn [shr_m].
    replace (e + Zpos j <=? emax - prec) with true
      by (symmetry; apply Z.leb_le; unfold emax, prec; lia).
    f_equal. unfold prec. lia.
Qed.

(** Normalizing [±m * 2^e], for an [m] that is [k] followed by zeros. *)
Lemma binary_round_exact (s : bool) (m k : positive) (n e : Z) :
  Zpos m = Zpos k * 2 ^ n -> 0 <= n ->
  Zpos (digits2_pos k) <= 53 ->
  -1074 <= e + n + Zpos (digits2_pos k) - 53 <= 971 ->
  binary_round prec emax s m e = normal s k (e + n).
Proof.
  intros Hm Hn Hd He. unfold binary_round, shl_align.
  pose proof (digits2_mul m k n Hn Hm) as HD.
  rewrite HD, fexp_normal by lia.
  destruct (Zpos (digits2_pos k) + n + e - 53 - e) as [|j|j] eqn:Ej.
  - apply binary_round_aux_exact; auto; lia.
  - apply binary_round_aux_exact; auto; lia.
  - assert (Hmj : Zpos (Pos.iter xO m j) = Zpos k * 2 ^ (n + Zpos j)).
    { rewrite shiftl_iter_xO, Z.shiftl_mul_pow2, Hm, Z.pow_add_r by lia. lia. }
    rewrite (binary_round_aux_exact s _ k (n + Zpos j)); auto; try lia.
    unfold normal. f_equal. lia.
Qed.

End ExactRounding.

Section IntegerFloats.

Local Open Scope Z_scope.

Lemma digits2_range (k : positive) :
  Zpos k < 2 ^ 53 -> 1 <= Zpos (digits2_pos k) <= 53.
Proof. intros Hk. split; [lia|]. apply digits2_le; [lia|exact Hk]. Qed.

Lemma of_Z_normal (s : bool) (k : positive) :
  Zpos k < 2 ^ 53 -> of_Z (cond_Zopp s (Zpos k)) = normal s k 0.
Proof.
  intros Hk. pose proof (digits2_range k Hk) as Hd.
  unfold of_Z. destruct s; cbn [cond_Zopp Z.opp binary_normalize];
    apply (binary_round_exact _ k k 0 0); try lia;
    now rewrite Z.pow_0_r, Z.mul_1_r.
Qed.

(** A multiple of a power of two is normalized to the float of the
    integer it stands for. *)
Lemma binary_normalize_scaled (v n e : Z) :
  0 <= n -> e = - n -> Z.abs v < 2 ^ 53 ->
  binary_normalize prec emax (v * 2 ^ n) e false = of_Z v.
Proof.
  intros Hn -> Hv.
  assert (Hp : 0 < 2 ^ n) by (apply Z.pow_pos_nonneg; lia).
  destruct v as [|k|k].
  - reflexivity.
  - change (Zpos k) with (cond_Zopp false (Zpos k)) at 2.
    rewrite of_Z_normal by lia.
    destruct (Zpos k * 2 ^ n) as [|m|m] eqn:Em; try lia.
    cbn [binary_normalize].
    rewrite (binary_round_exact false m k n (- n)); auto; try lia.
    + f_equal. lia.
    + pose proof (digits2_range k). lia.
    + pose proof (digits2_range k). lia.
  - change (Zneg k) with (cond_Zopp true (Zpos k)) at 2.
    rewrite of_Z_normal by lia.
    destruct (Zneg k * 2 ^ n) as [|m|m] eqn:Em; try lia.
    cbn [binary_normalize].
    rewrite (binary_round_exact true m k n (- n)); auto; try lia.
    + f_equal. lia.
    + pose proof (digits2_range k). lia.
    + pose proof (digits2_range k). lia.
Qed.

Lemma shl_align_fst (m : positive) (e e' : Z) :
  e' <= e -> Zpos (fst (shl_align m e e')) = Zpos m * 2 ^ (e - e').
Proof.
  intros He. unfold shl_align.
  destruct (e' - e) as [|j|j] eqn:Ej; cbn [fst]; try lia.
  - replace (e - e') with 0 by lia. lia.
  - rewrite shiftl_iter_xO, Z.shiftl_mul_pow2 by lia. do 2 f_equal. lia.
Qed.

(** The mantissa of [normal s k 0], aligned to an exponent [e] not above
    its own, is [k * 2^-e]. *)
Lemma normal_aligned (k : positive) (e : Z) :
  Zpos k < 2 ^ 53 -> e <= Zpos (digits2_pos k) - 53 ->
  Zpos (fst (shl_align (Z.to_pos (Z.shiftl (Zpos k) (prec - Zpos (digits2_pos k))))
                       (0 + Zpos (digits2_pos k) - prec) e))
  = Zpos k * 2 ^ (- e).
Proof.
  intros Hk He. pose proof (digits2_range k Hk) as Hd. unfold prec in *.
  rewrite shl_align_fst by lia.
  rewrite normal_mantissa by lia.
  rewrite <- Z.mul_assoc, <- Z.pow_add_r by lia. do 2 f_equal. lia.
Qed.

Lemma of_Z_cases (p : Z) :
  Z.abs p < 2 ^ 53 ->
  (p = 0 /\ of_Z p = S754_zero false)
  \/ exists (s : bool) (k : positive),
      p = cond_Zopp s (Zpos k) /\ Zpos k < 2 ^ 53 /\ of_Z p = normal s k 0.
Proof.
  intros Hp. destruct p as [|k|k].
  - left. split; reflexivity.
  - right. exists false, k. repeat split; [lia|]. apply (of_Z_normal false); lia.
  - right. exists true, k. repeat split; [lia|]. apply (of_Z_normal true); lia.
Qed.

Lemma cond_Zopp_mul (s : bool) (a b : Z) : cond_Zopp s (a * b) = cond_Zopp s a * b.
Proof. destruct s; simpl; lia. Qed.

Lemma add_of_Z (p q : Z) :
  Z.abs p < 2 ^ 53 -> Z.abs q < 2 ^ 53 -> Z.abs (p + q) < 2 ^ 53 ->
  add (of_Z p) (of_Z q) = of_Z (p + q).
Proof.
  intros Hp Hq Hpq.
  destruct (of_Z_cases p Hp) as [[-> Ep] | (sp & kp & -> & Hkp & Ep)];
    destruct (of_Z_cases q Hq) as [[-> Eq] | (sq & kq & -> & Hkq & Eq)];
    rewrite ?Z.add_0_l, ?Z.add_0_r, ?Ep, ?Eq; try reflexivity.
  unfold normal, add, SFadd. cbv zeta.
  set (ez := Z.min _ _).
  rewrite !normal_aligned by (auto; unfold prec in *; lia).
  rewrite !cond_Zopp_mul, <- Z.mul_add_distr_r.
  pose proof (digits2_range kp Hkp). pose proof (digits2_range kq Hkq).
  apply binary_normalize_scaled; unfold prec in *; lia.
Qed.

Lemma sub_of_Z (p q : Z) :
  Z.abs p < 2 ^ 53 -> Z.abs q < 2 ^ 53 -> Z.abs (p - q) < 2 ^ 53 ->
  sub (of_Z p) (of_Z q) = of_Z (p - q).
Proof.
  intros Hp Hq Hpq.
  destruct (of_Z_cases p Hp) as [[-> Ep] | (sp & kp & -> & Hkp & Ep)];
    destruct (of_Z_cases q Hq) as [[-> Eq] | (sq & kq & -> & Hkq & Eq)].
  - reflexivity.
  - rewrite Z.sub_0_l, Eq.
    replace (- cond_Zopp sq (Zpos kq)) with (cond_Zopp (negb sq) (Zpos kq))
      by (destruct sq; reflexivity).
    rewrite of_Z_normal by lia. reflexivity.
  - rewrite Z.sub_0_r, Ep. reflexivity.
  - rewrite Ep, Eq. unfold normal, sub, SFsub. cbv zeta.
    set (ez := Z.min _ _).
    rewrite !normal_aligned by (auto; unfold prec in *; lia).
    rewrite !cond_Zopp_mul, <- Z.mul_sub_distr_r.
    pose proof (digits2_range kp Hkp). pose proof (digits2_range kq Hkq).
    apply binary_normalize_scaled; unfold prec in *; lia.
Qed.

Lemma digits2_lower (k : positive) (j : Z) :
  2 ^ j <= Zpos k -> j < Zpos (digits2_pos k).
Proof.
  intros Hj. pose proof (digits2_bounds k) as [_ Hhi].
  destruct (Z.lt_ge_cases j (Zpos (digits2_pos k))) as [|Hge]; [assumption|].
  assert (2 ^ Zpos (digits2_pos k) <= 2 ^ j) by (apply Z.pow_le_mono_r; lia).
  lia.
Qed.

Lemma cond_Zopp_xorb (s t : bool) (a b : Z) :
  cond_Zopp s a * cond_Zopp t b = cond_Zopp (xorb s t) (a * b).
Proof. destruct s, t; simpl; lia. Qed.

(** The product of two integers is exact when it stays below 2^53; a zero
    factor must not meet a negative one, which would give [-0]. *)
Lemma mul_of_Z (p q : Z) :
  Z.abs p < 2 ^ 53 -> Z.abs q < 2 ^ 53 -> Z.abs (p * q) < 2 ^ 53 ->
  (p = 0 -> 0 <= q) -> (q = 0 -> 0 <= p) ->
  mul (of_Z p) (of_Z q) = of_Z (p * q).
Proof.
  intros Hp Hq Hpq Hzp Hzq.
  destruct (of_Z_cases p Hp) as [[-> Ep] | (sp & kp & -> & Hkp & Ep)];
    destruct (of_Z_cases q Hq) as [[-> Eq] | (sq & kq & -> & Hkq & Eq)].
  - reflexivity.
  - rewrite Eq. destruct sq; [specialize (Hzp eq_refl); simpl in Hzp; lia|].
    reflexivity.
  - rewrite Ep, Z.mul_0_r. destruct sp; [specialize (Hzq eq_refl); simpl in Hzq; lia|].
    reflexivity.
  - rewrite cond_Zopp_xorb in *. change (Zpos kp * Zpos kq) with (Zpos (kp * kq)) in *.
    assert (Hk : Zpos (kp * kq) < 2 ^ 53) by (destruct (xorb sp sq); simpl in Hpq; lia).
    rewrite Ep, Eq, of_Z_normal by exact Hk.
    pose proof (digits2_range kp Hkp) as Hdp.
    pose proof (digits2_range kq Hkq) as Hdq.
    pose proof (digits2_range (kp * kq) Hk) as Hd.
    pose proof (digits2_bounds kp) as [Hlp _].
    pose proof (digits2_bounds kq) as [Hlq _].
    assert (Hlow : Zpos (digits2_pos kp) + Zpos (digits2_pos kq) - 2
                   < Zpos (digits2_pos (kp * kq))).
    { apply digits2_lower.
      replace (Zpos (digits2_pos kp) + Zpos (digits2_pos kq) - 2)
        with ((Zpos (digits2_pos kp) - 1) + (Zpos (digits2_pos kq) - 1)) by lia.
      rewrite Z.pow_add_r, Pos2Z.inj_mul by lia.
      apply Z.mul_le_mono_nonneg; try lia; apply Z.pow_nonneg; lia. }
    remember (normal (xorb sp sq) (kp * kq) 0) as R eqn:ER.
    unfold normal, mul, SFmul. cbv zeta. subst R.
    rewrite (binary_round_aux_exact _ _ (kp * kq)
               (106 - Zpos (digits2_pos kp) - Zpos (digits2_pos kq)));
      unfold prec in *; try lia.
    + f_equal. lia.
    + rewrite Pos2Z.inj_mul, !normal_mantissa by lia.
      replace (106 - Zpos (digits2_pos kp) - Zpos (digits2_pos kq))
        with ((53 - Zpos (digits2_pos kp)) + (53 - Zpos (digits2_pos kq))) by lia.
      rewrite Z.pow_add_r, Pos2Z.inj_mul by lia. ring.
Qed.

Lemma binary_normalize_nonzero (m e : Z) (sz : bool) :
  m <> 0 -> binary_normalize prec emax m e sz = binary_normalize prec emax m e false.
Proof. now destruct m. Qed.

Lemma normal_shifted (k : positive) (e : Z) :
  Zpos k < 2 ^ 53 -> e <= Zpos (digits2_pos k) - 53 ->
  Z.shiftl (Zpos (Z.to_pos (Z.shiftl (Zpos k) (prec - Zpos (digits2_pos k)))))
           (0 + Zpos (digits2_pos k) - prec - e)
  = Zpos k * 2 ^ (- e).
Proof.
  intros Hk He. pose proof (digits2_range k Hk) as Hd. unfold prec in *.
  rewrite Z.shiftl_mul_pow2, normal_mantissa by lia.
  rewrite <- Z.mul_assoc, <- Z.pow_add_r by lia. do 2 f_equal. lia.
Qed.

Lemma rem_cond_Zopp (sp sq : bool) (kp kq : positive) :
  Z.rem (cond_Zopp sp (Zpos kp)) (cond_Zopp sq (Zpos kq))
  = cond_Zopp sp (Zpos kp mod Zpos kq).
Proof.
  destruct sp, sq; cbn [cond_Zopp];
    rewrite ?Z.rem_opp_l', ?Z.rem_opp_r', Z.rem_mod_nonneg by lia; reflexivity.
Qed.

(** On integers, [math.Mod] is the remainder of the truncated division;
    a zero remainder has the sign of the dividend. *)
Lemma Mod_of_Z (p q : Z) :
  Z.abs p < 2 ^ 53 -> Z.abs q < 2 ^ 53 -> q <> 0 ->
  Mod (of_Z p) (of_Z q)
  = if Z.rem p q =? 0 then S754_zero (p <? 0) else of_Z (Z.rem p q).
Proof.
  intros Hp Hq Hq0.
  destruct (of_Z_cases q Hq) as [[-> _] | (sq & kq & -> & Hkq & Eq)]; [lia|].
  destruct (of_Z_cases p Hp) as [[-> Ep] | (sp & kp & -> & Hkp & Ep)].
  { rewrite Z.rem_0_l by exact Hq0. rewrite Ep, Eq. reflexivity. }
  rewrite rem_cond_Zopp, Ep, Eq.
  pose proof (digits2_range kp Hkp). pose proof (digits2_range kq Hkq).
  pose proof (Z.mod_pos_bound (Zpos kp) (Zpos kq) eq_refl) as Hm.
  unfold normal, Mod. cbv zeta. set (e := Z.min _ _).
  rewrite !normal_shifted by (auto; unfold prec in *; lia).
  assert (H2 : 0 < 2 ^ (- e)) by (apply Z.pow_pos_nonneg; unfold prec in *; lia).
  rewrite Z.mul_mod_distr_r by lia.
  assert (Hs : (cond_Zopp sp (Zpos kp) <? 0) = sp) by (now destruct sp).
  rewrite Hs, cond_Zopp_mul.
  destruct (Z.eqb_spec (cond_Zopp sp (Zpos kp mod Zpos kq)) 0) as [E|E].
  - rewrite E. reflexivity.
  - rewrite binary_normalize_nonzero by nia.
    apply binary_normalize_scaled; unfold prec in *; try lia.
    destruct sp; simpl; lia.
Qed.

Lemma normal_digits (k : positive) :
  Zpos k < 2 ^ 53 ->
  Zpos (digits2_pos (Z.to_pos (Z.shiftl (Zpos k) (prec - Zpos (digits2_pos k))))) = 53.
Proof.
  intros Hk. pose proof (digits2_range k Hk) as Hd. unfold prec.
  rewrite (digits2_mul _ k (53 - Zpos (digits2_pos k)));
    [lia|lia|apply normal_mantissa; lia].
Qed.

Lemma div_eucl_exact (b c : Z) : 0 < b -> Z.div_eucl (c * b) b = (c, 0).
Proof.
  intros Hb.
  assert (E : Z.div_eucl (c * b) b = ((c * b) / b, (c * b) mod b)).
  { unfold Z.div, Z.modulo. now destruct (Z.div_eucl (c * b) b). }
  rewrite E, Z.div_mul, Z.mod_mul by lia. reflexivity.
Qed.

Lemma new_location_exact (n : Z) : new_location n 0 = loc_Exact.
Proof. unfold new_location. now destruct (Z.even n). Qed.

Lemma SFdiv_core_binary_exact (mx my : positive) (ex ey c : Z) :
  Zpos (digits2_pos mx) = 53 -> Zpos (digits2_pos my) = 53 ->
  -1074 <= ex - ey - 53 ->
  Zpos mx * 2 ^ 53 = c * Zpos my ->
  SFdiv_core_binary prec emax (Zpos mx) ex (Zpos my) ey
  = (c, ex - ey - 53, loc_Exact).
Proof.
  intros Hx Hy He Hc. unfold SFdiv_core_binary. cbn [Zdigits2].
  rewrite Hx, Hy, fexp_normal by lia.
  replace (Z.min (53 + ex - (53 + ey) - 53) (ex - ey)) with (ex - ey - 53) by lia.
  replace (ex - ey - (ex - ey - 53)) with 53 by lia.
  rewrite Z.shiftl_mul_pow2, Hc, div_eucl_exact, new_location_exact by lia.
  reflexivity.
Qed.

(** A division of integers that leaves no remainder is exact; a zero
    dividend must not meet a negative divisor, which would give [-0]. *)
Lemma quo_of_Z (p q : Z) :
  Z.abs p < 2 ^ 53 -> Z.abs q < 2 ^ 53 -> q <> 0 -> Z.rem p q = 0 ->
  (p = 0 -> 0 < q) ->
  quo (of_Z p) (of_Z q) = of_Z (p / q).
Proof.
  intros Hp Hq Hq0 Hdiv Hz.
  destruct (of_Z_cases q Hq) as [[-> _] | (sq & kq & -> & Hkq & Eq)]; [lia|].
  destruct (of_Z_cases p Hp) as [[-> Ep] | (sp & kp & -> & Hkp & Ep)].
  { rewrite Ep, Eq. destruct sq; [specialize (Hz eq_refl); simpl in Hz; lia|].
    reflexivity. }
  rewrite rem_cond_Zopp in Hdiv.
  assert (Hm : Zpos kp mod Zpos kq = 0) by (destruct sp; simpl in Hdiv; lia).
  assert (Hc : Zpos kp = Zpos kp / Zpos kq * Zpos kq).
  { pose proof (Z.div_mod (Zpos kp) (Zpos kq) ltac:(lia)). lia. }
  destruct (Zpos kp / Zpos kq) as [|kc|kc] eqn:Ec; try lia.
  assert (Hquot : cond_Zopp sp (Zpos kp) / cond_Zopp sq (Zpos kq)
                  = cond_Zopp (xorb sp sq) (Zpos kc)).
  { rewrite Hc, <- (Z.div_mul (cond_Zopp (xorb sp sq) (Zpos kc))
                              (cond_Zopp sq (Zpos kq))) by exact Hq0.
    f_equal. destruct sp, sq; simpl; lia. }
  assert (Hkc : Zpos kc < 2 ^ 53) by nia.
  rewrite Hquot, Ep, Eq, of_Z_normal by exact Hkc.
  pose proof (digits2_range kp Hkp) as Hdp.
  pose proof (digits2_range kq Hkq) as Hdq.
  pose proof (digits2_range kc Hkc) as Hdc.
  pose proof (digits2_bounds kp) as [Hlp _].
  pose proof (digits2_bounds kq) as [_ Hhq].
  set (dp := Zpos (digits2_pos kp)) in *.
  set (dq := Zpos (digits2_pos kq)) in *.
  assert (Hlow : dp - dq <= Zpos (digits2_pos kc)).
  { destruct (Z.le_gt_cases (dp - dq) 1) as [|Hgt]; [lia|].
    assert (dp - dq - 1 < Zpos (digits2_pos kc)); [|lia].
    apply digits2_lower.
    assert (E : 2 ^ (dp - 1) = 2 ^ (dp - dq - 1) * 2 ^ dq).
    { rewrite <- Z.pow_add_r by lia. f_equal. lia. }
    assert (0 < 2 ^ dq) by (apply Z.pow_pos_nonneg; lia).
    nia. }
  remember (normal (xorb sp sq) kc 0) as R eqn:ER.
  unfold normal, quo, SFdiv. cbv zeta. fold dp dq.
  rewrite (SFdiv_core_binary_exact _ _ _ _ (Zpos kc * 2 ^ (53 - dp + dq)));
    unfold prec in *; try (apply normal_digits; assumption); try lia.
  - destruct (Zpos kc * 2 ^ (53 - dp + dq)) as [|mc|mc] eqn:Emc;
      try (assert (0 < 2 ^ (53 - dp + dq)) by (apply Z.pow_pos_nonneg; lia); lia).
    rewrite (binary_round_aux_exact _ mc kc (53 - dp + dq)) by (auto; lia).
    subst R. f_equal. lia.
  - fold dp dq. rewrite !normal_mantissa by (fold dp dq; lia). fold dp dq.
    rewrite Hc at 1.
    replace (53 - dp + dq) with (53 - dp + (53 - (53 - dq))) by lia.
    assert (E : 2 ^ 53 = 2 ^ (53 - (53 - dq)) * 2 ^ (53 - dq)).
    { rewrite <- Z.pow_add_r by lia. f_equal. lia. }
    rewrite E, (Z.pow_add_r 2 (53 - dp)) by lia. ring.
Qed.

End IntegerFloats.

(** ** Numerals *)

Section Numerals.

Context {go : Platform}.

Lemma readDigits_digit (c : ascii) (t : string) (g : bool) (m : Z) :
  is_digit c = true ->
  readDigits (String c t) false g m 0
  = readDigits t false true (10 * m + Z.of_N (byteval c - 48)) 0.
Proof.
  intros Hc. cbn [readDigits].
  destruct (Ascii.eqb_spec c ".") as [->|_]; [discriminate|].
  now rewrite Hc.
Qed.

Ltac digit_value :=
  match goal with
  | |- context [Z.of_N (byteval ?c - 48)] =>
      let v := eval vm_compute in (Z.of_N (byteval c - 48)) in
      change (Z.of_N (byteval c - 48)) with v
  end.

Lemma readDigits_acc (u : Decimal.uint) (acc : positive) :
  readDigits (NilEmpty.string_of_uint u) false true (Zpos acc) 0
  = Some (Zpos (Pos.of_uint_acc u acc), 0%Z).
Proof.
  revert acc; induction u; intros acc;
    cbn [NilEmpty.string_of_uint Pos.of_uint_acc]; [reflexivity|..];
    rewrite readDigits_digit by reflexivity; rewrite <- IHu; digit_value;
    do 2 f_equal; lia.
Qed.

Lemma readDigits_uint (u : Decimal.uint) (g : bool) :
  g = true \/ u <> Decimal.Nil ->
  readDigits (NilEmpty.string_of_uint u) false g 0 0
  = Some (Z.of_N (N.of_uint u), 0%Z).
Proof.
  revert g; induction u; intros g Hg;
    cbn [NilEmpty.string_of_uint N.of_uint Pos.of_uint];
    [destruct Hg as [-> | Hg]; [reflexivity|congruence]|..];
    rewrite readDigits_digit by reflexivity; digit_value;
    try (apply IHu; now left);
    apply readDigits_acc.
Qed.

Lemma Z_to_string_first (n : Z) :
  exists (c : ascii) (t : string), Z_to_string n = String c t /\ is_digit c = true.
Proof.
  pose proof (Z_to_string_digits n) as Hd.
  unfold Z_to_string, NilZero.string_of_uint in *.
  destruct (N.to_uint (Z.to_N n)) eqn:E;
    try (eexists; eexists; split; [reflexivity|reflexivity]).
Qed.

Lemma readDigits_numeral (n : Z) :
  (0 <= n)%Z -> readDigits (Z_to_string n) false false 0 0 = Some (n, 0%Z).
Proof.
  intros Hn. unfold Z_to_string, NilZero.string_of_uint.
  destruct (N.to_uint (Z.to_N n)) eqn:Eu.
  { exfalso. destruct (Z.to_N n); [discriminate|].
    simpl in Eu. now apply (Unsigned.to_uint_nonnil p). }
  all: rewrite <- Eu, readDigits_uint, Unsigned.of_to by (right; rewrite Eu; discriminate);
       now rewrite Z2N.id.
Qed.

Lemma readFloat_numeral (s : bool) (n : Z) :
  (0 <= n)%Z ->
  readFloat (sign_string s +:+ Z_to_string n) = Some (s, n, 0%Z).
Proof.
  intros Hn. destruct s; cbn [sign_string].
  - rewrite append_cons, append_nil_l, readFloat_cons. cbn [Ascii.eqb Bool.eqb andb orb].
    now rewrite readDigits_numeral.
  - rewrite append_nil_l.
    destruct (Z_to_string_first n) as (c & t & E & Hc).
    rewrite E, readFloat_cons.
    assert (Hs : Ascii.eqb c "+" || Ascii.eqb c "-" = false).
    { destruct (Ascii.eqb_spec c "+") as [->|]; [discriminate|].
      destruct (Ascii.eqb_spec c "-") as [->|]; [discriminate|reflexivity]. }
    assert (Hm : Ascii.eqb c "-" = false).
    { destruct (Ascii.eqb_spec c "-") as [->|]; [discriminate|reflexivity]. }
    now rewrite Hs, Hm, <- E, readDigits_numeral.
Qed.

Lemma div_eucl_1 (a : Z) : Z.div_eucl a 1 = (a, 0%Z).
Proof.
  pose proof (Z_div_mod a 1 eq_refl) as H.
  destruct (Z.div_eucl a 1) as [q r]. destruct H as [H1 H2]. f_equal; lia.
Qed.

Lemma decimal_to_float64_int (s : bool) (k : positive) :
  (Zpos k < 2 ^ 53)%Z -> decimal_to_float64 s (Zpos k) 0 = normal s k 0.
Proof.
  intros Hlt. unfold decimal_to_float64.
  change (10 ^ 0)%Z with 1%Z. change (Z.log2 1 + 64)%Z with 64%Z. cbv zeta.
  rewrite div_eucl_1. change (new_location 1 0) with loc_Exact.
  assert (Hs : Z.shiftl (Zpos k) 64 = (Zpos k * 2 ^ 64)%Z)
    by (now rewrite Z.shiftl_mul_pow2).
  destruct (Z.shiftl (Zpos k) 64) as [|m|m] eqn:Em; try lia.
  pose proof (digits2_range k Hlt) as Hd.
  change (Z.opp 64) with (Zneg 64).
  now rewrite (binary_round_aux_exact s m k 64 (Zneg 64)) by (auto; lia).
Qed.

Lemma normal_finite (s : bool) (k : positive) (e : Z) :
  IsInf (normal s k e) 0 = false /\ IsNaN (normal s k e) = false.
Proof. split; reflexivity. Qed.

Lemma numeral_plain (n : Z) : all_bytes plain_byte (numeral n) = true.
Proof.
  unfold numeral, integer_numeral. rewrite all_bytes_app.
  rewrite (all_bytes_impl is_digit plain_byte (Z_to_string _))
    by (try apply Z_to_string_digits; intros c Hc; unfold plain_byte; now rewrite Hc).
  now destruct (n <? 0)%Z.
Qed.

(** [strconv.ParseFloat] reads the numeral of an integer below 2^53 in
    magnitude as the float of that integer. *)
Lemma ParseFloat_numeral (n : Z) :
  (Z.abs n < 2 ^ 53)%Z -> ParseFloat (numeral n) = Some (of_Z n).
Proof.
  intros Hn. unfold ParseFloat. rewrite numeral_plain.
  unfold numeral, integer_numeral. rewrite readFloat_numeral by lia.
  destruct (of_Z_cases n Hn) as [[-> _] | (s & k & -> & Hk & E)]; [reflexivity|].
  assert (Hs : (cond_Zopp s (Zpos k) <? 0)%Z = s) by (now destruct s).
  assert (Ha : Z.abs (cond_Zopp s (Zpos k)) = Zpos k) by (now destruct s).
  rewrite Hs, Ha, decimal_to_float64_int, E by exact Hk. reflexivity.
Qed.

Lemma normal_truncate (k : positive) :
  (Zpos k < 2 ^ 53)%Z ->
  Z.shiftl (Zpos (Z.to_pos (Z.shiftl (Zpos k) (prec - Zpos (digits2_pos k)))))
           (0 + Zpos (digits2_pos k) - prec)
  = Zpos k.
Proof.
  intros Hk. pose proof (digits2_range k Hk) as Hd. unfold prec.
  rewrite normal_mantissa by lia.
  rewrite <- Z.shiftl_mul_pow2, Z.shiftl_shiftl by lia.
  replace (53 - Zpos (digits2_pos k) + (0 + Zpos (digits2_pos k) - 53))%Z
    with 0%Z by lia.
  apply Z.shiftl_0_r.
Qed.

Lemma eqb_refl_finite (s : bool) (m : positive) (e : Z) :
  eqb (S754_finite s m e) (S754_finite s m e) = true.
Proof.
  unfold eqb, SFeqb, SFcompare.
  rewrite Z.compare_refl.
  change (Pos.compare_cont Eq m m) with (Pos.compare m m).
  rewrite Pos.compare_refl. now destruct s.
Qed.

(** An integer below 2^53 in magnitude is printed as its decimal
    numeral. *)
Lemma formatResult_of_Z (n : Z) :
  (Z.abs n < 2 ^ 53)%Z ->
  formatResult (of_Z n) = (integer_numeral (n <? 0)%Z n, None).
Proof.
  intros Hn.
  destruct (of_Z_cases n Hn) as [[-> _] | (s & k & -> & Hk & E)]; [reflexivity|].
  assert (Hint : is_int (of_Z (cond_Zopp s (Zpos k))) = true).
  { destruct (of_Z (cond_Zopp s (Zpos k))) as [| | |s' m' e'] eqn:Ef;
      try (rewrite E in Ef; discriminate).
    apply (of_Z_int _ _ _ _ Ef). }
  assert (Hi64 : int64_of_float64 (normal s k 0) = cond_Zopp s (Zpos k)).
  { unfold int64_of_float64, normal. cbv zeta. cbn [truncate].
    rewrite normal_truncate by exact Hk.
    replace ((- 2 ^ 63 <=? cond_Zopp s (Zpos k)) && (cond_Zopp s (Zpos k) <? 2 ^ 63))%Z
      with true; [reflexivity|].
    symmetry. apply andb_true_iff. split; [apply Z.leb_le|apply Z.ltb_lt];
      destruct s; simpl; lia. }
  unfold formatResult. rewrite E in *.
  rewrite (proj1 (normal_finite s k 0)), (proj2 (normal_finite s k 0)), Hi64, E.
  unfold normal in *. cbv zeta in *. rewrite eqb_refl_finite.
  rewrite (Sprintf_f0_int _ _ _ Hint), normal_truncate by exact Hk.
  unfold integer_numeral. do 2 f_equal; destruct s; reflexivity.
Qed.

End Numerals.

Section IntegerExpressions.

Context {go : Platform}.

Lemma len_Z_to_string (n : Z) :
  (0 <= n < 2 ^ 53)%Z -> (1 <= len (Z_to_string n) <= 16)%nat.
Proof.
  intros [Hn Hlt]. destruct (Z.eq_dec n 0%Z) as [->|Hne]; [cbn; lia|].
  destruct (num_digits_spec n ltac:(lia)) as [[Hlo _] H1].
  unfold num_digits in *.
  split; [lia|].
  destruct (le_gt_dec (len (Z_to_string n)) 16) as [|Hgt]; [assumption|exfalso].
  assert (10 ^ 16 <= 10 ^ (Z.of_nat (len (Z_to_string n)) - 1))%Z
    by (apply Z.pow_le_mono_r; lia).
  lia.
Qed.

Lemma len_numeral (n : Z) :
  (Z.abs n < 2 ^ 53)%Z -> (1 <= len (numeral n) <= 17)%nat.
Proof.
  intros Hn. unfold numeral, integer_numeral. rewrite len_app.
  pose proof (len_Z_to_string (Z.abs n) ltac:(lia)).
  destruct (n <? 0)%Z; cbn [sign_string len String.length]; lia.
Qed.

Lemma numeral_ends_in_digit (n : Z) :
  (Z.abs n < 2 ^ 53)%Z ->
  exists c, String.get (len (numeral n) - 1) (numeral n) = Some c
            /\ is_digit c = true.
Proof.
  intros Hn. pose proof (len_Z_to_string (Z.abs n) ltac:(lia)) as Hl.
  unfold numeral, integer_numeral. rewrite len_app, get_app.
  set (sg := sign_string (n <? 0)%Z) in *.
  replace (len sg + len (Z_to_string (Z.abs n)) - 1 <? len sg)%nat with false
    by (symmetry; apply Nat.ltb_ge; lia).
  destruct (get_some (Z_to_string (Z.abs n))
              (len sg + len (Z_to_string (Z.abs n)) - 1 - len sg)) as [c Hc]; [lia|].
  exists c. split; [exact Hc|].
  apply (get_all_bytes is_digit _ _ _ (Z_to_string_digits _) Hc).
Qed.

Lemma of_Z_not_zero (q : Z) :
  (Z.abs q < 2 ^ 53)%Z -> q <> 0%Z -> eqb (of_Z q) zero = false.
Proof.
  intros Hq Hq0.
  destruct (of_Z_cases q Hq) as [[-> _] | (s & k & -> & Hk & ->)]; [lia|].
  now destruct s.
Qed.

(** [Calculate] on two integer numerals around an operator. *)
Lemma Calculate_numerals (p q : Z) (op : string) (f : opFunc) :
  (Z.abs p < 2 ^ 53)%Z -> (Z.abs q < 2 ^ 53)%Z ->
  In op operators -> supportedOps !! op = Some f ->
  Calculate (numeral p +:+ op +:+ numeral q)
  = match f (of_Z p) (of_Z q) with
    | (_, Some e) => ("", Some e)
    | (res, None) => formatResult res
    end.
Proof.
  intros Hp Hq Hin Hf.
  apply Calculate_complete; auto using numeral_plain, ParseFloat_numeral.
  - intros _. now apply numeral_ends_in_digit.
  - rewrite !len_app.
    pose proof (len_numeral p Hp). pose proof (len_numeral q Hq).
    assert (len op <= 2)%nat.
    { simpl in Hin. repeat (destruct Hin as [<- | Hin]); try contradiction; cbn; lia. }
    unfold maxExpressionLength. lia.
Qed.

End IntegerExpressions.

(** ** Powers *)

Section PowerFacts.

Context {go : Platform}.

Lemma Pow_exponent_zero (x : float64) : Pow x (of_Z 0) = of_Z 1.
Proof. reflexivity. Qed.

Lemma Pow_base_one (y : float64) : Pow (of_Z 1) y = of_Z 1.
Proof. unfold Pow. change (eqb (of_Z 1) one) with true. now rewrite orb_true_r. Qed.

Lemma Pow_exponent_one (p : Z) :
  (Z.abs p < 2 ^ 53)%Z -> Pow (of_Z p) (of_Z 1) = of_Z p.
Proof.
  intros Hp. unfold Pow.
  change (eqb (of_Z 1) zero) with false. change (eqb (of_Z 1) one) with true.
  cbn [orb].
  destruct (eqb (of_Z p) one) eqn:E; [|reflexivity].
  destruct (of_Z_cases p Hp) as [[-> _] | (s & k & -> & Hk & Ep)]; [discriminate|].
  rewrite Ep in *. unfold normal in *. cbv zeta in *.
  now apply eqb_finite in E.
Qed.

Lemma Pow_zero_negative (q : Z) :
  (Z.abs q < 2 ^ 53)%Z -> (q < 0)%Z -> Pow (of_Z 0) (of_Z q) = Inf false.
Proof.
  intros Hq Hneg.
  destruct (of_Z_cases q Hq) as [[-> _] | (s & k & -> & Hk & ->)]; [lia|].
  destruct s; [reflexivity|simpl in Hneg; lia].
Qed.

End PowerFacts.

(** ** The bytes of a result *)

Section ResultFacts.

Context {go : Platform}.

Lemma digit_result_byte (c : ascii) : is_digit c = true -> result_byte c = true.
Proof. intros H. unfold result_byte. now rewrite H. Qed.

Lemma digits_result (s : string) :
  all_bytes is_digit s = true -> all_bytes result_byte s = true.
Proof. apply all_bytes_impl, digit_result_byte. Qed.

Lemma all_bytes_of_list (p : ascii -> bool) (l : list ascii) :
  all_bytes p (string_of_list_ascii l) = forallb p l.
Proof. induction l as [|c l IH]; [reflexivity|]. cbn. now rewrite IH. Qed.

Lemma all_bytes_to_list (p : ascii -> bool) (s : string) :
  forallb p (list_ascii_of_string s) = all_bytes p s.
Proof. induction s as [|c s IH]; [reflexivity|]. cbn. now rewrite IH. Qed.

Lemma rstrip_zeros_rev_incl (r : list ascii) (x : ascii) :
  In x (rstrip_zeros_rev r) -> In x r.
Proof.
  induction r as [|c r IH]; [auto|]. cbn [rstrip_zeros_rev].
  destruct (Ascii.eqb c "0"); [right; auto|auto].
Qed.

Lemma rstrip_zeros_digits (s : string) :
  all_bytes is_digit s = true -> all_bytes is_digit (rstrip_zeros s) = true.
Proof.
  intros Hs. unfold rstrip_zeros. rewrite all_bytes_of_list.
  rewrite <- all_bytes_to_list in Hs.
  apply forallb_forall. intros x Hx.
  rewrite forallb_forall in Hs. apply Hs.
  apply in_rev in Hx. apply rstrip_zeros_rev_incl in Hx. now apply in_rev.
Qed.

Lemma round_digits_digits (p n d : Z) :
  all_bytes is_digit (digits (round_digits p n d)) = true.
Proof.
  unfold round_digits. destruct (_ =? _)%Z; cbn [digits]; [reflexivity|].
  apply rstrip_zeros_digits, Z_to_string_digits.
Qed.

Lemma rounded_digits_digits (p : Z) (f : float64) :
  all_bytes is_digit (digits (rounded_digits p f)) = true.
Proof.
  destruct f as [s|s| |s m e]; try reflexivity. cbn [rounded_digits].
  destruct (fraction_of m e). apply round_digits_digits.
Qed.

Lemma digits_between_digits (digs : decimalSlice) (i j : Z) :
  all_bytes is_digit (digits digs) = true ->
  all_bytes is_digit (digits_between digs i j) = true.
Proof.
  intros Hd. unfold digits_between. rewrite all_bytes_of_list.
  apply forallb_forall. intros x Hx. apply in_map_iff in Hx as (k & <- & _).
  destruct (_ <? 0)%Z; [reflexivity|].
  destruct (String.get _ (digits digs)) as [c|] eqn:Ec; [|reflexivity].
  apply (get_all_bytes _ _ _ _ Hd Ec).
Qed.

Lemma len_digits_between (digs : decimalSlice) (i j : Z) :
  len (digits_between digs i j) = Z.to_nat (j - i).
Proof.
  unfold digits_between, len.
  now rewrite length_string_of_list_ascii, length_map, length_seq.
Qed.

Ltac result_bytes :=
  repeat first
    [ rewrite all_bytes_app
    | match goal with |- _ && _ = true => apply andb_true_iff; split end
    | apply digits_result, digits_between_digits; assumption
    | apply digits_result, Z_to_string_digits
    | match goal with |- context [if ?c then _ else _] => destruct c end
    | match goal with |- context [sign_string ?s] => destruct s; cbn [sign_string] end
    | reflexivity ].

Lemma fmtE_bytes (s : bool) (digs : decimalSlice) (p : Z) :
  all_bytes is_digit (digits digs) = true ->
  fmtE s digs p <> "" /\ all_bytes result_byte (fmtE s digs p) = true.
Proof.
  intros Hd. split.
  - intros E. apply (f_equal (contains_byte "e")) in E.
    unfold fmtE in E. rewrite !append_contains in E. cbn [contains_byte] in E.
    rewrite Ascii.eqb_refl in E. cbn [orb] in E.
    rewrite ?orb_true_r in E. discriminate.
  - unfold fmtE. result_bytes.
Qed.

Lemma fmtF_bytes (s : bool) (digs : decimalSlice) (p : Z) :
  all_bytes is_digit (digits digs) = true ->
  fmtF s digs p <> "" /\ all_bytes result_byte (fmtF s digs p) = true.
Proof.
  intros Hd. split.
  - intros E. apply (f_equal len) in E. unfold fmtF in E.
    rewrite !len_app in E.
    destruct (Z.ltb_spec 0 (dp digs)).
    + rewrite len_digits_between in E. cbn [len String.length] in E. lia.
    + cbn [len String.length] in E. lia.
  - unfold fmtF. result_bytes.
Qed.

Lemma fmtG_bytes (s : bool) (digs : decimalSlice) (p : Z) :
  all_bytes is_digit (digits digs) = true ->
  fmtG s digs p <> "" /\ all_bytes result_byte (fmtG s digs p) = true.
Proof.
  intros Hd. unfold fmtG.
  destruct (_ || _); [now apply fmtE_bytes|now apply fmtF_bytes].
Qed.

Lemma Z_to_string_nonempty (n : Z) : Z_to_string n <> "".
Proof.
  unfold Z_to_string, NilZero.string_of_uint.
  destruct (N.to_uint (Z.to_N n)) eqn:E; try discriminate.
Qed.

Lemma append_nonempty_r (a b : string) : b <> "" -> a +:+ b <> "".
Proof.
  intros Hb E. apply (f_equal len) in E. rewrite len_app in E.
  destruct b; [congruence|]. cbn [len String.length] in E. lia.
Qed.

(** What [Calculate] prints for a finite result is never empty and holds
    digits, signs, a point and an exponent mark only. *)
Lemma formatResult_bytes (r : float64) (s : string) :
  formatResult r = (s, None) -> s <> "" /\ all_bytes result_byte s = true.
Proof.
  unfold formatResult.
  destruct (IsInf r 0) eqn:Ei; [discriminate|].
  destruct (IsNaN r) eqn:En; [discriminate|].
  destruct (eqb r (of_Z (int64_of_float64 r))); intros [= <-].
  - destruct r as [sg|sg| |sg m e]; [|destruct sg; discriminate|discriminate|].
    + split; [now destruct sg|now destruct sg].
    + cbn [Sprintf_f0]. destruct (fraction_of m e) as [n d].
      split; [apply append_nonempty_r, Z_to_string_nonempty|].
      rewrite all_bytes_app, (digits_result _ (Z_to_string_digits _)).
      now destruct sg.
  - destruct r as [sg|sg| |sg m e]; [|destruct sg; discriminate|discriminate|];
      cbn [Sprintf_g6]; apply fmtG_bytes, rounded_digits_digits.
Qed.

End ResultFacts.

(** ** Reading a printed result back *)

Section ReadingDigits.

Local Open Scope Z_scope.





End ReadingDigits.

Section ReadingRuns.

Local Open Scope Z_scope.








End ReadingRuns.

Section DigitsBetween.

Local Open Scope Z_scope.




Variable digs : decimalSlice.






End DigitsBetween.

Section ReadingFormats.

Local Open Scope Z_scope.

Variable digs : decimalSlice.
Hypothesis Hd : all_bytes is_digit (digits digs) = true.
Hypothesis Hnd : 1 <= nd digs <= 6.













End ReadingFormats.

Section ReadingGeneral.

Local Open Scope Z_scope.

Variable digs : decimalSlice.
Hypothesis Hd : all_bytes is_digit (digits digs) = true.
Hypothesis Hnd : 1 <= nd digs <= 6.


End ReadingGeneral.

Section RoundingSpec.

Local Open Scope Z_scope.








End RoundingSpec.

Section PrintedValue.

Local Open Scope Z_scope.



End PrintedValue.

(** ** Validated texts *)

Section ValidatedFacts.

Context {go : Platform}.

Lemma validated_runes (expr : string) :
  validateExpression expr = None -> forallb validChar (runes expr) = true.
Proof.
  unfold validateExpression.
  destruct (_ <? _)%nat; [discriminate|].
  destruct (TrimSpace_is_empty expr) eqn:Eb; [discriminate|].
  rewrite (MatchString_nonblank expr Eb).
  destruct (forallb validChar (runes expr)); [reflexivity|discriminate].
Qed.

Lemma validChar_valid_step (d : rune * nat) :
  validChar (fst d) = true -> valid_step d = true.
Proof.
  unfold valid_step. destruct (N.eqb_spec (fst d) RuneError) as [->|]; [discriminate|].
  reflexivity.
Qed.

Lemma runes_valid (s : string) :
  forallb validChar (runes s) = true -> ValidString s = true.
Proof.
  unfold runes, ValidString. rewrite forallb_map_fst.
  intros H. rewrite forallb_forall in H. apply forallb_forall.
  intros d Hd. apply validChar_valid_step, H, Hd.
Qed.

Lemma class_bytes (n : nat) (s : string) :
  (len s <= n)%nat ->
  forallb validChar (runes s) = true -> all_bytes class_byte s = true.
Proof.
  revert s; induction n as [|n IH]; intros [|c0 t0] Hlen Hv; try reflexivity.
  { simpl in Hlen; lia. }
  rewrite runes_cons in Hv. cbn [forallb] in Hv.
  apply andb_true_iff in Hv as [Hd Hv].
  destruct (Decode_valid_shape c0 t0 (validChar_valid_step _ Hd))
    as (p & Hsz & Ht & Hp & Hnil & Hcons & _).
  replace (snd (DecodeRuneInString (String c0 t0)) - 1)%nat with (len p) in * by lia.
  assert (Hrest : all_bytes class_byte (slice_from (len p) t0) = true).
  { apply IH; [|exact Hv].
    pose proof (len_slice_from (len p) t0). simpl in Hlen. unfold len in *. lia. }
  cbn [all_bytes]. rewrite Ht, all_bytes_app, Hrest, andb_true_r.
  rewrite (all_bytes_impl high_byte class_byte p)
    by (auto; intros c Hc; unfold class_byte; rewrite Hc; apply orb_true_r).
  rewrite andb_true_r. unfold class_byte.
  destruct p as [|c1 p].
  - destruct (Hnil eq_refl) as [Hr _]. now rewrite <- Hr, Hd.
  - destruct Hcons as [Hc _]; [discriminate|].
    unfold high_byte. apply N.leb_le in Hc. rewrite Hc. apply orb_true_r.
Qed.

Lemma class_literal_plain (c : ascii) :
  class_byte c = true -> literal_byte c = true -> plain_byte c = true.
Proof.
  destruct c as [[] [] [] [] [] [] [] []]; try reflexivity; try discriminate.
Qed.

Lemma all_bytes_both (p q r : ascii -> bool) (s : string) :
  (forall c, p c = true -> q c = true -> r c = true) ->
  all_bytes p s = true -> all_bytes q s = true -> all_bytes r s = true.
Proof.
  intros H. induction s as [|c s IH]; [reflexivity|]. cbn [all_bytes].
  intros Hp Hq. apply andb_true_iff in Hp as [Hp1 Hp2].
  apply andb_true_iff in Hq as [Hq1 Hq2].
  now rewrite (H c Hp1 Hq1), (IH Hp2 Hq2).
Qed.

Lemma all_bytes_strip (p : ascii -> bool) (s : string) :
  all_bytes p s = true -> all_bytes p (without_spaces s) = true.
Proof.
  induction s as [|c s IH]; [reflexivity|]. cbn [all_bytes].
  intros H. apply andb_true_iff in H as [Hc Hs].
  rewrite ReplaceAll_space_cons. destruct (Ascii.eqb c " "); [auto|].
  cbn [all_bytes]. now rewrite Hc, IH.
Qed.

Lemma ParseFloat_literal (s : string) (a : float64) :
  ParseFloat s = Some a -> all_bytes literal_byte s = true.
Proof.
  unfold ParseFloat. destruct (all_bytes plain_byte s) eqn:Ep.
  - intros _. apply (all_bytes_impl plain_byte); [|exact Ep].
    intros c Hc. unfold literal_byte. now rewrite Hc.
  - destruct (all_bytes literal_byte s); [reflexivity|discriminate].
Qed.

Lemma Calculate_success (expr : string) :
  snd (Calculate expr) = None ->
  exists a op b f res,
    validateExpression expr = None
    /\ parseExpression expr = (a, op, b, None)
    /\ supportedOps !! op = Some f
    /\ f a b = (res, None)
    /\ Calculate expr = formatResult res.
Proof.
  destruct (Calculate_cases expr)
    as [(e' & Hv & ->) | [(_ & _ & ->) | (Hv & a & op & b & f & Ep & Hin & Hf & ->)]];
    try discriminate.
  destruct (f a b) as [res [e|]] eqn:Ef; [discriminate|].
  intros _. exists a, op, b, f, res. repeat split; auto.
Qed.

End ValidatedFacts.

(** ** Decoding backwards and trimming *)

Section BackwardFacts.

Lemma DecodeRune_width (s : string) :
  s <> "" -> (1 <= snd (DecodeRuneInString s) <= len s)%nat.
Proof.
  destruct s as [|c0 t0]; [congruence|intros _].
  unfold DecodeRuneInString.
  destruct (first (byteval c0)) as [| |sz lo hi] eqn:F;
    try (cbn [snd len String.length]; lia).
  apply first_multi in F as (_ & _ & Hsz).
  destruct (Nat.ltb_spec (len (String c0 t0)) sz) as [|Hlen];
    [cbn [snd len String.length]; lia|].
  repeat match goal with
         | |- context [match ?t with "" => _ | String _ _ => _ end] => destruct t
         | |- context [if ?c then _ else _] => destruct c
         end; cbn [snd len String.length] in *; lia.
Qed.

(** Decoding the first rune of a prefix either gives what decoding the
    whole text gives, or fails. *)
Lemma DecodeRune_prefix (i : nat) (u : string) :
  (1 <= i)%nat ->
  DecodeRuneInString (slice_to i u) = DecodeRuneInString u
  \/ DecodeRuneInString (slice_to i u) = (RuneError, 1%nat).
Proof.
  intros Hi. destruct u as [|c0 u]; [left; now destruct i|].
  destruct i as [|i]; [lia|]. cbn [slice_to].
  unfold DecodeRuneInString.
  destruct (first (byteval c0)) as [| |sz lo hi] eqn:F; auto.
  apply first_multi in F as (_ & _ & Hsz).
  assert (Hs : sz = 2%nat \/ sz = 3%nat \/ sz = 4%nat) by tauto. clear Hsz.
  destruct u as [|c1 [|c2 [|c3 u]]]; destruct i as [|[|[|i]]];
    cbn [slice_to len String.length];
    destruct Hs as [-> | [-> | ->]]; cbn [Nat.ltb Nat.leb]; auto;
    repeat match goal with
           | |- context [if ?c then _ else _] => destruct c; auto
           end.
Qed.

Lemma scanBack_le (s : string) (n : nat) (start lim : Z) :
  (scanBack s n start lim <= start)%Z.
Proof.
  revert start; induction n as [|n IH]; intros start; cbn [scanBack]; [lia|].
  destruct (start <? lim)%Z; [lia|].
  destruct (String.get (Z.to_nat start) s) as [c|]; [|lia].
  destruct (RuneStart (byteval c)); [lia|]. specialize (IH (start - 1)%Z). lia.
Qed.

Lemma slice_from_nonempty (i : nat) (s : string) :
  (i < len s)%nat -> slice_from i s <> "".
Proof.
  revert s; induction i as [|i IH]; intros [|c t] Hi; cbn in Hi; try lia;
    cbn [slice_from]; [discriminate|]. apply IH. unfold len. lia.
Qed.

Lemma get_last (s : string) (last : nat) :
  len s = S last -> exists c, String.get last s = Some c.
Proof.
  revert last; induction s as [|x s IH]; intros last Hl; [discriminate|].
  destruct last as [|last]; [now exists x|].
  cbn [String.get]. apply IH. cbn in Hl. unfold len. lia.
Qed.

(** What [DecodeLastRuneInString] returns on a text that is not empty: a
    width between 1 and the length, and, when the width is the whole
    length, the rune that decoding forwards gives, unless it fails. *)
Lemma DecodeLast_spec (v : string) :
  v <> "" ->
  (1 <= snd (DecodeLastRuneInString v) <= len v)%nat
  /\ (snd (DecodeLastRuneInString v) = len v ->
      fst (DecodeLastRuneInString v) = RuneError
      \/ fst (DecodeLastRuneInString v) = fst (DecodeRuneInString v)).
Proof.
  intros Hv. unfold DecodeLastRuneInString.
  destruct (len v) as [|last] eqn:El; [destruct v; [congruence|discriminate]|].
  destruct (get_last v last El) as [c Hc]. rewrite Hc.
  destruct (N.ltb_spec (byteval c) 128) as [Hlt|Hge].
  { cbn [fst snd]. split; [lia|]. intros H1.
    assert (last = 0%nat) by lia. subst last.
    destruct v as [|x [|y v]]; try discriminate.
    cbn in Hc. injection Hc as ->. right.
    unfold DecodeRuneInString, first.
    apply N.ltb_lt in Hlt. now rewrite Hlt. }
  set (start := Z.to_nat (Z.max (scanBack v 4 (Z.of_nat last - 1)
                                   (Z.max (Z.of_nat (S last) - 4) 0)) 0)).
  assert (Hstart : (start < S last)%nat).
  { pose proof (scanBack_le v 4 (Z.of_nat last - 1) (Z.max (Z.of_nat (S last) - 4) 0)).
    unfold start. lia. }
  pose proof (DecodeRune_width (slice_from start v)
                (slice_from_nonempty start v ltac:(lia))) as [Hw _].
  destruct (DecodeRuneInString (slice_from start v)) as [r size] eqn:Ed.
  cbn [snd] in Hw.
  destruct (Nat.eqb_spec (start + size) (S last)) as [E|E]; cbn [negb fst snd].
  - split; [lia|]. intros Hs. assert (start = 0%nat) as Hz by lia.
    rewrite Hz in Ed. right.
    assert (E0 : slice_from 0 v = v) by (now destruct v).
    rewrite E0 in Ed. now rewrite Ed.
  - split; [lia|]. intros _. now left.
Qed.

Lemma len_slice_to (i : nat) (s : string) :
  (i <= len s)%nat -> len (slice_to i s) = i.
Proof.
  revert s; induction i as [|i IH]; intros [|c t] Hi; cbn in *; try lia.
  unfold len in *. cbn. rewrite IH; lia.
Qed.

Lemma slice_to_nonempty' (i : nat) (s : string) :
  (1 <= i)%nat -> s <> "" -> slice_to i s <> "".
Proof. destruct i; [lia|]. destruct s; [congruence|discriminate]. Qed.

Lemma prefix_head_not_space (i : nat) (u : string) :
  (1 <= i)%nat -> IsSpace (fst (DecodeRuneInString u)) = false ->
  IsSpace (fst (DecodeRuneInString (slice_to i u))) = false.
Proof.
  intros Hi Hu. destruct (DecodeRune_prefix i u Hi) as [-> | ->];
    [exact Hu|reflexivity].
Qed.

Lemma lastIndexFunc_loop_found (u : string) (n i : nat) :
  u <> "" -> IsSpace (fst (DecodeRuneInString u)) = false ->
  (1 <= i <= len u)%nat -> (i <= n)%nat ->
  (0 <= lastIndexFunc_loop u IsSpace false n i < Z.of_nat i)%Z.
Proof.
  intros Hu H0. revert i; induction n as [|n IH]; intros i Hi Hn; [lia|].
  cbn [lastIndexFunc_loop].
  replace (i =? 0)%nat with false by (symmetry; apply Nat.eqb_neq; lia).
  pose proof (DecodeLast_spec (slice_to i u)
                (slice_to_nonempty' i u ltac:(lia) Hu)) as [Hw Hwhole].
  rewrite len_slice_to in Hw, Hwhole by lia.
  destruct (DecodeLastRuneInString (slice_to i u)) as [r size].
  cbn [fst snd] in *.
  destruct (IsSpace r) eqn:Er; cbn [Bool.eqb]; [|lia].
  destruct (Nat.eq_dec size i) as [E|E].
  - exfalso. pose proof (prefix_head_not_space i u ltac:(lia) H0) as Hp.
    destruct (Hwhole E) as [-> | ->]; [discriminate|congruence].
  - specialize (IH (i - size)%nat ltac:(lia) ltac:(lia)). lia.
Qed.

(** [TrimRightFunc] keeps the first rune of a text that begins with a
    rune that is not a space. *)
Lemma TrimRightFunc_keeps_head (u : string) :
  u <> "" -> IsSpace (fst (DecodeRuneInString u)) = false ->
  TrimRightFunc u IsSpace <> ""
  /\ IsSpace (fst (DecodeRuneInString (TrimRightFunc u IsSpace))) = false.
Proof.
  intros Hu H0. unfold TrimRightFunc, lastIndexFunc.
  assert (Hl : (1 <= len u)%nat) by (destruct u; [congruence|cbn; lia]).
  pose proof (lastIndexFunc_loop_found u (S (len u)) (len u) Hu H0
                ltac:(lia) ltac:(lia)) as Hi.
  set (i := lastIndexFunc_loop u IsSpace false (S (len u)) (len u)) in *.
  match goal with |- context [slice_to ?x u] => set (i' := x) end.
  assert (Hi' : (1 <= i')%nat).
  { unfold i'. destruct ((0 <=? i)%Z && _).
    - assert (Hlt : (Z.to_nat i < len u)%nat) by lia.
      pose proof (DecodeRune_width (slice_from (Z.to_nat i) u)
                    (slice_from_nonempty _ u Hlt)). lia.
    - lia. }
  split; [now apply slice_to_nonempty'|now apply prefix_head_not_space].
Qed.

End BackwardFacts.

Section TrimFacts.

Lemma len_slice_from_eq (k : nat) (s : string) :
  len (slice_from k s) = (len s - k)%nat.
Proof.
  revert s; induction k as [|k IH]; intros [|c t]; cbn; try lia.
  apply IH.
Qed.

(** [indexFunc(s, unicode.IsSpace, false)] finds the first rune that is not
    a space, if there is one. *)
Lemma indexFunc_from_spec (n : nat) (s : string) (i : nat) :
  (len s <= n)%nat ->
  (indexFunc_from (decode s) i IsSpace false = (-1)%Z
   /\ forallb IsSpace (runes s) = true)
  \/ exists j : nat,
      indexFunc_from (decode s) i IsSpace false = Z.of_nat (i + j)
      /\ (j < len s)%nat
      /\ IsSpace (fst (DecodeRuneInString (slice_from j s))) = false
      /\ forallb IsSpace (runes s) = false.
Proof.
  revert s i; induction n as [|n IH]; intros [|c t] i Hlen;
    try (left; split; reflexivity); [cbn in Hlen; lia|].
  rewrite runes_cons, decode_cons.
  pose proof (DecodeRune_width (String c t) ltac:(discriminate)) as Hw.
  destruct (DecodeRuneInString (String c t)) as [r w] eqn:Ed.
  cbn [fst snd indexFunc_from forallb] in *.
  destruct (IsSpace r) eqn:Er; cbn [Bool.eqb andb].
  - assert (Hrest : (len (slice_from (w - 1) t) <= n)%nat).
    { rewrite len_slice_from_eq. cbn in Hlen. unfold len. lia. }
    destruct (IH (slice_from (w - 1) t) (i + w)%nat Hrest)
      as [[H1 H2] | (j & H1 & H2 & H3 & H4)].
    + left. split; assumption.
    + right. exists (w + j)%nat. rewrite H1. split; [f_equal; lia|].
      rewrite len_slice_from_eq in H2. cbn [len String.length] in *.
      split; [unfold len in *; lia|]. split; [|exact H4].
      replace (w + j)%nat with (S (w - 1 + j)) by lia. cbn [slice_from].
      now rewrite slice_from_add.
  - right. exists 0%nat. rewrite Nat.add_0_r. cbn [slice_from len String.length].
    rewrite Ed. repeat split; auto. lia.
Qed.

Lemma slice_to_nil (i : nat) : slice_to i "" = "".
Proof. now destruct i. Qed.

Lemma TrimFunc_spec (s : string) :
  (TrimFunc s IsSpace = "" /\ forallb IsSpace (runes s) = true)
  \/ (TrimFunc s IsSpace <> ""
      /\ IsSpace (fst (DecodeRuneInString (TrimFunc s IsSpace))) = false
      /\ forallb IsSpace (runes s) = false).
Proof.
  unfold TrimFunc, TrimLeftFunc, indexFunc.
  destruct (indexFunc_from_spec (len s) s 0 (le_n _))
    as [[-> H2] | (j & -> & H2 & H3 & H4)].
  - left. split; [|exact H2]. cbn [Z.eqb Pos.eqb]. unfold TrimRightFunc.
    apply slice_to_nil.
  - right. cbn [Nat.add].
    replace (Z.of_nat j =? -1)%Z with false by (symmetry; apply Z.eqb_neq; lia).
    rewrite Nat2Z.id.
    destruct (TrimRightFunc_keeps_head (slice_from j s)
                (slice_from_nonempty j s H2) H3) as [Hn Hh].
    repeat split; assumption.
Qed.

Lemma ascii_space (c : ascii) :
  (byteval c < 128)%N -> IsSpace (byteval c) = asciiSpace c.
Proof.
  destruct c as [[] [] [] [] [] [] [] []]; intros H; try reflexivity;
    vm_compute in H; discriminate.
Qed.

Lemma DecodeRune_ascii (c : ascii) (t : string) :
  (byteval c < 128)%N -> DecodeRuneInString (String c t) = (byteval c, 1%nat).
Proof.
  intros Hc. unfold DecodeRuneInString, first.
  apply N.ltb_lt in Hc. now rewrite Hc.
Qed.

Lemma TrimSpace_stop_spec (c : ascii) (t : string) (stop : nat) :
  (byteval c < 128)%N -> asciiSpace c = false ->
  (1 <= stop <= len (String c t))%nat ->
  TrimSpace_stop (String c t) stop <> ""
  /\ IsSpace (fst (DecodeRuneInString (TrimSpace_stop (String c t) stop))) = false.
Proof.
  intros Hc Hs. 
  assert (Hhead : forall x, IsSpace (fst (DecodeRuneInString (String c x))) = false).
  { intros x. rewrite (DecodeRune_ascii c x Hc). cbn [fst].
    now rewrite (ascii_space c Hc). }
  induction stop as [|k IH]; intros Hk; [lia|].
  cbn [TrimSpace_stop].
  destruct (get_some (String c t) k ltac:(lia)) as [x Hx]. rewrite Hx.
  destruct (128 <=? byteval x)%N eqn:Ex.
  - cbn [slice_to]. apply TrimRightFunc_keeps_head; [discriminate|apply Hhead].
  - destruct (asciiSpace x) eqn:Esx.
    + destruct k as [|k]; [cbn in Hx; congruence|]. apply IH. lia.
    + cbn [slice_to]. split; [discriminate|apply Hhead].
Qed.

(** [strings.TrimSpace] returns the empty string when every rune of the
    text is a space, and a text that begins with a rune that is not a space
    otherwise. *)
Lemma TrimSpace_spec (s : string) :
  (TrimSpace s = "" /\ TrimSpace_is_empty s = true)
  \/ (TrimSpace s <> ""
      /\ IsSpace (fst (DecodeRuneInString (TrimSpace s))) = false
      /\ TrimSpace_is_empty s = false).
Proof.
  unfold TrimSpace_is_empty.
  induction s as [|c t IH]; [left; split; reflexivity|].
  cbn [TrimSpace].
  destruct (128 <=? byteval c)%N eqn:Ec; [apply TrimFunc_spec|].
  apply N.leb_gt in Ec.
  unfold runes in *. rewrite (decode_ascii c t Ec). cbn [map forallb fst].
  rewrite (ascii_space c Ec).
  destruct (asciiSpace c) eqn:Es; cbn [andb]; [exact IH|].
  right. destruct (TrimSpace_stop_spec c t (len (String c t)) Ec Es) as [H1 H2];
    [cbn; lia|]. repeat split; assumption.
Qed.

End TrimFacts.

(** ** The handler *)

Section HandlerFacts.

Context {go : Platform}.

Variable texts : ReplyTexts.
Variable Send : Outgoing.MessageConfig -> option string.

Lemma len_slice_to_le (i : nat) (s : string) : (len (slice_to i s) <= len s)%nat.
Proof.
  revert s; induction i as [|i IH]; intros [|c t]; cbn; try lia.
  specialize (IH t). unfold len in IH. lia.
Qed.

Lemma len_TrimRightFunc (s : string) (f : rune -> bool) :
  (len (TrimRightFunc s f) <= len s)%nat.
Proof. apply len_slice_to_le. Qed.

Lemma len_TrimFunc (s : string) (f : rune -> bool) :
  (len (TrimFunc s f) <= len s)%nat.
Proof.
  unfold TrimFunc. etransitivity; [apply len_TrimRightFunc|].
  unfold TrimLeftFunc. destruct (_ =? _)%Z; [cbn; lia|apply len_slice_from].
Qed.

Lemma len_TrimSpace_stop (t : string) (stop : nat) :
  (len (TrimSpace_stop t stop) <= len t)%nat.
Proof.
  induction stop as [|k IH]; cbn [TrimSpace_stop]; [cbn; lia|].
  destruct (String.get k t) as [c|]; [|cbn; lia].
  destruct (128 <=? byteval c)%N.
  - etransitivity; [apply len_TrimRightFunc|apply len_slice_to_le].
  - destruct (asciiSpace c); [exact IH|apply len_slice_to_le].
Qed.

(** [strings.TrimSpace] returns a text that is not longer. *)
Lemma len_TrimSpace (s : string) : (len (TrimSpace s) <= len s)%nat.
Proof.
  induction s as [|c t IH]; [reflexivity|]. cbn [TrimSpace].
  destruct (128 <=? byteval c)%N; [apply len_TrimFunc|].
  destruct (asciiSpace c); [cbn [len String.length] in *; unfold len in *; lia|].
  apply len_TrimSpace_stop.
Qed.

(** An error of the validator comes from the validator. *)
Lemma Calculate_validation_error (expr : string) (e : error) :
  e = errTooLong \/ e = errEmpty \/ e = errInvalidChars ->
  snd (Calculate expr) = Some e -> validateExpression expr = Some e.
Proof.
  intros He.
  destruct (Calculate_cases expr)
    as [(e' & Hv & ->) | [(_ & _ & ->) | (_ & a & op & b & f & Ep & Hin & Hf & ->)]].
  - now intros [= ->].
  - intros [= <-]. destruct He as [? | [? | ?]]; discriminate.
  - destruct (table_total op Hin) as (f' & Hf' & Hcases).
    rewrite Hf in Hf'. injection Hf' as <-.
    destruct (Hcases a b) as [[r ->] | [-> | ->]].
    + intros H. apply formatResult_error in H as [_ [-> | ->]];
        destruct He as [? | [? | ?]]; discriminate.
    + intros [= <-]. destruct He as [? | [? | ?]]; discriminate.
    + intros [= <-]. destruct He as [? | [? | ?]]; discriminate.
Qed.

Lemma Calculate_of_validation (expr : string) (e : error) :
  validateExpression expr = Some e -> Calculate expr = ("", Some e).
Proof. intros H. unfold Calculate. now rewrite H. Qed.

Lemma head_not_space_not_blank (s : string) :
  s <> "" -> IsSpace (fst (DecodeRuneInString s)) = false ->
  TrimSpace_is_empty s = false.
Proof.
  intros Hs Hh. destruct s as [|c t]; [congruence|].
  unfold TrimSpace_is_empty. rewrite runes_cons. cbn [forallb]. now rewrite Hh.
Qed.

(** The text that [handleMessage] evaluates is rejected as empty exactly
    when the message holds white space only. *)
Lemma trimmed_empty_error (text : string) :
  snd (Calculate (TrimSpace text)) = Some errEmpty
  <-> TrimSpace_is_empty text = true.
Proof.
  destruct (TrimSpace_spec text) as [[E Hb] | (Hn & Hh & Hb)].
  - rewrite E, Hb. split; [reflexivity|]. intros _. reflexivity.
  - rewrite Hb. split; [|discriminate]. intros H.
    apply Calculate_validation_error in H; [|tauto].
    unfold validateExpression in H.
    rewrite (head_not_space_not_blank _ Hn Hh) in H.
    destruct (_ <? _)%nat; [discriminate|].
    destruct (negb _); discriminate.
Qed.

End HandlerFacts.

Section MoreFacts.

Context {go : Platform}.

Lemma Calculate_error_supported (expr : string) (e : error) :
  snd (Calculate expr) = Some e -> forall op, e <> errUnsupported op.
Proof.
  intros He op ->.
  destruct (Calculate_cases expr)
    as [(e' & Hv & Hc) | [(_ & _ & Hc) | (_ & a & o & b & f & Ep & Hin & Hf & Hc)]];
    rewrite Hc in He.
  - injection He as ->. unfold validateExpression in Hv.
    destruct (_ <? _)%nat; [discriminate|].
    destruct (TrimSpace_is_empty expr); [discriminate|].
    destruct (negb _); discriminate.
  - discriminate.
  - destruct (table_total o Hin) as (f' & Hf' & Hcases).
    rewrite Hf in Hf'. injection Hf' as <-.
    destruct (Hcases a b) as [[r Hr] | [Hr | Hr]]; rewrite Hr in He; try discriminate.
    apply formatResult_error in He as [_ [? | ?]]; discriminate.
Qed.

End MoreFacts.

(** * The claims on division and on formatting *)

Section DivisionAndFormatting.

Context {go : Platform}.

(** C5.  When a validated expression tokenizes with operator [/], [÷] or
    [%] and a right operand equal to zero, [Calculate] fails with
    DivisionByZero and returns the empty string; with a non-zero right
    operand it formats the quotient [a / b], respectively the remainder
    [math.Mod(a, b)].  The quotient is the number divided: for integers
    below 2^53 in magnitude, [q] not zero and dividing [p], the float64
    quotient is the float of [p / q] and [Calculate] prints its numeral
    (a zero dividend with a negative divisor apart, which prints ["-0"]);
    the remainder is that of the division truncated towards zero, with the
    sign of the dividend; a zero divisor is rejected whatever the dividend;
    and quotients that are not exact are rounded, as the examples show. *)
Theorem division_by_zero_rejected :
  (forall (expr : string) (a : float64) (op : string) (b : float64),
      validateExpression expr = None ->
      parseExpression expr = (a, op, b, None) ->
      In op ["/"; "÷"; "%"] ->
      (eqb b zero = true ->
       fst (Calculate expr) = ""
       /\ option_map kind (snd (Calculate expr)) = Some DivisionByZero)
      /\ (eqb b zero = false ->
          Calculate expr
          = formatResult (if String.eqb op "%" then Mod a b else quo a b)))
  /\ (forall p q : Z,
         (Z.abs p < 2 ^ 53)%Z -> (Z.abs q < 2 ^ 53)%Z -> q <> 0%Z ->
         (Z.rem p q = 0%Z -> (p = 0 -> 0 < q)%Z ->
          quo (of_Z p) (of_Z q) = of_Z (p / q)
          /\ Calculate (numeral p +:+ "/" +:+ numeral q) = (numeral (p / q), None)
          /\ Calculate (numeral p +:+ "÷" +:+ numeral q) = (numeral (p / q), None))
         /\ Mod (of_Z p) (of_Z q)
            = (if (Z.rem p q =? 0)%Z then S754_zero (p <? 0)%Z
               else of_Z (Z.rem p q))
         /\ Calculate (numeral p +:+ "%" +:+ numeral q)
            = (if (Z.rem p q =? 0)%Z
               then (if (p <? 0)%Z then "-0" else "0")
               else numeral (Z.rem p q), None))
  /\ (forall p : Z,
         (Z.abs p < 2 ^ 53)%Z ->
         Calculate (numeral p +:+ "/" +:+ "0") = ("", Some errDivZero)
         /\ Calculate (numeral p +:+ "÷" +:+ "0") = ("", Some errDivZero)
         /\ Calculate (numeral p +:+ "%" +:+ "0") = ("", Some errModZero))
  /\ Calculate "1/3" = ("0.333333", None)
  /\ Calculate "2÷3" = ("0.666667", None)
  /\ Calculate "-7/2" = ("-3.5", None)
  /\ Calculate "1/-8" = ("-0.125", None)
  /\ Calculate "7.5%2" = ("1.5", None)
  /\ Calculate "-7.5%2" = ("-1.5", None).
Proof.
  split; [|split; [|split; [|repeat split; vm_compute; reflexivity]]].
  - intros expr a op b Hv Ep Hin. rewrite (Calculate_step _ _ _ _ _ Hv Ep).
    simpl in Hin. destruct Hin as [<- | [<- | [<- | []]]].
    + rewrite lookup_quo. split; intros ->; auto.
    + rewrite lookup_obelus. split; intros ->; auto.
    + rewrite lookup_rem. split; intros ->; auto.
  - intros p q Hp Hq Hq0. split; [|split].
    + intros Hdiv Hz.
      assert (Hd : (Z.abs (p / q) <= Z.abs p)%Z).
      { pose proof (Z.quot_rem' p q) as Hqr. rewrite Hdiv, Z.add_0_r in Hqr.
        rewrite Hqr at 1. rewrite Z.mul_comm, Z.div_mul by exact Hq0. nia. }
      assert (Hquo : quo (of_Z p) (of_Z q) = of_Z (p / q))
        by (apply quo_of_Z; assumption).
      split; [exact Hquo|].
      split.
      * rewrite (Calculate_numerals p q "/" _ Hp Hq) by (reflexivity || (simpl; tauto)).
        cbv beta. rewrite of_Z_not_zero, Hquo, formatResult_of_Z by (auto; lia).
        reflexivity.
      * rewrite (Calculate_numerals p q "÷" _ Hp Hq) by (reflexivity || (simpl; tauto)).
        cbv beta. rewrite of_Z_not_zero, Hquo, formatResult_of_Z by (auto; lia).
        reflexivity.
    + now apply Mod_of_Z.
    + pose proof (Z.rem_bound_abs p q Hq0) as Hm.
      rewrite (Calculate_numerals p q "%" _ Hp Hq) by (reflexivity || (simpl; tauto)).
      cbv beta. rewrite of_Z_not_zero, Mod_of_Z by assumption.
      destruct (Z.eqb_spec (Z.rem p q) 0) as [E|E].
      * now destruct (p <? 0)%Z.
      * now rewrite formatResult_of_Z by lia.
  - intros p Hp.
    assert (H0 : (Z.abs 0 < 2 ^ 53)%Z) by (vm_compute; reflexivity).
    change "0" with (numeral 0).
    split; [|split].
    + now rewrite (Calculate_numerals p 0 "/" _ Hp H0) by (reflexivity || (simpl; tauto)).
    + now rewrite (Calculate_numerals p 0 "÷" _ Hp H0) by (reflexivity || (simpl; tauto)).
    + now rewrite (Calculate_numerals p 0 "%" _ Hp H0) by (reflexivity || (simpl; tauto)).
Qed.


End DivisionAndFormatting.

(** * Further properties: the theorems *)

Section Extras.

Context {go : Platform}.

(** X1.  A text that [validateExpression] accepts is well-formed UTF-8, is
    not empty, has at most 100 bytes, and each of its bytes is an ASCII
    character of the validator's class or a byte of a multi-byte
    sequence. *)
Theorem validated_text_is_well_formed (expr : string) :
  validateExpression expr = None ->
  ValidString expr = true
  /\ all_bytes class_byte expr = true
  /\ expr <> ""
  /\ (len expr <= maxExpressionLength)%nat.
Proof.
  intros Hv. pose proof (validated_runes expr Hv) as Hr.
  split; [now apply runes_valid|].
  split; [now apply (class_bytes (len expr))|].
  split; [intros ->; discriminate|].
  unfold validateExpression in Hv.
  destruct (Nat.ltb_spec maxExpressionLength (len expr)); [discriminate|assumption].
Qed.

(** X2.  [strings.TrimSpace(s)] is the empty string exactly when every
    rune of [s] is a Unicode space; otherwise it begins with a rune that is
    not a space; and it is never longer than [s]. *)
Theorem trim_space_drops_blank_text (s : string) :
  String.eqb (TrimSpace s) "" = TrimSpace_is_empty s
  /\ (TrimSpace_is_empty s = false ->
      IsSpace (fst (DecodeRuneInString (TrimSpace s))) = false)
  /\ (len (TrimSpace s) <= len s)%nat.
Proof.
  split; [|split; [|apply len_TrimSpace]].
  - destruct (TrimSpace_spec s) as [[-> ->] | (Hn & _ & ->)]; [reflexivity|].
    now apply String.eqb_neq.
  - destruct (TrimSpace_spec s) as [[_ ->] | (_ & Hh & _)]; [discriminate|auto].
Qed.

(** X3.  An expression made of a plain decimal, an operator and a plain
    decimal, without any space, is tokenized as written, whichever of the
    nine operators it is; before [+] or [-] the left operand must end in a
    digit.  When the text has at most 100 bytes, [Calculate] applies the table
    entry of the operator to the two numbers and formats what it returns. *)
Theorem plain_expression_is_evaluated
        (l op r : string) (a b : float64) (f : opFunc) :
  all_bytes plain_byte l = true -> all_bytes plain_byte r = true ->
  ParseFloat l = Some a -> ParseFloat r = Some b ->
  In op operators -> supportedOps !! op = Some f ->
  (op = "+" \/ op = "-" -> ends_in_digit l = true) ->
  parseExpression (l +:+ op +:+ r) = (a, op, b, None)
  /\ ((len (l +:+ op +:+ r) <= maxExpressionLength)%nat ->
      Calculate (l +:+ op +:+ r)
      = match f a b with
        | (_, Some e) => ("", Some e)
        | (res, None) => formatResult res
        end).
Proof.
  intros Hl Hr Ha Hb Hin Hf Hend.
  assert (Hend' : op = "+" \/ op = "-" ->
                  exists q, String.get (len l - 1) l = Some q /\ is_digit q = true).
  { intros Hop. specialize (Hend Hop). unfold ends_in_digit in Hend.
    destruct (String.get (len l - 1) l) as [q|]; [|discriminate]. now exists q. }
  split; [now apply parse_complete|].
  intros Hlen. now apply Calculate_complete.
Qed.

(** X4.  When a validated text tokenizes, both operands consist of digits,
    signs and points only: an operand written with an exponent, in
    hexadecimal, or as [inf] or [nan] never reaches [strconv.ParseFloat]
    through [Calculate]. *)
Theorem accepted_operands_are_plain_decimals
        (expr : string) (a : float64) (op : string) (b : float64) :
  validateExpression expr = None ->
  parseExpression expr = (a, op, b, None) ->
  exists l r : string,
    without_spaces expr = l +:+ op +:+ r
    /\ In op operators
    /\ all_bytes plain_byte l = true /\ all_bytes plain_byte r = true
    /\ ParseFloat l = Some a /\ ParseFloat r = Some b.
Proof.
  intros Hv Hp. unfold parseExpression in Hp.
  apply scanOperators_found in Hp as [Hin (l & r & He & _ & _ & Hl & Hr & _)].
  pose proof (class_bytes (len expr) expr (le_n _) (validated_runes expr Hv)) as Hc.
  apply all_bytes_strip in Hc. rewrite He, !all_bytes_app in Hc.
  apply andb_true_iff in Hc as [Hcl Hc]. apply andb_true_iff in Hc as [_ Hcr].
  exists l, r. repeat split; auto.
  - apply (all_bytes_both class_byte literal_byte);
      eauto using class_literal_plain, ParseFloat_literal.
  - apply (all_bytes_both class_byte literal_byte);
      eauto using class_literal_plain, ParseFloat_literal.
Qed.

(** X5.  The operators come in synonyms: between two plain decimals, [×]
    gives what [*] gives, [÷] what [/] gives, and [**] what [^] gives. *)
Theorem operator_synonyms (l r : string) (a b : float64) :
  all_bytes plain_byte l = true -> all_bytes plain_byte r = true ->
  ParseFloat l = Some a -> ParseFloat r = Some b ->
  (len l + len r + 2 <= maxExpressionLength)%nat ->
  Calculate (l +:+ "×" +:+ r) = Calculate (l +:+ "*" +:+ r)
  /\ Calculate (l +:+ "÷" +:+ r) = Calculate (l +:+ "/" +:+ r)
  /\ Calculate (l +:+ "**" +:+ r) = Calculate (l +:+ "^" +:+ r).
Proof.
  intros Hl Hr Ha Hb Hlen.
  assert (Hno : forall op, In op ["×"; "*"; "÷"; "/"; "**"; "^"] ->
                           In op operators
                           /\ (op = "+" \/ op = "-" ->
                               exists q, String.get (len l - 1) l = Some q
                                         /\ is_digit q = true)
                           /\ (len (l +:+ op +:+ r) <= maxExpressionLength)%nat).
  { intros op Hop. simpl in Hop.
    repeat (destruct Hop as [<- | Hop]); try contradiction;
      (split; [simpl; tauto|]);
      (split; [intros [? | ?]; discriminate|]);
      rewrite !len_app; cbn [len String.length]; lia. }
  repeat split.
  - destruct (Hno "×") as (H1 & H2 & H3); [simpl; tauto|].
    destruct (Hno "*") as (H4 & H5 & H6); [simpl; tauto|].
    rewrite (Calculate_complete l "×" r a b _ Hl Hr Ha Hb lookup_times H1 H2 H3).
    now rewrite (Calculate_complete l "*" r a b _ Hl Hr Ha Hb lookup_mul H4 H5 H6).
  - destruct (Hno "÷") as (H1 & H2 & H3); [simpl; tauto|].
    destruct (Hno "/") as (H4 & H5 & H6); [simpl; tauto|].
    rewrite (Calculate_complete l "÷" r a b _ Hl Hr Ha Hb lookup_obelus H1 H2 H3).
    now rewrite (Calculate_complete l "/" r a b _ Hl Hr Ha Hb lookup_quo H4 H5 H6).
  - destruct (Hno "**") as (H1 & H2 & H3); [simpl; tauto|].
    destruct (Hno "^") as (H4 & H5 & H6); [simpl; tauto|].
    rewrite (Calculate_complete l "**" r a b _ Hl Hr Ha Hb lookup_starstar H1 H2 H3).
    now rewrite (Calculate_complete l "^" r a b _ Hl Hr Ha Hb lookup_caret H4 H5 H6).
Qed.

(** X6.  The keys of the operation table are exactly the nine operators
    that [parseExpression] looks for: no operator lacks an entry and no
    entry is out of the tokenizer's reach. *)
Theorem table_keys_are_the_operators (op : string) :
  is_Some (supportedOps !! op) <-> In op operators.
Proof.
  split.
  - intros [f Hf]. unfold supportedOps in Hf.
    repeat (apply lookup_insert_Some in Hf as [[<- _] | [_ Hf]]; [simpl; tauto|]).
    apply lookup_singleton_Some in Hf as [<- _]. simpl; tauto.
  - intros Hin. destruct (table_total op Hin) as (f & Hf & _). now exists f.
Qed.

(** X7.  A result that [Calculate] returns without error is never the
    empty string, and consists of digits, signs, a point and the exponent
    mark [e] only. *)
Theorem result_is_a_numeral (expr : string) :
  snd (Calculate expr) = None ->
  fst (Calculate expr) <> ""
  /\ all_bytes result_byte (fst (Calculate expr)) = true.
Proof.
  intros Hs.
  destruct (Calculate_success expr Hs) as (a & op & b & f & res & _ & _ & _ & _ & Hc).
  rewrite Hc in *. apply (formatResult_bytes res).
  destruct (formatResult res) as [s [e|]]; [discriminate|reflexivity].
Qed.

(** X8.  Sums and differences of integers are exact: for integers below
    2^53 in magnitude, written as decimal numerals, [Calculate] on [p+q] and on
    [p-q] returns the numeral of the sum, respectively of the difference, when
    that is below 2^53 in magnitude too. *)
Theorem integer_sum_and_difference (p q : Z) :
  (Z.abs p < 2 ^ 53)%Z -> (Z.abs q < 2 ^ 53)%Z ->
  ((Z.abs (p + q) < 2 ^ 53)%Z ->
   Calculate (numeral p +:+ "+" +:+ numeral q) = (numeral (p + q), None))
  /\ ((Z.abs (p - q) < 2 ^ 53)%Z ->
      Calculate (numeral p +:+ "-" +:+ numeral q) = (numeral (p - q), None)).
Proof.
  intros Hp Hq. split; intros Hpq.
  - rewrite (Calculate_numerals p q "+" _ Hp Hq) by (reflexivity || (simpl; tauto)).
    cbv beta. now rewrite add_of_Z, formatResult_of_Z.
  - rewrite (Calculate_numerals p q "-" _ Hp Hq) by (reflexivity || (simpl; tauto)).
    cbv beta. now rewrite sub_of_Z, formatResult_of_Z.
Qed.

(** X9.  Products of integers are exact: for integers below 2^53 in
    magnitude whose product is below 2^53 in magnitude, [Calculate] on [p*q]
    and on [p×q] returns the numeral of the product, provided a zero factor
    does not meet a negative one. *)
Theorem integer_product (p q : Z) :
  (Z.abs p < 2 ^ 53)%Z -> (Z.abs q < 2 ^ 53)%Z -> (Z.abs (p * q) < 2 ^ 53)%Z ->
  (p = 0 -> 0 <= q)%Z -> (q = 0 -> 0 <= p)%Z ->
  Calculate (numeral p +:+ "*" +:+ numeral q) = (numeral (p * q), None)
  /\ Calculate (numeral p +:+ "×" +:+ numeral q) = (numeral (p * q), None).
Proof.
  intros Hp Hq Hpq Hzp Hzq.
  assert (Hr : formatResult (mul (of_Z p) (of_Z q)) = (numeral (p * q), None))
    by (now rewrite mul_of_Z, formatResult_of_Z).
  split.
  - rewrite (Calculate_numerals p q "*" _ Hp Hq) by (reflexivity || (simpl; tauto)).
    exact Hr.
  - rewrite (Calculate_numerals p q "×" _ Hp Hq) by (reflexivity || (simpl; tauto)).
    exact Hr.
Qed.

(** X10.  A division of integers that leaves no remainder is exact: for
    integers below 2^53 in magnitude, [q] not zero and dividing [p],
    [Calculate] on [p/q] and on [p÷q] returns the numeral of the quotient,
    provided a zero dividend does not meet a negative divisor. *)
Theorem integer_quotient (p q : Z) :
  (Z.abs p < 2 ^ 53)%Z -> (Z.abs q < 2 ^ 53)%Z -> q <> 0%Z ->
  Z.rem p q = 0%Z -> (p = 0 -> 0 < q)%Z ->
  Calculate (numeral p +:+ "/" +:+ numeral q) = (numeral (p / q), None)
  /\ Calculate (numeral p +:+ "÷" +:+ numeral q) = (numeral (p / q), None).
Proof.
  intros Hp Hq Hq0 Hdiv Hz.
  assert (Hd : (Z.abs (p / q) <= Z.abs p)%Z).
  { pose proof (Z.quot_rem' p q) as Hqr. rewrite Hdiv, Z.add_0_r in Hqr.
    rewrite Hqr at 1. rewrite Z.mul_comm, Z.div_mul by exact Hq0. nia. }
  assert (Hr : formatResult (quo (of_Z p) (of_Z q)) = (numeral (p / q), None)).
  { rewrite quo_of_Z, formatResult_of_Z by (auto; lia). reflexivity. }
  split.
  - rewrite (Calculate_numerals p q "/" _ Hp Hq) by (reflexivity || (simpl; tauto)).
    cbv beta. now rewrite of_Z_not_zero.
  - rewrite (Calculate_numerals p q "÷" _ Hp Hq) by (reflexivity || (simpl; tauto)).
    cbv beta. now rewrite of_Z_not_zero.
Qed.

(** X11.  The remainder has the sign of the dividend: for integers below
    2^53 in magnitude and [q] not zero, [Calculate] on [p%q] returns the
    numeral of the remainder of the division truncated towards zero; a zero
    remainder is printed ["0"] for a dividend that is not negative and
    ["-0"] for a negative one. *)
Theorem integer_remainder (p q : Z) :
  (Z.abs p < 2 ^ 53)%Z -> (Z.abs q < 2 ^ 53)%Z -> q <> 0%Z ->
  Calculate (numeral p +:+ "%" +:+ numeral q)
  = (if (Z.rem p q =? 0)%Z
     then (if (p <? 0)%Z then "-0" else "0")
     else numeral (Z.rem p q), None).
Proof.
  intros Hp Hq Hq0.
  pose proof (Z.rem_bound_abs p q Hq0) as Hm.
  rewrite (Calculate_numerals p q "%" _ Hp Hq) by (reflexivity || (simpl; tauto)).
  cbv beta. rewrite of_Z_not_zero, Mod_of_Z by assumption.
  destruct (Z.eqb_spec (Z.rem p q) 0) as [E|E].
  - now destruct (p <? 0)%Z.
  - now rewrite formatResult_of_Z by lia.
Qed.

(** X12.  The special cases of [math.Pow] on integers, for [^] and for
    [**]: any integer to the power 0 is 1, also 0; any integer to the power
    1 is itself; 1 to any integer power is 1; and 0 to a negative power is
    infinite, which [Calculate] reports as a result too large. *)
Theorem integer_power_special_cases (p q : Z) (op : string) :
  (Z.abs p < 2 ^ 53)%Z -> (Z.abs q < 2 ^ 53)%Z -> op = "^" \/ op = "**" ->
  Calculate (numeral p +:+ op +:+ "0") = ("1", None)
  /\ Calculate (numeral p +:+ op +:+ "1") = (numeral p, None)
  /\ Calculate ("1" +:+ op +:+ numeral q) = ("1", None)
  /\ ((q < 0)%Z -> Calculate ("0" +:+ op +:+ numeral q) = ("", Some errTooLarge)).
Proof.
  intros Hp Hq Hop.
  assert (H0 : (Z.abs 0 < 2 ^ 53)%Z) by (vm_compute; reflexivity).
  assert (H1 : (Z.abs 1 < 2 ^ 53)%Z) by (vm_compute; reflexivity).
  assert (Hin : In op operators) by (destruct Hop as [-> | ->]; simpl; tauto).
  assert (Hf : supportedOps !! op = Some (fun a b => (Pow a b, None)))
    by (destruct Hop as [-> | ->]; reflexivity).
  change "0" with (numeral 0). change "1" with (numeral 1).
  rewrite (Calculate_numerals p 0 op _ Hp H0 Hin Hf).
  rewrite (Calculate_numerals p 1 op _ Hp H1 Hin Hf).
  rewrite (Calculate_numerals 1 q op _ H1 Hq Hin Hf).
  rewrite Pow_exponent_zero, Pow_base_one, Pow_exponent_one by exact Hp.
  rewrite !formatResult_of_Z by assumption.
  repeat split.
  intros Hneg. rewrite (Calculate_numerals 0 q op _ H0 Hq Hin Hf).
  now rewrite Pow_zero_negative.
Qed.

End Extras.

Section HandlerExtras.

Context {go : Platform}.

Variable texts : ReplyTexts.
Variable Send : Outgoing.MessageConfig -> option string.

(** X13.  The text that [handleMessage] hands to [Calculate] is rejected as
    empty exactly when the message consists of white space only; such a
    message, whatever its length, is answered in its chat, as a reply to it,
    with the empty-expression error. *)
Theorem handler_rejects_blank_text (text : string) :
  (snd (Calculate (TrimSpace text)) = Some errEmpty
   <-> TrimSpace_is_empty text = true)
  /\ (TrimSpace_is_empty text = true ->
      replyTo texts (TrimSpace text)
      = errorPrefix texts +:+ Error errEmpty +:+ errorSuffix texts)
  /\ (forall (m : Incoming.Message) (chat : Chat) (w : World),
         Incoming.Text m = text -> text <> "" ->
         TrimSpace_is_empty text = true ->
         Incoming.Chat m = Some chat ->
         exists w' : World,
           handleMessage texts Send (Some m) w = Returned w'
           /\ sent w'
              = (sent w
                 ++ [{| Outgoing.ChatID := ID chat;
                        Outgoing.ReplyToMessageID := Incoming.MessageID m;
                        Outgoing.Text := errorPrefix texts +:+ Error errEmpty
                                         +:+ errorSuffix texts |}])%list).
Proof.
  assert (Hreply : TrimSpace_is_empty text = true ->
                   replyTo texts (TrimSpace text)
                   = errorPrefix texts +:+ Error errEmpty +:+ errorSuffix texts).
  { intros Hb. destruct (TrimSpace_spec text) as [[-> _] | (_ & _ & Hb')];
      [reflexivity|congruence]. }
  split; [apply trimmed_empty_error|]. split; [exact Hreply|].
  intros m chat w Ht Hne Hb Hc. unfold handleMessage.
  rewrite Ht, Hc, (Hreply Hb). apply String.eqb_neq in Hne. rewrite Hne.
  destruct (Send _); eexists; split; reflexivity.
Qed.

(** X14.  [handleMessage] does nothing for a nil message or an empty text.
    For any other message it hands exactly one message to [Send], addressed
    to the chat of the incoming message and marked as a reply to it; its text
    is the start text, the help text, an error line or a result line that
    carries a non-empty numeral.  When [Send] fails on that message, and only
    then, one line is added to the log: the failure text followed by the
    error.  The call panics only on a message without a chat. *)
Theorem handler_replies_once (message : option Incoming.Message) (w : World) :
  match handleMessage texts Send message w with
  | Returned w' =>
      match message with
      | None => w' = w
      | Some m =>
          if String.eqb (Incoming.Text m) "" then w' = w
          else
            exists (chat : Chat) (reply : string),
              Incoming.Chat m = Some chat
              /\ (let msg := {| Outgoing.ChatID := ID chat;
                                Outgoing.ReplyToMessageID := Incoming.MessageID m;
                                Outgoing.Text := reply |} in
                  sent w' = (sent w ++ [msg])%list
                  /\ logged w'
                     = match Send msg with
                       | Some err => (logged w ++ [sendFailure texts +:+ err])%list
                       | None => logged w
                       end)
              /\ (reply = startText texts
                  \/ reply = helpText texts
                  \/ (exists e : error,
                         (forall op, e <> errUnsupported op)
                         /\ reply = errorPrefix texts +:+ Error e +:+ errorSuffix texts)
                  \/ (exists res : string,
                         res <> "" /\ all_bytes result_byte res = true
                         /\ reply = resultPrefix texts +:+ res))
      end
  | Panicked =>
      exists m, message = Some m /\ Incoming.Text m <> "" /\ Incoming.Chat m = None
  end.
Proof.
  destruct message as [m|]; [|reflexivity]. unfold handleMessage.
  destruct (String.eqb_spec (Incoming.Text m) "") as [E|E]; [reflexivity|].
  destruct (Incoming.Chat m) as [chat|] eqn:Ec; [|now exists m].
  assert (Hshape :
            let reply := replyTo texts (TrimSpace (Incoming.Text m)) in
            reply = startText texts
            \/ reply = helpText texts
            \/ (exists e : error,
                   (forall op, e <> errUnsupported op)
                   /\ reply = errorPrefix texts +:+ Error e +:+ errorSuffix texts)
            \/ (exists res : string,
                   res <> "" /\ all_bytes result_byte res = true
                   /\ reply = resultPrefix texts +:+ res)).
  { cbv zeta. unfold replyTo. set (text := TrimSpace (Incoming.Text m)).
    destruct (String.eqb text "/start"); [now left|].
    destruct (String.eqb text "/help"); [now right; left|].
    destruct (Calculate text) as [res [e|]] eqn:Ecalc.
    - right; right; left. exists e. split; [|reflexivity].
      apply (Calculate_error_supported text). now rewrite Ecalc.
    - right; right; right. exists res.
      destruct (Calculate_success text) as (a & op & b & f & r & _ & _ & _ & _ & Hc);
        [now rewrite Ecalc|].
      rewrite Ecalc in Hc. symmetry in Hc.
      destruct (formatResult_bytes r res Hc) as [H1 H2]. auto. }
  cbv zeta in Hshape |- *.
  destruct (Send _) as [err|] eqn:Es;
    exists chat, (replyTo texts (TrimSpace (Incoming.Text m)));
    cbn [sent logged]; rewrite Es; repeat split; auto.
Qed.

End HandlerExtras.

(** * Instances on concrete inputs *)

(** The general part of C1 on ["-5+3"]. *)
Lemma sign_is_not_the_operator_witness :
  parseExpression (go := reference) "-5+3" = (of_Z (-5), "+", of_Z 3, None)
  /\ ("+" = "+" \/ "+" = "-")
  /\ exists (l : string) (c : ascii) (r : string),
      without_spaces "-5+3" = l +:+ String c ("+" +:+ r)
      /\ is_digit c = true
      /\ ParseFloat (go := reference) (l +:+ String c "") = Some (of_Z (-5))
      /\ ParseFloat (go := reference) r = Some (of_Z 3).
Proof.
  assert (Hp : parseExpression (go := reference) "-5+3"
               = (of_Z (-5), "+", of_Z 3, None)) by (vm_compute; reflexivity).
  assert (Ho : "+" = "+" \/ "+" = "-") by (left; reflexivity).
  split; [exact Hp|]. split; [exact Ho|].
  exact (proj2 (proj2 (proj2 (proj2 (sign_is_not_the_operator (go := reference)))))
           "-5+3" _ "+" _ Hp Ho).
Defined.

(** C2 as the specification states it fails: on no platform does
    [Calculate("abc")] fail with NoOperatorFound. *)
Lemma letters_not_NoOperatorFound :
  ~ (exists go : Platform,
        option_map kind (snd (Calculate (go := go) "abc")) = Some NoOperatorFound).
Proof. intros [go Hgo]. vm_compute in Hgo. discriminate Hgo. Qed.

(** C4 as the specification states it fails: with a tab between the
    operand and the operator, ["2\t+3"] fails with NoOperatorFound, while
    the text without whitespace, ["2+3"], evaluates to ["5"]. *)
Lemma tab_is_not_stripped :
  ~ (exists go : Platform,
        Calculate (go := go) ("2" +:+ tab +:+ "+3")
        = Calculate (go := go) (spec_remove_whitespace ("2" +:+ tab +:+ "+3"))).
Proof. intros [go Hgo]. vm_compute in Hgo. discriminate Hgo. Qed.

(** The hypothesis of [spaces_are_ignored] on the encoding is needed: the
    bytes C3 20 97 are not a well-formed text, and removing the space from
    between them leaves the encoding of [×]. *)
Example space_inside_an_ill_formed_sequence :
  let expr := String "195" (String " " (String "151" "")) in
  ValidString expr = false
  /\ without_spaces expr = "×"
  /\ Calculate (go := reference) expr = ("", Some errInvalidChars)
  /\ Calculate (go := reference) (without_spaces expr) = ("", Some errNoOperator).
Proof. cbv zeta. repeat (split; [vm_compute; reflexivity|]). vm_compute; reflexivity. Qed.

(** C4 on [" 2 + 3 "]. *)
Lemma spaces_are_ignored_witness :
  ValidString " 2 + 3 " = true
  /\ (len " 2 + 3 " <= maxExpressionLength)%nat
  /\ Calculate (go := reference) " 2 + 3 " = Calculate (go := reference) "2+3".
Proof.
  assert (Hv : ValidString " 2 + 3 " = true) by reflexivity.
  assert (Hl : (len " 2 + 3 " <= maxExpressionLength)%nat) by (vm_compute; lia).
  split; [exact Hv|]. split; [exact Hl|].
  exact (spaces_are_ignored (go := reference) " 2 + 3 " Hv Hl).
Defined.

(** C5 on ["1/0"]; on ["-7%3"], whose remainder [-1] has the sign of the
    dividend; and on the integers [-12] and [4], whose quotient is [-3]. *)
Lemma division_by_zero_rejected_witness :
  (validateExpression "1/0" = None
   /\ parseExpression (go := reference) "1/0" = (of_Z 1, "/", of_Z 0, None)
   /\ In "/" ["/"; "÷"; "%"]
   /\ eqb (of_Z 0) zero = true
   /\ fst (Calculate (go := reference) "1/0") = ""
   /\ option_map kind (snd (Calculate (go := reference) "1/0"))
      = Some DivisionByZero)
  /\ (validateExpression "-7%3" = None
      /\ parseExpression (go := reference) "-7%3" = (of_Z (-7), "%", of_Z 3, None)
      /\ In "%" ["/"; "÷"; "%"]
      /\ eqb (of_Z 3) zero = false
      /\ Calculate (go := reference) "-7%3"
         = formatResult (go := reference)
             (if String.eqb "%" "%" then Mod (of_Z (-7)) (of_Z 3)
              else quo (of_Z (-7)) (of_Z 3))
      /\ formatResult (go := reference) (Mod (of_Z (-7)) (of_Z 3)) = ("-1", None))
  /\ ((Z.abs (-12) < 2 ^ 53)%Z /\ (Z.abs 4 < 2 ^ 53)%Z /\ 4%Z <> 0%Z
      /\ Z.rem (-12) 4 = 0%Z
      /\ quo (of_Z (-12)) (of_Z 4) = of_Z (-3)
      /\ Calculate (go := reference) "-12/4" = ("-3", None)
      /\ Calculate (go := reference) "-12÷4" = ("-3", None)
      /\ Mod (of_Z (-12)) (of_Z 4) = S754_zero true
      /\ Calculate (go := reference) "-12%4" = ("-0", None)).
Proof.
  split; [|split].
  - assert (Hv : validateExpression "1/0" = None) by reflexivity.
    assert (Hp : parseExpression (go := reference) "1/0"
                 = (of_Z 1, "/", of_Z 0, None)) by (vm_compute; reflexivity).
    assert (Hi : In "/" ["/"; "÷"; "%"]) by (left; reflexivity).
    assert (Hz : eqb (of_Z 0) zero = true) by reflexivity.
    split; [exact Hv|]. split; [exact Hp|]. split; [exact Hi|]. split; [exact Hz|].
    exact (proj1 (proj1 (division_by_zero_rejected (go := reference))
                    "1/0" (of_Z 1) "/" (of_Z 0) Hv Hp Hi) Hz).
  - assert (Hv : validateExpression "-7%3" = None) by reflexivity.
    assert (Hp : parseExpression (go := reference) "-7%3"
                 = (of_Z (-7), "%", of_Z 3, None)) by (vm_compute; reflexivity).
    assert (Hi : In "%" ["/"; "÷"; "%"]) by (right; right; left; reflexivity).
    assert (Hz : eqb (of_Z 3) zero = false) by reflexivity.
    split; [exact Hv|]. split; [exact Hp|]. split; [exact Hi|]. split; [exact Hz|].
    split; [|vm_compute; reflexivity].
    exact (proj2 (proj1 (division_by_zero_rejected (go := reference))
                    "-7%3" (of_Z (-7)) "%" (of_Z 3) Hv Hp Hi) Hz).
  - assert (Hp : (Z.abs (-12) < 2 ^ 53)%Z) by (vm_compute; reflexivity).
    assert (Hq : (Z.abs 4 < 2 ^ 53)%Z) by (vm_compute; reflexivity).
    assert (Hq0 : 4%Z <> 0%Z) by discriminate.
    assert (Hr : Z.rem (-12) 4 = 0%Z) by reflexivity.
    assert (Hz : (-12 = 0 -> 0 < 4)%Z) by (intros _; reflexivity).
    split; [exact Hp|]. split; [exact Hq|]. split; [exact Hq0|]. split; [exact Hr|].
    destruct (proj1 (proj2 (division_by_zero_rejected (go := reference)))
                (-12)%Z 4%Z Hp Hq Hq0) as (Hquo & Hmod & Hrem).
    destruct (Hquo Hr Hz) as (H1 & H2 & H3).
    split; [exact H1|]. split; [exact H2|]. split; [exact H3|].
    split; [exact Hmod|exact Hrem].
Defined.

(** C6 on ["0^-2"], whose result is [+Inf], and on ["-8^.3"], whose result
    is NaN. *)
Lemma non_finite_results_rejected_witness :
  (validateExpression "0^-2" = None
   /\ parseExpression (go := reference) "0^-2" = (of_Z 0, "^", of_Z (-2), None)
   /\ supportedOps (go := reference) !! "^"
      = Some (fun a b => (Pow (go := reference) a b, None))
   /\ (Pow (go := reference) (of_Z 0) (of_Z (-2)), @None error) = (Inf false, None)
   /\ IsInf (Inf false) 0 = true
   /\ Calculate (go := reference) "0^-2" = ("", Some errTooLarge))
  /\ (validateExpression "-8^.3" = None
      /\ parseExpression (go := reference) "-8^.3"
         = (of_Z (-8), "^", S754_finite false 5404319552844595 (-54), None)
      /\ (Pow (go := reference) (of_Z (-8)) (S754_finite false 5404319552844595 (-54)),
          @None error) = (NaN, None)
      /\ IsNaN NaN = true
      /\ Calculate (go := reference) "-8^.3" = ("", Some errNaN)).
Proof.
  assert (Hf : supportedOps (go := reference) !! "^"
               = Some (fun a b => (Pow (go := reference) a b, None)))
    by reflexivity.
  split.
  - assert (Hv : validateExpression "0^-2" = None) by reflexivity.
    assert (Hp : parseExpression (go := reference) "0^-2"
                 = (of_Z 0, "^", of_Z (-2), None)) by (vm_compute; reflexivity).
    assert (Hr : (Pow (go := reference) (of_Z 0) (of_Z (-2)), @None error)
                 = (Inf false, None)) by (vm_compute; reflexivity).
    assert (Hi : IsInf (Inf false) 0 = true) by reflexivity.
    split; [exact Hv|]. split; [exact Hp|]. split; [exact Hf|]. split; [exact Hr|].
    split; [exact Hi|].
    exact (proj1 (non_finite_results_rejected (go := reference)
                    "0^-2" (of_Z 0) "^" (of_Z (-2)) _ (Inf false) Hv Hp Hf Hr) Hi).
  - assert (Hv : validateExpression "-8^.3" = None) by reflexivity.
    assert (Hp : parseExpression (go := reference) "-8^.3"
                 = (of_Z (-8), "^", S754_finite false 5404319552844595 (-54), None))
      by (vm_compute; reflexivity).
    assert (Hr : (Pow (go := reference) (of_Z (-8))
                      (S754_finite false 5404319552844595 (-54)), @None error)
                 = (NaN, None)) by (vm_compute; reflexivity).
    assert (Hn : IsNaN NaN = true) by reflexivity.
    split; [exact Hv|]. split; [exact Hp|]. split; [exact Hr|]. split; [exact Hn|].
    exact (proj1 (proj2 (non_finite_results_rejected (go := reference)
                    "-8^.3" (of_Z (-8)) "^" (S754_finite false 5404319552844595 (-54))
                    _ NaN Hv Hp Hf Hr)) Hn).
Defined.

(** C7 on ["(2+3)"]. *)
Lemma parentheses_fail_at_tokenization_witness :
  validateExpression "(2+3)" = None
  /\ contains_byte "(" "(2+3)" || contains_byte ")" "(2+3)" = true
  /\ Calculate (go := reference) "(2+3)" = ("", Some errNoOperator)
  /\ validChar (byteval "(") = true /\ validChar (byteval ")") = true.
Proof.
  assert (Hv : validateExpression "(2+3)" = None) by reflexivity.
  assert (Hc : contains_byte "(" "(2+3)" || contains_byte ")" "(2+3)" = true)
    by reflexivity.
  split; [exact Hv|]. split; [exact Hc|].
  exact (parentheses_fail_at_tokenization (go := reference) "(2+3)" Hv Hc).
Defined.


(** C9 on ["2+3"]. *)
Lemma unsupported_operator_unreachable_witness :
  parseExpression (go := reference) "2+3" = (of_Z 2, "+", of_Z 3, None)
  /\ In "+" operators
  /\ is_Some (supportedOps (go := reference) !! "+").
Proof.
  assert (Hp : parseExpression (go := reference) "2+3" = (of_Z 2, "+", of_Z 3, None))
    by (vm_compute; reflexivity).
  split; [exact Hp|].
  exact (proj1 (unsupported_operator_unreachable (go := reference) "2+3")
           (of_Z 2) "+" (of_Z 3) Hp).
Defined.

(** C10 on ["5$3"]. *)
Lemma error_result_is_empty_witness :
  snd (Calculate (go := reference) "5$3") = Some errInvalidChars
  /\ fst (Calculate (go := reference) "5$3") = "".
Proof.
  assert (He : snd (Calculate (go := reference) "5$3") = Some errInvalidChars)
    by (vm_compute; reflexivity).
  split; [exact He|].
  exact (proj1 (error_result_is_empty (go := reference) "5$3") errInvalidChars He).
Defined.

(** * Further properties: instances on concrete inputs *)

(** X1 on ["2×3"]. *)
Lemma validated_text_is_well_formed_witness :
  validateExpression "2×3" = None
  /\ ValidString "2×3" = true
  /\ all_bytes class_byte "2×3" = true
  /\ "2×3" <> ""
  /\ (len "2×3" <= maxExpressionLength)%nat.
Proof.
  assert (Hv : validateExpression "2×3" = None) by reflexivity.
  split; [exact Hv|].
  exact (validated_text_is_well_formed "2×3" Hv).
Defined.

(** X3 on ["12+30"]. *)
Lemma plain_expression_is_evaluated_witness :
  all_bytes plain_byte "12" = true
  /\ all_bytes plain_byte "30" = true
  /\ ParseFloat (go := reference) "12" = Some (of_Z 12)
  /\ ParseFloat (go := reference) "30" = Some (of_Z 30)
  /\ In "+" operators
  /\ supportedOps (go := reference) !! "+" = Some (fun a b => (add a b, None))
  /\ ends_in_digit "12" = true
  /\ parseExpression (go := reference) ("12" +:+ "+" +:+ "30")
     = (of_Z 12, "+", of_Z 30, None)
  /\ Calculate (go := reference) ("12" +:+ "+" +:+ "30")
     = formatResult (go := reference) (add (of_Z 12) (of_Z 30)).
Proof.
  assert (Hl : all_bytes plain_byte "12" = true) by reflexivity.
  assert (Hr : all_bytes plain_byte "30" = true) by reflexivity.
  assert (Ha : ParseFloat (go := reference) "12" = Some (of_Z 12))
    by (vm_compute; reflexivity).
  assert (Hb : ParseFloat (go := reference) "30" = Some (of_Z 30))
    by (vm_compute; reflexivity).
  assert (Hin : In "+" operators) by (simpl; tauto).
  assert (Hf : supportedOps (go := reference) !! "+"
               = Some (fun a b => (add a b, None))) by reflexivity.
  assert (Hd : ends_in_digit "12" = true) by reflexivity.
  assert (Hlen : (len ("12" +:+ "+" +:+ "30") <= maxExpressionLength)%nat)
    by (vm_compute; lia).
  repeat (split; [assumption|]).
  pose proof (plain_expression_is_evaluated (go := reference)
                "12" "+" "30" (of_Z 12) (of_Z 30) _ Hl Hr Ha Hb Hin Hf (fun _ => Hd))
    as [Hp Hc].
  split; [exact Hp|exact (Hc Hlen)].
Defined.

(** X4 on [" 2.5 * 4 "]. *)
Lemma accepted_operands_are_plain_decimals_witness :
  validateExpression " 2.5 * 4 " = None
  /\ parseExpression (go := reference) " 2.5 * 4 "
     = (S754_finite false 5629499534213120 (-51), "*", of_Z 4, None)
  /\ exists l r : string,
      without_spaces " 2.5 * 4 " = l +:+ "*" +:+ r
      /\ In "*" operators
      /\ all_bytes plain_byte l = true /\ all_bytes plain_byte r = true
      /\ ParseFloat (go := reference) l = Some (S754_finite false 5629499534213120 (-51))
      /\ ParseFloat (go := reference) r = Some (of_Z 4).
Proof.
  assert (Hv : validateExpression " 2.5 * 4 " = None) by reflexivity.
  assert (Hp : parseExpression (go := reference) " 2.5 * 4 "
               = (S754_finite false 5629499534213120 (-51), "*", of_Z 4, None))
    by (vm_compute; reflexivity).
  split; [exact Hv|]. split; [exact Hp|].
  exact (accepted_operands_are_plain_decimals (go := reference) " 2.5 * 4 " _ "*" _ Hv Hp).
Defined.

(** X5 on the operands ["6"] and ["3"]. *)
Lemma operator_synonyms_witness :
  all_bytes plain_byte "6" = true
  /\ all_bytes plain_byte "3" = true
  /\ ParseFloat (go := reference) "6" = Some (of_Z 6)
  /\ ParseFloat (go := reference) "3" = Some (of_Z 3)
  /\ (len "6" + len "3" + 2 <= maxExpressionLength)%nat
  /\ Calculate (go := reference) ("6" +:+ "×" +:+ "3")
     = Calculate (go := reference) ("6" +:+ "*" +:+ "3")
  /\ Calculate (go := reference) ("6" +:+ "÷" +:+ "3")
     = Calculate (go := reference) ("6" +:+ "/" +:+ "3")
  /\ Calculate (go := reference) ("6" +:+ "**" +:+ "3")
     = Calculate (go := reference) ("6" +:+ "^" +:+ "3").
Proof.
  assert (Hl : all_bytes plain_byte "6" = true) by reflexivity.
  assert (Hr : all_bytes plain_byte "3" = true) by reflexivity.
  assert (Ha : ParseFloat (go := reference) "6" = Some (of_Z 6))
    by (vm_compute; reflexivity).
  assert (Hb : ParseFloat (go := reference) "3" = Some (of_Z 3))
    by (vm_compute; reflexivity).
  assert (Hlen : (len "6" + len "3" + 2 <= maxExpressionLength)%nat)
    by (vm_compute; lia).
  repeat (split; [assumption|]).
  exact (operator_synonyms (go := reference) "6" "3" _ _ Hl Hr Ha Hb Hlen).
Defined.

(** X7 on ["1/3"], whose result is ["0.333333"]. *)
Lemma result_is_a_numeral_witness :
  snd (Calculate (go := reference) "1/3") = None
  /\ fst (Calculate (go := reference) "1/3") <> ""
  /\ all_bytes result_byte (fst (Calculate (go := reference) "1/3")) = true.
Proof.
  assert (Hs : snd (Calculate (go := reference) "1/3") = None)
    by (vm_compute; reflexivity).
  split; [exact Hs|].
  exact (result_is_a_numeral (go := reference) "1/3" Hs).
Defined.

(** X8 on [-5] and [3]: ["-5+3"] gives ["-2"] and ["-5-3"] gives ["-8"]. *)
Lemma integer_sum_and_difference_witness :
  (Z.abs (-5) < 2 ^ 53)%Z /\ (Z.abs 3 < 2 ^ 53)%Z
  /\ (Z.abs (-5 + 3) < 2 ^ 53)%Z /\ (Z.abs (-5 - 3) < 2 ^ 53)%Z
  /\ Calculate (go := reference) (numeral (-5) +:+ "+" +:+ numeral 3)
     = (numeral (-5 + 3), None)
  /\ Calculate (go := reference) (numeral (-5) +:+ "-" +:+ numeral 3)
     = (numeral (-5 - 3), None).
Proof.
  assert (Hp : (Z.abs (-5) < 2 ^ 53)%Z) by (vm_compute; reflexivity).
  assert (Hq : (Z.abs 3 < 2 ^ 53)%Z) by (vm_compute; reflexivity).
  assert (Hs : (Z.abs (-5 + 3) < 2 ^ 53)%Z) by (vm_compute; reflexivity).
  assert (Hd : (Z.abs (-5 - 3) < 2 ^ 53)%Z) by (vm_compute; reflexivity).
  repeat (split; [assumption|]).
  pose proof (integer_sum_and_difference (go := reference) (-5) 3 Hp Hq) as [H1 H2].
  split; [exact (H1 Hs)|exact (H2 Hd)].
Defined.

(** X9 on [-4] and [6]. *)
Lemma integer_product_witness :
  (Z.abs (-4) < 2 ^ 53)%Z /\ (Z.abs 6 < 2 ^ 53)%Z /\ (Z.abs (-4 * 6) < 2 ^ 53)%Z
  /\ (-4 = 0 -> 0 <= 6)%Z /\ (6 = 0 -> 0 <= -4)%Z
  /\ Calculate (go := reference) (numeral (-4) +:+ "*" +:+ numeral 6)
     = (numeral (-4 * 6), None)
  /\ Calculate (go := reference) (numeral (-4) +:+ "×" +:+ numeral 6)
     = (numeral (-4 * 6), None).
Proof.
  assert (Hp : (Z.abs (-4) < 2 ^ 53)%Z) by (vm_compute; reflexivity).
  assert (Hq : (Z.abs 6 < 2 ^ 53)%Z) by (vm_compute; reflexivity).
  assert (Hpq : (Z.abs (-4 * 6) < 2 ^ 53)%Z) by (vm_compute; reflexivity).
  assert (Hzp : (-4 = 0 -> 0 <= 6)%Z) by lia.
  assert (Hzq : (6 = 0 -> 0 <= -4)%Z) by lia.
  repeat (split; [assumption|]).
  exact (integer_product (go := reference) (-4) 6 Hp Hq Hpq Hzp Hzq).
Defined.

(** X10 on [-12] and [4]. *)
Lemma integer_quotient_witness :
  (Z.abs (-12) < 2 ^ 53)%Z /\ (Z.abs 4 < 2 ^ 53)%Z /\ 4%Z <> 0%Z
  /\ Z.rem (-12) 4 = 0%Z /\ (-12 = 0 -> 0 < 4)%Z
  /\ Calculate (go := reference) (numeral (-12) +:+ "/" +:+ numeral 4)
     = (numeral (-12 / 4), None)
  /\ Calculate (go := reference) (numeral (-12) +:+ "÷" +:+ numeral 4)
     = (numeral (-12 / 4), None).
Proof.
  assert (Hp : (Z.abs (-12) < 2 ^ 53)%Z) by (vm_compute; reflexivity).
  assert (Hq : (Z.abs 4 < 2 ^ 53)%Z) by (vm_compute; reflexivity).
  assert (Hq0 : 4%Z <> 0%Z) by lia.
  assert (Hr : Z.rem (-12) 4 = 0%Z) by reflexivity.
  assert (Hz : (-12 = 0 -> 0 < 4)%Z) by lia.
  repeat (split; [assumption|]).
  exact (integer_quotient (go := reference) (-12) 4 Hp Hq Hq0 Hr Hz).
Defined.

(** X11 on [-7] and [3], with remainder [-1], and on [-6] and [3], where
    the zero remainder is printed ["-0"]. *)
Lemma integer_remainder_witness :
  (Z.abs (-7) < 2 ^ 53)%Z /\ (Z.abs (-6) < 2 ^ 53)%Z /\ (Z.abs 3 < 2 ^ 53)%Z
  /\ 3%Z <> 0%Z
  /\ Calculate (go := reference) (numeral (-7) +:+ "%" +:+ numeral 3)
     = (if (Z.rem (-7) 3 =? 0)%Z
        then (if (-7 <? 0)%Z then "-0" else "0")
        else numeral (Z.rem (-7) 3), None)
  /\ Calculate (go := reference) (numeral (-6) +:+ "%" +:+ numeral 3)
     = (if (Z.rem (-6) 3 =? 0)%Z
        then (if (-6 <? 0)%Z then "-0" else "0")
        else numeral (Z.rem (-6) 3), None).
Proof.
  assert (Hp : (Z.abs (-7) < 2 ^ 53)%Z) by (vm_compute; reflexivity).
  assert (Hp' : (Z.abs (-6) < 2 ^ 53)%Z) by (vm_compute; reflexivity).
  assert (Hq : (Z.abs 3 < 2 ^ 53)%Z) by (vm_compute; reflexivity).
  assert (Hq0 : 3%Z <> 0%Z) by lia.
  repeat (split; [assumption|]).
  split.
  - exact (integer_remainder (go := reference) (-7) 3 Hp Hq Hq0).
  - exact (integer_remainder (go := reference) (-6) 3 Hp' Hq Hq0).
Defined.

(** X12 on [p = -3], [q = -2] and the operator [^]. *)
Lemma integer_power_special_cases_witness :
  (Z.abs (-3) < 2 ^ 53)%Z /\ (Z.abs (-2) < 2 ^ 53)%Z
  /\ ("^" = "^" \/ "^" = "**")
  /\ (-2 < 0)%Z
  /\ Calculate (go := reference) (numeral (-3) +:+ "^" +:+ "0") = ("1", None)
  /\ Calculate (go := reference) (numeral (-3) +:+ "^" +:+ "1") = (numeral (-3), None)
  /\ Calculate (go := reference) ("1" +:+ "^" +:+ numeral (-2)) = ("1", None)
  /\ Calculate (go := reference) ("0" +:+ "^" +:+ numeral (-2))
     = ("", Some errTooLarge).
Proof.
  assert (Hp : (Z.abs (-3) < 2 ^ 53)%Z) by (vm_compute; reflexivity).
  assert (Hq : (Z.abs (-2) < 2 ^ 53)%Z) by (vm_compute; reflexivity).
  assert (Hop : "^" = "^" \/ "^" = "**") by (left; reflexivity).
  assert (Hneg : (-2 < 0)%Z) by lia.
  repeat (split; [assumption|]).
  pose proof (integer_power_special_cases (go := reference) (-3) (-2) "^" Hp Hq Hop)
    as (H1 & H2 & H3 & H4).
  split; [exact H1|]. split; [exact H2|]. split; [exact H3|exact (H4 Hneg)].
Defined.

(** X14 on a message that [Send] fails to deliver. *)
Lemma handler_replies_once_witness :
  match handleMessage (go := reference) main_go (fun _ => Some "timeout")
          (Some {| Incoming.MessageID := 7; Incoming.Chat := Some {| ID := 42 |};
                   Incoming.Text := " 1/3 " |})
          {| sent := []; logged := [] |} with
  | Returned w' =>
      sent w' = [{| Outgoing.ChatID := 42; Outgoing.ReplyToMessageID := 7;
                    Outgoing.Text := "✅Результат: 0.333333" |}]
      /\ logged w' = ["Ошибка отправки сообщения: timeout"]
  | Panicked => False
  end.
Proof.
  pose proof (handler_replies_once (go := reference) main_go
                (fun _ => Some "timeout")
                (Some {| Incoming.MessageID := 7;
                         Incoming.Chat := Some {| ID := 42 |};
                         Incoming.Text := " 1/3 " |})
                {| sent := []; logged := [] |}) as H.
  destruct (handleMessage _ _ _ _) as [w'|] eqn:E.
  - cbn [Incoming.Text String.eqb Ascii.eqb Bool.eqb] in H.
    destruct H as (chat & reply & Hc & [Hs Hl] & _).
    split; [|exact Hl].
    vm_compute in E. injection E as <-. reflexivity.
  - vm_compute in E. discriminate E.
Defined.

(** The handler of main.go on the message [" 2 + 3 "], and on a message of
    102 spaces, which is answered with the empty-expression error and not
    with the too-long error. *)
Example handler_on_messages :
  let m text :=
    {| Incoming.MessageID := 7; Incoming.Chat := Some {| ID := 42 |};
       Incoming.Text := text |} in
  let w0 := {| sent := []; logged := [] |} in
  let spaces := "                                                                                                      " in
  handleMessage (go := reference) main_go (fun _ => None) (Some (m " 2 + 3 ")) w0
  = Returned {| sent := [{| Outgoing.ChatID := 42;
                            Outgoing.ReplyToMessageID := 7;
                            Outgoing.Text := "✅Результат: 5" |}];
                logged := [] |}
  /\ len spaces = 102%nat
  /\ Calculate (go := reference) spaces = ("", Some errTooLong)
  /\ exists reply,
      handleMessage (go := reference) main_go (fun _ => None) (Some (m spaces)) w0
      = Returned {| sent := [{| Outgoing.ChatID := 42;
                                Outgoing.ReplyToMessageID := 7;
                                Outgoing.Text := reply |}];
                    logged := [] |}
      /\ HasPrefix reply "Ошибка: пустое выражение" = true.
Proof.
  cbv zeta. split; [vm_compute; reflexivity|]. split; [vm_compute; reflexivity|].
  split; [vm_compute; reflexivity|].
  eexists. split; vm_compute; reflexivity.
Qed.
